(** * TicketGen: a shallow embedding of [src/TicketGen.py]

    The ticket renderer is a single Python class, [TicketGenerator], that
    drives three external collaborators: the Pillow image library, a font
    provider and the [qrcode] encoder.  The embedding keeps the code's own
    structure:

    - Python [int] is [Z]; Python [float] is IEEE binary64, taken from the
      executable specification [SpecFloat] (precision 53, emax 1024), so
      that [int(255 * (1 - i / width))] and the rounding of a crop box
      compute what Python computes;
    - an exception is the left injection of [result];
    - a Pillow image is a record of mode, size and a pixel function; the
      arithmetic of resampling, text rasterisation, mode conversion and
      compositing is left to the collaborator interface [PIL.Raster];
    - the file system a call reads is an explicit argument ([PIL.World]);
    - [self.icons] is a finite map from icon names to images;
    - the methods are given twice: as functions on images, and, in
      [Objects], as computations on a heap of image objects that [paste]
      and the draw calls change in place, as Python has it; the second
      is shown to compute what the first computes.

    The first half of the file is the model, the second half the
    properties: facts on the Pillow calls and on binary64 rounding first,
    then the statements on [generate_ticket], icon loading, the QR code,
    the background, the rounded rectangle, the gradient and the image
    objects. *)

From Stdlib Require Import ZArith List String Ascii Bool Lia DecimalString.
From Stdlib Require Import Floats.SpecFloat.
From Stdlib Require Import Reals Lra.
From stdpp Require Import gmap strings.

Import ListNotations.
Local Open Scope string_scope.
Local Open Scope Z_scope.

(** ** Exceptions and the error monad *)

Inductive exn : Type :=
  | OSError (path : string)
  | ValueError (msg : string)
  | ZeroDivisionError
  | OverflowError
  | MemoryError
  | KeyError (key : string)
  | DataOverflowError.

Definition result (A : Type) : Type := (exn + A)%type.

Definition ok {A} (a : A) : result A := inr a.
Definition raise {A} (e : exn) : result A := inl e.

Definition bind {A B} (r : result A) (k : A -> result B) : result B :=
  match r with
  | inl e => inl e
  | inr a => k a
  end.

Declare Scope py_scope.
Delimit Scope py_scope with py.
Notation "'let*' x ':=' r 'in' k" := (bind r (fun x => k))
  (at level 10, x pattern, r at level 100, k at level 200) : py_scope.
Local Open Scope py_scope.

Definition is_ok {A} (r : result A) : bool :=
  match r with inr _ => true | inl _ => false end.

(** [str(n)] for an int, also what an f-string makes of it *)
Definition str (n : Z) : string :=
  DecimalString.NilZero.string_of_int (Z.to_int n).

(** ** Python floats (binary64) *)

Module PyFloat.

Definition prec : Z := 53.
Definition emax : Z := 1024.

Definition float : Type := spec_float.

(** [float(n)] for a Python int: round to nearest even; no value for an
    int beyond the range of a double (Python raises OverflowError). *)
Definition of_int (n : Z) : result float :=
  match binary_normalize prec emax n 0 false with
  | S754_infinity _ | S754_nan => raise OverflowError
  | f => ok f
  end.

Definition finite (f : float) : result float :=
  match f with
  | S754_infinity _ | S754_nan => raise OverflowError
  | _ => ok f
  end.

Definition is_zero (f : float) : bool :=
  match f with S754_zero _ => true | _ => false end.

(** [a / b] on two ints (true division).  For operands of magnitude up
    to 2^53, which covers every image dimension, the correctly rounded
    quotient is the binary64 quotient of the converted operands. *)
Definition int_truediv (a b : Z) : result float :=
  if b =? 0 then raise ZeroDivisionError
  else
    let* fa := of_int a in
    let* fb := of_int b in
    finite (SFdiv prec emax fa fb).

(** [n / x] with an int on the left and a float on the right. *)
Definition int_div_float (n : Z) (x : float) : result float :=
  if is_zero x then raise ZeroDivisionError
  else
    let* fn := of_int n in
    ok (SFdiv prec emax fn x).

(** [n * x], [x + n] and [n - x]: the int operand is converted first. *)
Definition int_mul_float (n : Z) (x : float) : result float :=
  let* fn := of_int n in
  ok (SFmul prec emax fn x).

Definition float_add_int (x : float) (n : Z) : result float :=
  let* fn := of_int n in
  ok (SFadd prec emax x fn).

Definition int_sub_float (n : Z) (x : float) : result float :=
  let* fn := of_int n in
  ok (SFsub prec emax fn x).

(** [x > y] *)
Definition gt (x y : float) : bool := SFltb y x.

(** [x < y] *)
Definition lt (x y : float) : bool := SFltb x y.

Definition cond_opp (s : bool) (z : Z) : Z := if s then - z else z.

(** [int(x)]: truncation toward zero; OverflowError on an infinity,
    ValueError on a NaN. *)
Definition to_int (x : float) : result Z :=
  match x with
  | S754_zero _ => ok 0
  | S754_infinity _ => raise OverflowError
  | S754_nan => raise (ValueError "cannot convert float NaN to integer")
  | S754_finite s m e =>
      ok (cond_opp s (if 0 <=? e then Z.shiftl (Zpos m) e
                      else Z.shiftr (Zpos m) (- e)))
  end.

(** [round(x)] with one argument: the nearest int, a tie going to the
    even neighbour. *)
Definition round (x : float) : result Z :=
  match x with
  | S754_zero _ => ok 0
  | S754_infinity _ => raise OverflowError
  | S754_nan => raise (ValueError "cannot convert float NaN to integer")
  | S754_finite s m e =>
      if 0 <=? e then ok (cond_opp s (Z.shiftl (Zpos m) e))
      else
        let q := Z.shiftr (Zpos m) (- e) in
        let r := Zpos m - Z.shiftl q (- e) in
        let half := Z.shiftl 1 (- e - 1) in
        let up :=
          match r ?= half with
          | Lt => false
          | Gt => true
          | Eq => Z.odd q
          end in
        ok (cond_opp s (if up then q + 1 else q))
  end.

End PyFloat.

(** ** Real values of binary64 floats

    What the floats of [PyFloat] mean as real numbers, for stating how the
    operations round. *)

Module Binary64.
(** [2 ^ e] as a real, for any integer exponent *)
Definition bpow (e : Z) : R := powerRZ 2 e.

(** the real a mantissa and an exponent stand for *)
Definition F2R (m e : Z) : R := (IZR m * bpow e)%R.

(** the value of a float; zero for what is not finite *)
Definition B2R (f : spec_float) : R :=
  match f with
  | S754_finite s m e => F2R (if s then Z.neg m else Z.pos m) e
  | _ => 0%R
  end.

(** [x] lies in the slot from [m * 2^e] to [(m + 1) * 2^e], at the place
    [l] tells: on its lower end, or inside, below, on or above the middle *)
Definition located (m e : Z) (l : location) (x : R) : Prop :=
  match l with
  | loc_Exact => x = F2R m e
  | loc_Inexact c =>
      (F2R m e < x < F2R (m + 1) e)%R
      /\ match c with
         | Lt => (2 * x < F2R m e + F2R (m + 1) e)%R
         | Eq => (2 * x = F2R m e + F2R (m + 1) e)%R
         | Gt => (F2R m e + F2R (m + 1) e < 2 * x)%R
         end
  end.

(** the positive normal numbers: 53 significant bits *)
Definition normal (g : R) : Prop :=
  exists m e, g = F2R m e /\ 2 ^ 52 <= m < 2 ^ 53.

(** [f] is a positive normal number, and none is closer to [x] *)
Definition nearest (x f : R) : Prop :=
  normal f /\ forall g, normal g -> (Rabs (x - f) <= Rabs (x - g))%R.

(** a positive float with a full mantissa and an exponent in range *)
Definition normal_float (f : spec_float) : Prop :=
  exists m e, f = S754_finite false m e
              /\ 2 ^ 52 <= Z.pos m < 2 ^ 53 /\ -1074 <= e <= 971.

(** the same for a mantissa being shifted, with its round and sticky bits *)
Definition record_located (mrs : shr_record) (e : Z) (x : R) : Prop :=
  0 <= shr_m mrs /\ located (shr_m mrs) e (loc_of_shr_record mrs) x.
End Binary64.

(** ** Pillow images *)

Module PIL.

Inductive Mode : Type := M1 | L | LA | P | RGB | RGBA | CMYK.

Definition Mode_eqb (a b : Mode) : bool :=
  match a, b with
  | M1, M1 | L, L | LA, LA | P, P | RGB, RGB | RGBA, RGBA | CMYK, CMYK => true
  | _, _ => false
  end.

(** [im.getbands()] contains ['A'] *)
Definition has_alpha_band (m : Mode) : bool :=
  match m with
  | LA | RGBA => true
  | _ => false
  end.

(** the modes [paste] accepts for a mask image *)
Definition mask_mode_ok (m : Mode) : bool :=
  match m with
  | M1 | L | LA | RGBA => true
  | _ => false
  end.

Record Color : Type := mkColor { red : Z; green : Z; blue : Z; alpha : Z }.

(** An RGB triple used as ink is opaque. *)
Definition rgb (r g b : Z) : Color := mkColor r g b 255.

Definition Pixels : Type := Z -> Z -> Color.

Inductive Filter : Type := NEAREST | BICUBIC | LANCZOS.

(** A font handle: the file it was loaded from and its point size;
    [DefaultFont] is what [ImageFont.load_default()] returns. *)
Inductive Font : Type :=
  | TrueType (file : string) (points : Z)
  | DefaultFont.

Definition Box : Type := (Z * Z * Z * Z)%type.

(** The calls made through an [ImageDraw.Draw] object. *)
Inductive DrawCall : Type :=
  | CallText (xy : Z * Z) (text : string) (font : Font) (fill : Color)
  | CallLine (xy : Box) (fill : Color)
  | CallRectangle (xy : Box) (fill : Color)
  | CallPieslice (xy : Box) (start stop : Z) (fill : Color).

Definition Color_eqb (a b : Color) : bool :=
  (red a =? red b) && (green a =? green b) && (blue a =? blue b)
  && (alpha a =? alpha b).

Definition Font_eqb (a b : Font) : bool :=
  match a, b with
  | TrueType fa pa, TrueType fb pb => String.eqb fa fb && (pa =? pb)
  | DefaultFont, DefaultFont => true
  | _, _ => false
  end.

Definition Box_eqb (a b : Box) : bool :=
  let '(a0, a1, a2, a3) := a in
  let '(b0, b1, b2, b3) := b in
  (a0 =? b0) && (a1 =? b1) && (a2 =? b2) && (a3 =? b3).

Definition DrawCall_eqb (a b : DrawCall) : bool :=
  match a, b with
  | CallText (xa, ya) ta fa ca, CallText (xb, yb) tb fb cb =>
      (xa =? xb) && (ya =? yb) && String.eqb ta tb && Font_eqb fa fb
      && Color_eqb ca cb
  | CallLine ba ca, CallLine bb cb => Box_eqb ba bb && Color_eqb ca cb
  | CallRectangle ba ca, CallRectangle bb cb => Box_eqb ba bb && Color_eqb ca cb
  | CallPieslice ba sa ea ca, CallPieslice bb sb eb cb =>
      Box_eqb ba bb && (sa =? sb) && (ea =? eb) && Color_eqb ca cb
  | _, _ => false
  end.

(** An image object: mode, size, pixel access, and the history of the
    draw calls made on this object (most recent first). *)
Record Image : Type := mkImage {
  mode : Mode;
  width : Z;
  height : Z;
  px : Pixels;
  drawn : list DrawCall
}.

Definition size (im : Image) : Z * Z := (width im, height im).

(** mode and size, what the drawing calls leave alone *)
Definition shape (im : Image) : Mode * Z * Z := (mode im, width im, height im).

(** [after] is [before] with more draw calls on it: same mode and size,
    and a history that ends with the one of [before]. *)
Definition extends (after before : Image) : Prop :=
  shape after = shape before
  /\ exists calls, drawn after = (calls ++ drawn before)%list.

Definition in_bounds (im : Image) (x y : Z) : bool :=
  (0 <=? x) && (x <? width im) && (0 <=? y) && (y <? height im).

(** The collaborators' pixel arithmetic, consumed through its interface
    only. *)
Class Raster : Type := {
  (** content of [im.resize((w, h), filter)] *)
  resample : Filter -> Mode -> Z * Z -> Pixels -> Z * Z -> Pixels;
  (** content of [im.convert(mode)] *)
  convert_pixels : Mode -> Mode -> Pixels -> Pixels;
  (** one pixel pasted through a mask level *)
  blend : Color -> Color -> Z -> Color;
  (** one pixel of [Image.alpha_composite] *)
  over : Color -> Color -> Color;
  (** [draw.textbbox((0, 0), text, font=font)] *)
  textbbox : Font -> string -> Box;
  (** coverage of the text rendered at the origin *)
  text_ink : Font -> string -> Z -> Z -> Z;
  (** pixels of a line that is neither vertical nor horizontal *)
  line_ink : Box -> Z -> Z -> bool;
  (** pixels of [draw.pieslice(box, start, stop)] *)
  pieslice_ink : Box -> Z -> Z -> Z -> Z -> bool;
  (** dark modules of the QR symbol of a payload at a version *)
  qr_module : string -> Z -> Z -> Z -> bool
}.

(** What the file system holds: the image [Image.open] returns for a
    path, [None] where the file is missing or is no image that can be
    read, and the font files that can be loaded. *)
Record World : Type := mkWorld {
  image_file : string -> option Image;
  font_file : string -> bool
}.

Definition INT_MAX : Z := 2147483647.

(** [Image.new(mode, size, color)]: a negative size is a ValueError, a
    size beyond a C int an OverflowError, and a line too long for the
    core to allocate a MemoryError. *)
Definition new (m : Mode) (sz : Z * Z) (c : Color) : result Image :=
  let '(w, h) := sz in
  if (w <? 0) || (h <? 0) then raise (ValueError "Width and height must be >= 0")
  else if (INT_MAX <? w) || (INT_MAX <? h) then raise OverflowError
  else if INT_MAX / 4 - 1 <? w then raise MemoryError
  else ok (mkImage m w h (fun _ _ => c) []).

(** [Image.open(path)]: the image, or the OSError of a file that is
    missing or cannot be read.  A file larger than the 178956970 pixels
    [Image.open] accepts is refused in another way and is not a file of
    the model. *)
Definition open (w : World) (path : string) : result Image :=
  match image_file w path with
  | Some im => ok (mkImage (mode im) (width im) (height im) (px im) [])
  | None => raise (OSError path)
  end.

(** [ImageFont.truetype(file, points)]: the size is checked first, then
    the file is looked for. *)
Definition truetype (w : World) (file : string) (points : Z) : result Font :=
  if points <=? 0 then
    raise (ValueError ("font size must be greater than 0, not " ++ str points))
  else if font_file w file then ok (TrueType file points)
  else raise (OSError file).

(** a Python int that fits a C [int] *)
Definition c_int (n : Z) : bool := (- INT_MAX - 1 <=? n) && (n <=? INT_MAX).

(** half the width of a convolution filter, in source pixels *)
Definition support (f : Filter) : Z :=
  match f with
  | NEAREST => 0
  | BICUBIC => 2
  | LANCZOS => 3
  end.

(** the filter [resize] ends up with: bilevel and palette images are
    never interpolated *)
Definition resize_filter (m : Mode) (f : Filter) : Filter :=
  match m with
  | M1 | P => NEAREST
  | _ => f
  end.

(** The targets the core refuses before it allocates anything.  A
    convolution keeps, for each pixel along a side of the target, a row
    of [2 * support + 1] coefficients of 8 bytes, and the size of that
    table must fit a C [int]; without a table the target is created
    like a new image, whose lines must be allocatable.  (The row is
    longer when a side shrinks, by the factor it shrinks; that only
    decides for a source of more than 40 million pixels a side, and
    the statements that depend on it keep to sources of at most 65535
    pixels a side.) *)
Definition resize_refused (f : Filter) (w h : Z) : bool :=
  match f with
  | NEAREST => INT_MAX / 4 - 1 <? w
  | _ =>
      let longest := INT_MAX / ((support f * 2 + 1) * 8) in
      (longest <? w) || (longest <? h)
  end.

Section WithRaster.
Context `{Raster}.

(** [im.convert(mode)] *)
Definition convert (im : Image) (m : Mode) : Image :=
  mkImage m (width im) (height im) (convert_pixels (mode im) m (px im)) [].

(** [im.resize(size, filter)]: a target of the image's own size is a
    copy; any other goes to the core, which wants two C ints of at
    least 1 and refuses with a MemoryError what [resize_refused]
    tells.  Like [new], the model takes the memory for the result
    itself to be there. *)
Definition resize (im : Image) (sz : Z * Z) (f : Filter) : result Image :=
  let '(w, h) := sz in
  if (w =? width im) && (h =? height im) then
    ok (mkImage (mode im) w h (px im) [])
  else if negb (c_int w && c_int h) then raise OverflowError
  else if (w <? 1) || (h <? 1) then
    raise (ValueError "height and width must be > 0")
  else if resize_refused (resize_filter (mode im) f) w h then raise MemoryError
  else
    ok (mkImage (mode im) w h (resample f (mode im) (size im) (px im) sz) []).

(** [im.crop((left, upper, right, lower))]: each coordinate is rounded
    on its own, then the region between the rounded corners is
    copied; outside the source the region is blank. *)
Definition crop (im : Image)
    (box : PyFloat.float * PyFloat.float * PyFloat.float * PyFloat.float)
    : result Image :=
  let '(x_left, y_upper, x_right, y_lower) := box in
  if PyFloat.lt x_right x_left then
    raise (ValueError "Coordinate 'right' is less than 'left'")
  else if PyFloat.lt y_lower y_upper then
    raise (ValueError "Coordinate 'lower' is less than 'upper'")
  else
    let* x0 := PyFloat.round x_left in
    let* y0 := PyFloat.round y_upper in
    let* x1 := PyFloat.round x_right in
    let* y1 := PyFloat.round y_lower in
    ok (mkImage (mode im) (Z.max 0 (x1 - x0)) (Z.max 0 (y1 - y0))
          (fun x y =>
             if in_bounds im (x + x0) (y + y0) then px im (x + x0) (y + y0)
             else mkColor 0 0 0 0)
          []).

(** the level the mask image gives at one of its pixels *)
Definition mask_level (m : Image) (x y : Z) : Z :=
  if has_alpha_band (mode m) then alpha (px m x y) else red (px m x y).

(** [dst.paste(src, (x, y))] and [dst.paste(src, (x, y), mask)]: the
    source is converted to the destination's mode and copied, clipped
    to the destination. *)
Definition paste (dst src : Image) (xy : Z * Z) (mask : option Image)
    : result Image :=
  let '(x0, y0) := xy in
  let src_px :=
    if Mode_eqb (mode src) (mode dst) then px src
    else convert_pixels (mode src) (mode dst) (px src) in
  let inside x y :=
    in_bounds dst x y && in_bounds src (x - x0) (y - y0) in
  match mask with
  | None =>
      ok (mkImage (mode dst) (width dst) (height dst)
            (fun x y => if inside x y then src_px (x - x0) (y - y0)
                        else px dst x y)
            (drawn dst))
  | Some m =>
      if negb (mask_mode_ok (mode m)) then
        raise (ValueError "bad transparency mask")
      else if negb ((width m =? width src) && (height m =? height src)) then
        raise (ValueError "images do not match")
      else
        ok (mkImage (mode dst) (width dst) (height dst)
              (fun x y =>
                 if inside x y then
                   blend (px dst x y) (src_px (x - x0) (y - y0))
                         (mask_level m (x - x0) (y - y0))
                 else px dst x y)
              (drawn dst))
  end.

(** [Image.alpha_composite(im1, im2)] *)
Definition alpha_composite (im1 im2 : Image) : result Image :=
  if negb (Mode_eqb (mode im1) RGBA && Mode_eqb (mode im2) RGBA) then
    raise (ValueError "image has wrong mode")
  else if negb ((width im1 =? width im2) && (height im1 =? height im2)) then
    raise (ValueError "images do not match")
  else
    ok (mkImage RGBA (width im1) (height im1)
          (fun x y => over (px im1 x y) (px im2 x y)) []).

(** *** ImageDraw *)

Definition paint (im : Image) (inside : Z -> Z -> bool) (ink : Z -> Z -> Color)
    (call : DrawCall) : Image :=
  mkImage (mode im) (width im) (height im)
    (fun x y => if in_bounds im x y && inside x y then ink x y else px im x y)
    (call :: drawn im).

Definition between (a b v : Z) : bool :=
  (Z.min a b <=? v) && (v <=? Z.max a b).

(** [draw.line((x0, y0, x1, y1), fill=fill)], one pixel wide *)
Definition draw_line (im : Image) (xy : Box) (fill : Color) : Image :=
  let '(x0, y0, x1, y1) := xy in
  let inside x y :=
    if x0 =? x1 then (x =? x0) && between y0 y1 y
    else if y0 =? y1 then (y =? y0) && between x0 x1 x
    else line_ink xy x y in
  paint im inside (fun _ _ => fill) (CallLine xy fill).

Definition check_box (xy : Box) : result unit :=
  let '(x0, y0, x1, y1) := xy in
  if x1 <? x0 then raise (ValueError "x1 must be greater than or equal to x0")
  else if y1 <? y0 then raise (ValueError "y1 must be greater than or equal to y0")
  else ok tt.

(** [draw.rectangle([x0, y0, x1, y1], fill=fill)]: both corners are
    part of the rectangle. *)
Definition draw_rectangle (im : Image) (xy : Box) (fill : Color)
    : result Image :=
  let* _ := check_box xy in
  let '(x0, y0, x1, y1) := xy in
  ok (paint im
        (fun x y => (x0 <=? x) && (x <=? x1) && (y0 <=? y) && (y <=? y1))
        (fun _ _ => fill) (CallRectangle xy fill)).

(** [draw.pieslice([x0, y0, x1, y1], start, stop, fill=fill)] *)
Definition draw_pieslice (im : Image) (xy : Box) (start stop : Z)
    (fill : Color) : result Image :=
  let* _ := check_box xy in
  ok (paint im (pieslice_ink xy start stop) (fun _ _ => fill)
        (CallPieslice xy start stop fill)).

(** [draw.text(xy, text, font=font, fill=fill)] *)
Definition draw_text (im : Image) (xy : Z * Z) (text : string) (font : Font)
    (fill : Color) : Image :=
  let '(x0, y0) := xy in
  mkImage (mode im) (width im) (height im)
    (fun x y =>
       if in_bounds im x y then
         blend (px im x y) fill (text_ink font text (x - x0) (y - y0))
       else px im x y)
    (CallText xy text font fill :: drawn im).

End WithRaster.

End PIL.

(** ** The [qrcode] encoder

    Only what decides the size of the symbol is modelled: how the payload
    is cut into numeric, alphanumeric and byte segments, how many bits
    the segments need, and which symbol version [make(fit=True)] settles
    on.  The module matrix itself comes from [PIL.qr_module]. *)

Module QR.

Inductive DataMode : Type := MODE_NUMBER | MODE_ALPHA_NUM | MODE_8BIT_BYTE.

Definition code (c : ascii) : Z := Z.of_nat (nat_of_ascii c).

Definition is_digit (c : ascii) : bool :=
  (48 <=? code c) && (code c <=? 57).

(** membership in [ALPHA_NUM]: digits, capitals and [ $%*+-./:] *)
Definition is_alpha_num (c : ascii) : bool :=
  is_digit c
  || ((65 <=? code c) && (code c <=? 90))
  || existsb (Z.eqb (code c)) [32; 36; 37; 42; 43; 45; 46; 47; 58].

Definition len {A} (l : list A) : Z := Z.of_nat (List.length l).

Definition emit (is_match : bool) (rev_chunk : list ascii)
    (out : list (bool * list ascii)) : list (bool * list ascii) :=
  match rev_chunk with
  | [] => out
  | _ => (is_match, rev rev_chunk) :: out
  end.

(** [_optimal_split(data, pattern)] for a pattern "at least [minimum]
    characters of a class in a row": the runs that are long enough
    become matching chunks, what lies between them the other chunks.
    [pending] and [run] hold, reversed, the text not yet emitted and
    the run being read. *)
Fixpoint split_runs (cls : ascii -> bool) (minimum : Z) (data : list ascii)
    (pending run : list ascii) : list (bool * list ascii) :=
  match data with
  | [] =>
      if minimum <=? len run then emit false pending (emit true run [])
      else emit false (run ++ pending)%list []
  | c :: rest =>
      if cls c then split_runs cls minimum rest pending (c :: run)
      else if minimum <=? len run then
        emit false pending (emit true run (split_runs cls minimum rest [c] []))
      else split_runs cls minimum rest (c :: run ++ pending)%list []
  end.

Definition newline : ascii := ascii_of_nat 10.

(** [_optimal_split] for the anchored pattern used on short payloads:
    the whole text must be of the class (a final newline is left over,
    as [$] matches before it). *)
Definition split_whole (cls : ascii -> bool) (data : list ascii)
    : list (bool * list ascii) :=
  match data with
  | [] => []
  | _ =>
      if forallb cls data then [(true, data)]
      else
        let body := removelast data in
        if Ascii.eqb (List.last data newline) newline
           && negb (len body =? 0) && forallb cls body
        then [(true, body); (false, [newline])]
        else [(false, data)]
  end.

Definition optimal_split (cls : ascii -> bool) (anchored : bool) (minimum : Z)
    (data : list ascii) : list (bool * list ascii) :=
  if anchored then split_whole cls data
  else split_runs cls minimum data [] [].

(** [util.optimal_data_chunks(data, minimum)]: the segments of a
    payload, as mode and length. *)
Definition optimal_data_chunks (data : list ascii) (minimum : Z)
    : list (DataMode * Z) :=
  let anchored := len data <=? minimum in
  flat_map
    (fun '(is_num, chunk) =>
       if is_num : bool then [(MODE_NUMBER, len chunk)]
       else
         map (fun '(is_alpha, sub_chunk) =>
                (if is_alpha : bool then MODE_ALPHA_NUM else MODE_8BIT_BYTE,
                 len sub_chunk))
             (optimal_split is_alpha_num anchored minimum chunk))
    (optimal_split is_digit anchored minimum data).

(** [qr.add_data(data)], with its default [optimize=20] *)
Definition add_data (data : string) : list (DataMode * Z) :=
  optimal_data_chunks (list_ascii_of_string data) 20.

(** segment lengths are lengths *)
Definition lengths_nonneg (data_list : list (DataMode * Z)) : Prop :=
  Forall (fun chunk => 0 <= snd chunk) data_list.

(** [util.mode_sizes_for_version]: width of the length field *)
Definition length_bits (version : Z) (m : DataMode) : Z :=
  if version <? 10 then
    match m with MODE_NUMBER => 10 | MODE_ALPHA_NUM => 9 | MODE_8BIT_BYTE => 8 end
  else if version <? 27 then
    match m with MODE_NUMBER => 12 | MODE_ALPHA_NUM => 11 | MODE_8BIT_BYTE => 16 end
  else
    match m with MODE_NUMBER => 14 | MODE_ALPHA_NUM => 13 | MODE_8BIT_BYTE => 16 end.

Definition same_mode_sizes (v1 v2 : Z) : bool :=
  forallb (fun m => length_bits v1 m =? length_bits v2 m)
          [MODE_NUMBER; MODE_ALPHA_NUM; MODE_8BIT_BYTE].

(** bits written by one segment's data *)
Definition data_bits (m : DataMode) (n : Z) : Z :=
  match m with
  | MODE_NUMBER =>
      10 * (n / 3) + (if n mod 3 =? 0 then 0 else if n mod 3 =? 1 then 4 else 7)
  | MODE_ALPHA_NUM => 11 * (n / 2) + 6 * (n mod 2)
  | MODE_8BIT_BYTE => 8 * n
  end.

Definition needed_bits (version : Z) (data_list : list (DataMode * Z)) : Z :=
  fold_left
    (fun acc '(m, n) => acc + 4 + length_bits version m + data_bits m n)
    data_list 0.

(** data codewords of versions 1 to 40 at error correction level H *)
Definition data_codewords_H : list Z :=
  [9; 16; 26; 36; 46; 60; 66; 86; 100; 122;
   140; 158; 180; 197; 223; 253; 283; 313; 341; 385;
   406; 442; 464; 514; 538; 596; 628; 661; 701; 745;
   793; 845; 901; 961; 986; 1054; 1096; 1142; 1222; 1276].

(** [util.BIT_LIMIT_TABLE[ERROR_CORRECT_H]], indexed by version *)
Definition BIT_LIMIT_TABLE_H : list Z := 0 :: map (Z.mul 8) data_codewords_H.

Definition capacity_H (version : Z) : Z :=
  nth (Z.to_nat version) BIT_LIMIT_TABLE_H 0.

(** [bisect_left(a, x, lo)] on a sorted list: the first index from [lo]
    on whose entry is at least [x], the length if there is none. *)
Fixpoint bisect_from (a : list Z) (x : Z) (i : Z) : Z :=
  match a with
  | [] => i
  | y :: rest => if x <=? y then i else bisect_from rest x (i + 1)
  end.

Definition bisect_left (a : list Z) (x : Z) (lo : Z) : Z :=
  bisect_from (skipn (Z.to_nat lo) a) x lo.

(** [util.check_version] *)
Definition check_version (version : Z) : result unit :=
  if (version <? 1) || (40 <? version) then
    raise (ValueError ("Invalid version (was " ++ str version
                       ++ ", expected 1 to 40)"))
  else ok tt.

(** what [check_version] says to version 41 *)
Definition invalid_version_41 : exn :=
  ValueError "Invalid version (was 41, expected 1 to 40)".

(** [QRCode.best_fit(start)]: the smallest version from [start] on that
    holds the data; it calls itself again when the version found has
    wider length fields than the one the bits were counted for.  Each
    call moves to a wider class of versions, of which there are three;
    [depth] bounds the nesting.  The version found is assigned to
    [self.version], a property whose setter runs [check_version], before
    it is compared with 41. *)
Fixpoint best_fit (depth : nat) (data_list : list (DataMode * Z)) (start : Z)
    : result Z :=
  let* _ := check_version start in
  let version := bisect_left BIT_LIMIT_TABLE_H (needed_bits start data_list) start in
  let* _ := check_version version in
  if version =? 41 then raise DataOverflowError
  else if same_mode_sizes start version then ok version
  else
    match depth with
    | O => raise (ValueError "maximum recursion depth exceeded")
    | S d => best_fit d data_list version
    end.

(** the check of [util.create_data]: the bits of the payload, counted
    for the version chosen, against what that version holds *)
Definition check_capacity (version : Z) (data_list : list (DataMode * Z))
    : result unit :=
  if capacity_H version <? needed_bits version data_list then
    raise DataOverflowError
  else ok tt.

(** side of the symbol in modules *)
Definition modules_count (version : Z) : Z := version * 4 + 17.

Section WithRaster.
Context `{PIL.Raster}.

(** [qr.make(fit=True)] followed by
    [qr.make_image(fill_color="black", back_color="white")]: a
    bilevel image of [box_size] pixels per module with [border]
    modules of margin. *)
Definition make_image (start box_size border : Z) (data : string)
    : result PIL.Image :=
  let* version := best_fit 3 (add_data data) start in
  let* _ := check_capacity version (add_data data) in
  let side := (modules_count version + border * 2) * box_size in
  let* blank := PIL.new PIL.M1 (side, side) (PIL.rgb 255 255 255) in
  ok (PIL.mkImage PIL.M1 side side
        (fun x y =>
           if PIL.qr_module data version (y / box_size - border)
                            (x / box_size - border)
           then PIL.rgb 0 0 0 else PIL.rgb 255 255 255)
        []).

End WithRaster.

End QR.

(** ** The data classes *)

(** [width] and [height] also name the size of a Pillow image; the
    configuration's are [cfg_width] and [cfg_height]. *)
Record TicketConfig : Type := mkTicketConfig {
  cfg_width : Z;
  cfg_height : Z;
  padding : Z;
  font_large_size : Z;
  font_small_size : Z;
  icon_size : Z
}.

(** [TicketConfig()] *)
Definition default_config : TicketConfig := mkTicketConfig 1202 450 50 36 16 24.

Record EventDetails : Type := mkEventDetails {
  title : string;
  category : string;
  date : string;
  time : string;
  location : string;
  ticket_type : string;
  url : string
}.

Record TicketData : Type := mkTicketData {
  ticket_number : Z;
  owner : string;
  qr_data : string;
  event : EventDetails
}.

(** [os.path.join(folder, name)] for a relative [name] *)
Definition path_join (folder name : string) : string :=
  match List.last (list_ascii_of_string folder) "/"%char with
  | "/"%char => folder ++ name
  | _ => folder ++ "/" ++ name
  end.

(** ** The class [TicketGenerator] *)

Module TicketGenerator.

Import PIL.

(** the attributes of [self] *)
Record t : Type := mk {
  config : TicketConfig;
  icons_folder : string;
  font_large : Font;
  font_small : Font;
  font_bold : Font;
  icons : gmap string Image
}.

(** a line written by [print] *)
Inductive Output : Type :=
  | ErrorLoadingIcon (file_name : string) (e : exn).

(** [setup_fonts]: the three handles, or the default font for all three
    as soon as one file cannot be loaded; the handler is for [IOError],
    which is [OSError], and lets anything else through. *)
Definition setup_fonts (w : World) (cfg : TicketConfig)
    : result (Font * Font * Font) :=
  match
    (let* large := truetype w "arial.ttf" (font_large_size cfg) in
     let* small := truetype w "arial.ttf" (font_small_size cfg) in
     let* bold := truetype w "arialbd.ttf" (font_large_size cfg) in
     ok (large, small, bold))
  with
  | inr fonts => ok fonts
  | inl (OSError _) => ok (DefaultFont, DefaultFont, DefaultFont)
  | inl e => raise e
  end.

Definition icon_files : list (string * string) :=
  [("calendar", "calendar.png"); ("clock", "clock.png");
   ("map", "map.png"); ("ticket", "ticket.png")].

Section WithRaster.
Context `{Raster}.

(** [Image.new('RGBA', (n, n), (0, 0, 0, 0))] once it has succeeded *)
Definition transparent (n : Z) : Image :=
  mkImage RGBA n n (fun _ _ => mkColor 0 0 0 0) [].

(** the body of the [try] in [load_icons] *)
Definition load_icon (w : World) (cfg : TicketConfig) (icon_path : string)
    : result Image :=
  let* opened := open w icon_path in
  let icon := convert opened RGBA in
  resize icon (icon_size cfg, icon_size cfg) LANCZOS.

(** what [load_icons] stores for one file: the loaded icon, or the
    transparent placeholder when loading raised *)
Definition icon_for (w : World) (cfg : TicketConfig) (folder file : string)
    : Image :=
  match load_icon w cfg (path_join folder file) with
  | inr icon => icon
  | inl _ => transparent (icon_size cfg)
  end.

Definition errors_for (w : World) (cfg : TicketConfig) (folder : string)
    (files : list (string * string)) : list Output :=
  flat_map
    (fun '(_, file) =>
       match load_icon w cfg (path_join folder file) with
       | inr _ => []
       | inl e => [ErrorLoadingIcon file e]
       end)
    files.

(** every icon the layout uses is in [self.icons], with an alpha band *)
Definition icons_complete (self : t) : Prop :=
  forall name file, In (name, file) icon_files ->
    exists icon, icons self !! name = Some icon /\ mode icon = RGBA.

(** [load_icons]: the loop over [icon_files], threading [self.icons]
    and what was printed. *)
Fixpoint load_icons_loop (w : World) (cfg : TicketConfig) (folder : string)
    (files : list (string * string))
    (acc : gmap string Image * list Output)
    : result (gmap string Image * list Output) :=
  match files with
  | [] => ok acc
  | (icon_name, file_name) :: rest =>
      let '(icons, out) := acc in
      let icon_path := path_join folder file_name in
      match load_icon w cfg icon_path with
      | inr icon =>
          load_icons_loop w cfg folder rest (<[icon_name := icon]> icons, out)
      | inl e =>
          let* placeholder :=
            new RGBA (icon_size cfg, icon_size cfg) (mkColor 0 0 0 0) in
          load_icons_loop w cfg folder rest
            (<[icon_name := placeholder]> icons,
             (out ++ [ErrorLoadingIcon file_name e])%list)
      end
  end.

Definition load_icons (w : World) (cfg : TicketConfig) (folder : string)
    : result (gmap string Image * list Output) :=
  load_icons_loop w cfg folder icon_files (∅, []).

(** [TicketGenerator(config, icons_folder)] *)
Definition init (w : World) (cfg : TicketConfig) (folder : string)
    : result (t * list Output) :=
  let* (large, small, bold) := setup_fonts w cfg in
  let* (icons, out) := load_icons w cfg folder in
  ok (mk cfg folder large small bold icons, out).

(** [draw_icon_with_text] *)
Definition draw_icon_with_text (self : t) (ticket : Image) (x y : Z)
    (icon_type text : string) : result Image :=
  let* icon :=
    match icons self !! icon_type with
    | Some icon => ok icon
    | None => raise (KeyError icon_type)
    end in
  let* ticket :=
    if has_alpha_band (mode icon) then paste ticket icon (x, y) (Some icon)
    else paste ticket icon (x, y) None in
  let text_y :=
    y + (icon_size (config self) - font_small_size (config self)) / 2 in
  ok (draw_text ticket (x + icon_size (config self) + 10, text_y) text
        (font_small self) (rgb 81 79 79)).

(** [create_rounded_rectangle] *)
Definition create_rounded_rectangle (draw : Image) (coords : Box)
    (radius : Z) (fill : Color) : result Image :=
  let '(x1, y1, x2, y2) := coords in
  let* draw := draw_rectangle draw (x1 + radius, y1, x2 - radius, y2) fill in
  let* draw := draw_rectangle draw (x1, y1 + radius, x2, y2 - radius) fill in
  let* draw :=
    draw_pieslice draw (x1, y1, x1 + radius * 2, y1 + radius * 2) 180 270 fill in
  let* draw :=
    draw_pieslice draw (x2 - radius * 2, y1, x2, y1 + radius * 2) 270 360 fill in
  let* draw :=
    draw_pieslice draw (x1, y2 - radius * 2, x1 + radius * 2, y2) 90 180 fill in
  draw_pieslice draw (x2 - radius * 2, y2 - radius * 2, x2, y2) 0 90 fill.

(** [get_text_dimensions] *)
Definition get_text_dimensions (text : string) (font : Font) : Z * Z :=
  let '(b0, b1, b2, b3) := textbbox font text in
  (b2 - b0, b3 - b1).

(** [process_background] *)
Definition process_background (self : t) (w : World)
    (background_path : string) (ticket : Image) : result Image :=
  let cfg := config self in
  let* background := open w background_path in
  let* bg_aspect := PyFloat.int_truediv (width background) (height background) in
  let* ticket_aspect := PyFloat.int_truediv (cfg_width cfg) (cfg_height cfg) in
  let* (new_width, new_height) :=
    if PyFloat.gt bg_aspect ticket_aspect then
      let new_height := cfg_height cfg in
      let* scaled := PyFloat.int_mul_float new_height bg_aspect in
      let* new_width := PyFloat.to_int scaled in
      ok (new_width, new_height)
    else
      let new_width := cfg_width cfg in
      let* scaled := PyFloat.int_div_float new_width bg_aspect in
      let* new_height := PyFloat.to_int scaled in
      ok (new_width, new_height) in
  let* background := resize background (new_width, new_height) LANCZOS in
  let* x_left := PyFloat.int_truediv (new_width - cfg_width cfg) 2 in
  let* y_top := PyFloat.int_truediv (new_height - cfg_height cfg) 2 in
  let* x_right := PyFloat.float_add_int x_left (cfg_width cfg) in
  let* y_bottom := PyFloat.float_add_int y_top (cfg_height cfg) in
  crop background (x_left, y_top, x_right, y_bottom).

(** [int(255 * (1 - ratio))] *)
Definition alpha_of_ratio (ratio : PyFloat.float) : result Z :=
  let* rest := PyFloat.int_sub_float 1 ratio in
  let* level := PyFloat.int_mul_float 255 rest in
  PyFloat.to_int level.

(** [int(255 * (1 - i / self.config.width))] *)
Definition gradient_alpha (cfg : TicketConfig) (i : Z) : result Z :=
  let* ratio := PyFloat.int_truediv i (cfg_width cfg) in
  alpha_of_ratio ratio.

(** the loop of [add_gradient] over the columns still to draw *)
Fixpoint gradient_loop (cfg : TicketConfig) (columns : list Z)
    (gradient : Image) : result Image :=
  match columns with
  | [] => ok gradient
  | i :: rest =>
      let* a := gradient_alpha cfg i in
      gradient_loop cfg rest
        (draw_line gradient (i, 0, i, cfg_height cfg) (mkColor 255 255 255 a))
  end.

(** [range(n)] *)
Definition range (n : Z) : list Z := map Z.of_nat (seq 0 (Z.to_nat n)).

(** the overlay [add_gradient] builds before compositing *)
Definition gradient_overlay (cfg : TicketConfig) : result Image :=
  let* gradient :=
    new RGBA (cfg_width cfg, cfg_height cfg) (mkColor 255 255 255 0) in
  gradient_loop cfg (range (cfg_width cfg)) gradient.

(** [add_gradient] *)
Definition add_gradient (self : t) (ticket : Image) : result Image :=
  let* gradient := gradient_overlay (config self) in
  alpha_composite (convert ticket RGBA) gradient.

(** [add_qr_code] *)
Definition add_qr_code (self : t) (w : World) (ticket : Image)
    (qr_data : string) : result Image :=
  let* qr_image := QR.make_image 2 8 2 qr_data in
  let qr_code := convert qr_image RGB in
  let* qr_code := resize qr_code (320, 320) BICUBIC in
  let* logo := open w "./EVNTia.png" in
  let logo_size := (80, 40) in
  let* logo := resize logo logo_size BICUBIC in
  let logo_position :=
    ((width qr_code - fst logo_size) / 2, (height qr_code - snd logo_size) / 2) in
  let* qr_code := paste qr_code logo logo_position (Some logo) in
  paste ticket qr_code (830, 50) None.

(** the rows below [y = 260]: icon, text and [x_offset] *)
Definition details (ticket_data : TicketData)
    : list (string * string * option Z) :=
  [("calendar", date (event ticket_data), Some 0);
   ("clock", time (event ticket_data), None);
   ("map", location (event ticket_data), None);
   ("ticket", ticket_type (event ticket_data), None)].

(** the loop over [details], threading the canvas and [y_pos] *)
Fixpoint details_loop (self : t) (rows : list (string * string * option Z))
    (ticket : Image) (y_pos : Z) : result Image :=
  match rows with
  | [] => ok ticket
  | (icon_type, text, x_offset) :: rest =>
      let '(x_pos, y_pos) :=
        match x_offset with
        | None => (padding (config self), y_pos + 40)
        | Some off => (padding (config self) + off, y_pos)
        end in
      let* ticket := draw_icon_with_text self ticket x_pos y_pos icon_type text in
      details_loop self rest ticket y_pos
  end.

(** the label in front of the owner's name; its seventh and eighth
    bytes are the UTF-8 encoding of e-acute *)
Definition owner_label : string :=
  "Propri" ++ String (ascii_of_nat 195) (String (ascii_of_nat 169) "taire: ").

(** [generate_ticket] *)
Definition generate_ticket (self : t) (w : World) (background_path : string)
    (ticket_data : TicketData) : result Image :=
  let cfg := config self in
  let* ticket := new RGB (cfg_width cfg, cfg_height cfg) (rgb 255 255 255) in
  let* background := process_background self w background_path ticket in
  let* ticket := paste ticket background (0, 0) None in
  let* ticket := add_gradient self ticket in
  let draw := ticket in

  let y_pos := 20 in
  let draw :=
    draw_text draw (padding cfg, y_pos)
      ("N: " ++ str (ticket_number ticket_data)) (font_bold self) (rgb 0 0 0) in

  let y_pos := 70 in
  let draw :=
    draw_text draw (padding cfg, y_pos)
      (owner_label ++ owner ticket_data) (font_small self) (rgb 0 0 0) in

  let y_pos := 130 in
  let draw :=
    draw_text draw (padding cfg, y_pos) "Informations" (font_large self)
      (rgb 255 215 0) in

  let y_pos := 180 in
  let title_text := title (event ticket_data) in
  let '(title_width, _) := get_text_dimensions title_text (font_bold self) in
  let draw :=
    draw_text draw (padding cfg, y_pos) title_text (font_bold self) (rgb 0 0 0) in

  let category_text := category (event ticket_data) in
  let '(category_width, category_height) :=
    get_text_dimensions category_text (font_small self) in
  let category_x := padding cfg + title_width + 10 in
  let category_y := y_pos + 5 in

  let* draw :=
    create_rounded_rectangle draw
      (category_x, category_y,
       category_x + category_width + 20,
       category_y + category_height + 10)
      10 (rgb 255 215 0) in
  let draw :=
    draw_text draw (category_x + 10, category_y + 2) category_text
      (font_small self) (rgb 0 0 0) in

  let y_pos := 260 in
  let* ticket := details_loop self (details ticket_data) draw y_pos in
  add_qr_code self w ticket (qr_data ticket_data).

(** the [__main__] block, up to [ticket.show()] *)
Definition demo_event : EventDetails :=
  mkEventDetails "MAGE4" "Concert" "19 Septembre 2024" "14 H"
    "Antsahamanitra, Antananarivo" "Bronze" "https://evntia.tech/event/12".

Definition demo_ticket_data : TicketData :=
  mkTicketData 12 "RANDRIAMANANTENA LUCA ZO HAINGO" (url demo_event) demo_event.

Definition main (w : World) : result Image :=
  let* (generator, _) := init w default_config "icons" in
  let* ticket := generate_ticket generator w "./Mage4.jpg" demo_ticket_data in
  ok (convert ticket RGB).

End WithRaster.

End TicketGenerator.

(** ** Constants and stages of the gradient computation *)

Module Gradient.
Import Binary64 TicketGenerator.

(** [float(1)] and [float(255)] *)
Definition one : spec_float := S754_finite false (2 ^ 52) (-52).
Definition f255 : spec_float := S754_finite false (255 * 2 ^ 45) (-45).

(** the ratio 255/256, from which on the level is 0 *)
Definition ratio_255_256 : spec_float := S754_finite false (255 * 2 ^ 45) (-53).

(** what [alpha_of_ratio] goes through, on a ratio strictly between 0
    and 1 as far as a canvas can make it *)
Record alpha_run (q s p : spec_float) (a : Z) : Prop := {
  run_sub : SFsub 53 1024 one q = s;
  run_s_normal : normal_float s;
  run_s_near : nearest (1 - B2R q) (B2R s);
  run_s_range : (bpow (-29) <= B2R s <= 1)%R;
  run_mul : SFmul 53 1024 f255 s = p;
  run_p_normal : normal_float p;
  run_p_near : nearest (255 * B2R s) (B2R p);
  run_p_range : (0 < B2R p <= 255)%R;
  run_alpha : alpha_of_ratio q = inr a;
  run_floor : (IZR a <= B2R p < IZR a + 1)%R
}.

(** the last column of a canvas [w] wide is at most [255 // w] *)
Definition last_alpha_small (w : Z) : bool :=
  match gradient_alpha (mkTicketConfig w 0 0 0 0 0) (w - 1) with
  | inr a => (0 <=? a) && (a <=? 255 / w)
  | inl _ => false
  end.

End Gradient.

(** ** Geometry of the rounded rectangle

    Pillow's angles run clockwise from three o'clock, so the slice from
    180 to 270 degrees opens into the upper left quarter of its box.  What
    a slice paints is the rasteriser's business ([PIL.pieslice_ink]); the
    quarter of the inscribed ellipse, [exact], is what the collaborator
    used for running the model paints.  Coordinates are doubled to keep
    the centre integral. *)

Module Pieslice.
Import PIL.

(** the pixel lies in the closed ellipse inscribed in the box *)
Definition in_ellipse (xy : Box) (x y : Z) : bool :=
  let '(x0, y0, x1, y1) := xy in
  (2 * x - x0 - x1) ^ 2 * (y1 - y0) ^ 2 + (2 * y - y0 - y1) ^ 2 * (x1 - x0) ^ 2
  <=? (x1 - x0) ^ 2 * (y1 - y0) ^ 2.

(** the pixel lies in the closed quarter plane the slice opens into *)
Definition in_quadrant (xy : Box) (start : Z) (x y : Z) : bool :=
  let '(x0, y0, x1, y1) := xy in
  if start =? 180 then (2 * x <=? x0 + x1) && (2 * y <=? y0 + y1)
  else if start =? 270 then (x0 + x1 <=? 2 * x) && (2 * y <=? y0 + y1)
  else if start =? 90 then (2 * x <=? x0 + x1) && (y0 + y1 <=? 2 * y)
  else if start =? 0 then (x0 + x1 <=? 2 * x) && (y0 + y1 <=? 2 * y)
  else false.

(** the exact quarter slice *)
Definition exact (xy : Box) (start stop : Z) (x y : Z) : bool :=
  (stop =? start + 90) && in_quadrant xy start x y && in_ellipse xy x y.


Section WithRaster.
Context `{Raster}.


(** what the six calls of [create_rounded_rectangle] paint *)
Definition rounded_ink (coords : Box) (radius : Z) (x y : Z) : bool :=
  let '(x1, y1, x2, y2) := coords in
  ((x1 + radius <=? x) && (x <=? x2 - radius) && (y1 <=? y) && (y <=? y2))
  || ((x1 <=? x) && (x <=? x2) && (y1 + radius <=? y) && (y <=? y2 - radius))
  || pieslice_ink (x1, y1, x1 + radius * 2, y1 + radius * 2) 180 270 x y
  || pieslice_ink (x2 - radius * 2, y1, x2, y1 + radius * 2) 270 360 x y
  || pieslice_ink (x1, y2 - radius * 2, x1 + radius * 2, y2) 90 180 x y
  || pieslice_ink (x2 - radius * 2, y2 - radius * 2, x2, y2) 0 90 x y.

End WithRaster.
End Pieslice.

(** ** Concrete collaborators and inputs, for running the model *)

Module Fixtures.
Import PIL.

(** nearest-neighbour sampling, exact pie slices, opaque text boxes of
    8 by 12 pixels per character, a mask that selects the source for
    every non-zero level *)
#[export] Instance plain_raster : Raster := {|
  resample := fun _ _ src p dst x y =>
    p (x * fst src / Z.max 1 (fst dst)) (y * snd src / Z.max 1 (snd dst));
  convert_pixels := fun _ _ p => p;
  blend := fun below above level => if level =? 0 then below else above;
  over := fun below above => if alpha above =? 0 then below else above;
  textbbox := fun _ text => (0, 0, 8 * Z.of_nat (String.length text), 12);
  text_ink := fun _ text x y =>
    if (0 <=? x) && (x <? 8 * Z.of_nat (String.length text))
       && (0 <=? y) && (y <? 12)
    then 255 else 0;
  line_ink := fun _ _ _ => false;
  pieslice_ink := Pieslice.exact;
  qr_module := fun _ _ row col => Z.even (row + col)
|}.

Definition solid (m : Mode) (w h : Z) (c : Color) : Image :=
  mkImage m w h (fun _ _ => c) [].

(** a file system holding a background of the given size and the logo,
    and neither fonts nor icons *)
Definition bare_world (bg_width bg_height : Z) : World :=
  mkWorld
    (fun path =>
       if String.eqb path "./Mage4.jpg" then
         Some (solid RGB bg_width bg_height (rgb 30 60 90))
       else if String.eqb path "./EVNTia.png" then
         Some (solid RGBA 200 100 (mkColor 200 0 0 255))
       else None)
    (fun _ => false).

(** a file system with the four icon files added *)
Definition with_icons (w : World) : World :=
  mkWorld
    (fun path =>
       if existsb (String.eqb path)
            ["icons/calendar.png"; "icons/clock.png"; "icons/map.png";
             "icons/ticket.png"]
       then Some (solid RGB 64 64 (rgb 0 0 0))
       else image_file w path)
    (font_file w).

(** background and logo, and of the four icons the calendar alone *)
Definition calendar_world (bg_width bg_height : Z) : World :=
  mkWorld
    (fun path =>
       if String.eqb path "icons/calendar.png" then
         Some (solid RGB 64 64 (rgb 0 0 0))
       else image_file (bare_world bg_width bg_height) path)
    (fun _ => false).

(** a file system with every font file added *)
Definition with_fonts (w : World) : World :=
  mkWorld (image_file w) (fun _ => true).

(** background, logo, icons and fonts all in place *)
Definition full_world (bg_width bg_height : Z) : World :=
  with_fonts (with_icons (bare_world bg_width bg_height)).

(** a file system with nothing in it *)
Definition empty_world : World := mkWorld (fun _ => None) (fun _ => false).

(** the generator the demonstration builds, in a given world; in a world
    where construction fails, the bare attributes *)
Definition generator_in (w : World) (cfg : TicketConfig) : TicketGenerator.t :=
  match TicketGenerator.init w cfg "icons" with
  | inr (g, _) => g
  | inl _ =>
      TicketGenerator.mk cfg "icons" DefaultFont DefaultFont DefaultFont ∅
  end.

Definition odd_config : TicketConfig := mkTicketConfig 1201 450 50 36 16 24.

End Fixtures.

(** ** Half-integers, as the edges of a crop box *)

Module Halves.
Import Binary64.

(** [round(k / 2)] for an int [k]: the nearest int, a tie going to the
    even neighbour *)
Definition half_even (k : Z) : Z :=
  let q := k / 2 in
  if Z.even k then q else if Z.even q then q else q + 1.

(** the float [f] is [k / 2], exactly *)
Definition is_half (f : spec_float) (k : Z) : Prop :=
  match k with
  | Z0 => exists s, f = S754_zero s
  | Zpos _ => normal_float f /\ B2R f = (IZR k / 2)%R
  | Zneg _ => normal_float (SFopp f) /\ B2R (SFopp f) = (IZR (- k) / 2)%R
  end.

End Halves.

(** ** Kinds of exceptions *)

Module Raised.

(** raised by a computation: neither a file that cannot be opened nor
    a key that is not in a dict *)
Definition computational (e : exn) : bool :=
  match e with
  | OSError _ | KeyError _ => false
  | _ => true
  end.

End Raised.

(** ** What [paste] copies *)

Module Pasting.
Import PIL.

Section WithRaster.
Context `{Raster}.

(** the pixels of [src] as [paste] hands them to a canvas of mode
    [m]: converted when the modes differ *)
Definition pasted_px (src : Image) (m : Mode) : Pixels :=
  if Mode_eqb (mode src) m then px src
  else convert_pixels (mode src) m (px src).

End WithRaster.

End Pasting.

(** ** More inputs for running the model *)

Module Samples.
Import PIL Fixtures.

(** a canvas without height *)
Definition flat_config : TicketConfig := mkTicketConfig 1202 0 50 36 16 24.

(** [plain_raster] with a text box that is empty, and 0 high, for the
    empty string *)
Definition lean_raster : Raster := {|
  resample := @resample plain_raster;
  convert_pixels := @convert_pixels plain_raster;
  blend := @blend plain_raster;
  over := @over plain_raster;
  textbbox := fun _ text =>
    match text with
    | EmptyString => (0, 0, 0, 0)
    | _ => (0, 0, 8 * Z.of_nat (String.length text), 12)
    end;
  text_ink := @text_ink plain_raster;
  line_ink := @line_ink plain_raster;
  pieslice_ink := @pieslice_ink plain_raster;
  qr_module := @qr_module plain_raster
|}.

(** [plain_raster] with text boxes of 6 by 8 pixels per character *)
Definition low_raster : Raster := {|
  resample := @resample plain_raster;
  convert_pixels := @convert_pixels plain_raster;
  blend := @blend plain_raster;
  over := @over plain_raster;
  textbbox := fun _ text => (0, 0, 6 * Z.of_nat (String.length text), 8);
  text_ink := @text_ink plain_raster;
  line_ink := @line_ink plain_raster;
  pieslice_ink := @pieslice_ink plain_raster;
  qr_module := @qr_module plain_raster
|}.

(** an icon size no image can have *)
Definition bad_icon_config : TicketConfig := mkTicketConfig 1202 450 50 36 16 (-1).

(** a file system with the regular face of the font and not the bold
    one *)
Definition regular_face_world : World :=
  mkWorld (fun _ => None) (fun file => String.eqb file "arial.ttf").

(** the demonstration's event, without a category *)
Definition plain_event : EventDetails :=
  mkEventDetails "MAGE4" "" "19 Septembre 2024" "14 H"
    "Antsahamanitra, Antananarivo" "Bronze" "https://evntia.tech/event/12".

Definition plain_ticket_data : TicketData :=
  mkTicketData 12 "RANDRIAMANANTENA LUCA ZO HAINGO" (url plain_event) plain_event.


End Samples.

(** ** Image objects, shared by reference

    In Python an image is an object: [paste] and the draw calls change
    it in place, and whoever holds a reference to it sees the change.
    The heap holds the image objects in the order of their creation; a
    method of the generator is a computation on the heap.  The icons of
    a generator are references to objects that live from one call to
    the next. *)

Module Objects.
Import PIL.

(** a reference to an image object: its place in the heap *)
Abbreviation ref := nat (only parsing).

Abbreviation Heap := (list Image) (only parsing).

(** what a reference to no object would show; no method comes to it *)
Definition no_image : Image := mkImage M1 0 0 (fun _ _ => mkColor 0 0 0 0) [].

(** a computation on the heap: what it returns or raises, and the heap
    it leaves *)
Definition M (A : Type) : Type := Heap -> result A * Heap.

Definition ret {A} (a : A) : M A := fun h => (inr a, h).

(** a computation that does not touch the heap *)
Definition lift {A} (r : result A) : M A := fun h => (r, h).

Definition mbind {A B} (m : M A) (k : A -> M B) : M B :=
  fun h =>
    match m h with
    | (inr a, h') => k a h'
    | (inl e, h') => (inl e, h')
    end.

Notation "'let!' x ':=' m 'in' k" := (mbind m (fun x => k))
  (at level 10, x pattern, m at level 100, k at level 200).

(** a new object *)
Definition alloc (im : Image) : M ref := fun h => (inr (List.length h), (h ++ [im])%list).

(** the image behind a reference *)
Definition deref (r : ref) : M Image := fun h => (inr (nth r h no_image), h).

(** a change in place *)
Definition assign (r : ref) (im : Image) : M unit :=
  fun h => (inr tt, <[r := im]> h).

(** the attributes of [self]; [self.icons] maps names to objects *)
Record t : Type := mk {
  config : TicketConfig;
  icons_folder : string;
  font_large : Font;
  font_small : Font;
  font_bold : Font;
  icons : gmap string ref
}.

(** the generator as it stands in a heap, its icons looked up *)
Definition view (h : Heap) (self : t) : TicketGenerator.t :=
  TicketGenerator.mk (config self) (icons_folder self) (font_large self)
    (font_small self) (font_bold self)
    ((fun r => nth r h no_image) <$> icons self).

(** every icon of the generator is an object of the heap *)
Definition icons_alive (h : Heap) (self : t) : Prop :=
  forall name r, icons self !! name = Some r -> (r < List.length h)%nat.

(** The outcome of a computation that started in the heap [h] agrees
    with a result on images: the objects of [h] are as they were, and
    the computation raised what the result says, or returned a
    reference to a new object that is the image of the result. *)
Definition agrees (h : Heap) (out : result ref * Heap) (pure : result Image)
    : Prop :=
  exists fresh,
    snd out = (h ++ fresh)%list
    /\ match pure with
       | inr img =>
           exists k, fst out = inr (List.length h + k)%nat
                     /\ fresh !! k = Some img
       | inl e => fst out = inl e
       end.

Section WithRaster.
Context `{Raster}.

(** *** The Pillow calls, on objects *)

(** [Image.new(mode, size, color)] *)
Definition new (m : Mode) (sz : Z * Z) (c : Color) : M ref :=
  let! im := lift (PIL.new m sz c) in
  alloc im.

(** [Image.open(path)] *)
Definition open (w : World) (path : string) : M ref :=
  let! im := lift (PIL.open w path) in
  alloc im.

(** [im.convert(mode)], a new object *)
Definition convert (im : ref) (m : Mode) : M ref :=
  let! v := deref im in
  alloc (PIL.convert v m).

(** [im.resize(size, filter)], a new object *)
Definition resize (im : ref) (sz : Z * Z) (f : Filter) : M ref :=
  let! v := deref im in
  let! r := lift (PIL.resize v sz f) in
  alloc r.

(** [im.crop(box)], a new object *)
Definition crop (im : ref)
    (box : PyFloat.float * PyFloat.float * PyFloat.float * PyFloat.float)
    : M ref :=
  let! v := deref im in
  let! r := lift (PIL.crop v box) in
  alloc r.

(** [dst.paste(src, xy)] and [dst.paste(src, xy, mask)]: [dst] is
    changed in place *)
Definition paste (dst src : ref) (xy : Z * Z) (mask : option ref) : M unit :=
  let! s := deref src in
  let! m :=
    match mask with
    | Some mask => let! v := deref mask in ret (Some v)
    | None => ret None
    end in
  let! d := deref dst in
  let! r := lift (PIL.paste d s xy m) in
  assign dst r.

(** [Image.alpha_composite(im1, im2)], a new object *)
Definition alpha_composite (im1 im2 : ref) : M ref :=
  let! a := deref im1 in
  let! b := deref im2 in
  let! r := lift (PIL.alpha_composite a b) in
  alloc r.

(** the calls on [ImageDraw.Draw(im)] change [im] in place *)
Definition draw_text (draw : ref) (xy : Z * Z) (text : string) (font : Font)
    (fill : Color) : M unit :=
  let! v := deref draw in
  assign draw (PIL.draw_text v xy text font fill).

Definition draw_line (draw : ref) (xy : Box) (fill : Color) : M unit :=
  let! v := deref draw in
  assign draw (PIL.draw_line v xy fill).

Definition draw_rectangle (draw : ref) (xy : Box) (fill : Color) : M unit :=
  let! v := deref draw in
  let! r := lift (PIL.draw_rectangle v xy fill) in
  assign draw r.

Definition draw_pieslice (draw : ref) (xy : Box) (start stop : Z)
    (fill : Color) : M unit :=
  let! v := deref draw in
  let! r := lift (PIL.draw_pieslice v xy start stop fill) in
  assign draw r.

(** *** The methods of [TicketGenerator], on objects *)

(** [draw_icon_with_text] *)
Definition draw_icon_with_text (self : t) (ticket : ref) (x y : Z)
    (icon_type text : string) : M unit :=
  let draw := ticket in
  let! icon :=
    match icons self !! icon_type with
    | Some icon => ret icon
    | None => lift (raise (KeyError icon_type))
    end in
  let! bands := deref icon in
  let! _ :=
    if has_alpha_band (mode bands) then paste ticket icon (x, y) (Some icon)
    else paste ticket icon (x, y) None in
  let text_y :=
    y + (icon_size (config self) - font_small_size (config self)) / 2 in
  draw_text draw (x + icon_size (config self) + 10, text_y) text
    (font_small self) (rgb 81 79 79).

(** [create_rounded_rectangle] *)
Definition create_rounded_rectangle (draw : ref) (coords : Box)
    (radius : Z) (fill : Color) : M unit :=
  let '(x1, y1, x2, y2) := coords in
  let! _ := draw_rectangle draw (x1 + radius, y1, x2 - radius, y2) fill in
  let! _ := draw_rectangle draw (x1, y1 + radius, x2, y2 - radius) fill in
  let! _ :=
    draw_pieslice draw (x1, y1, x1 + radius * 2, y1 + radius * 2) 180 270 fill in
  let! _ :=
    draw_pieslice draw (x2 - radius * 2, y1, x2, y1 + radius * 2) 270 360 fill in
  let! _ :=
    draw_pieslice draw (x1, y2 - radius * 2, x1 + radius * 2, y2) 90 180 fill in
  draw_pieslice draw (x2 - radius * 2, y2 - radius * 2, x2, y2) 0 90 fill.

(** [process_background] *)
Definition process_background (self : t) (w : World)
    (background_path : string) (ticket : ref) : M ref :=
  let cfg := config self in
  let! background := open w background_path in
  let! opened := deref background in
  let! bg_aspect :=
    lift (PyFloat.int_truediv (width opened) (height opened)) in
  let! ticket_aspect :=
    lift (PyFloat.int_truediv (cfg_width cfg) (cfg_height cfg)) in
  let! (new_width, new_height) :=
    lift (if PyFloat.gt bg_aspect ticket_aspect then
            let new_height := cfg_height cfg in
            let* scaled := PyFloat.int_mul_float new_height bg_aspect in
            let* new_width := PyFloat.to_int scaled in
            ok (new_width, new_height)
          else
            let new_width := cfg_width cfg in
            let* scaled := PyFloat.int_div_float new_width bg_aspect in
            let* new_height := PyFloat.to_int scaled in
            ok (new_width, new_height)) in
  let! background := resize background (new_width, new_height) LANCZOS in
  let! x_left := lift (PyFloat.int_truediv (new_width - cfg_width cfg) 2) in
  let! y_top := lift (PyFloat.int_truediv (new_height - cfg_height cfg) 2) in
  let! x_right := lift (PyFloat.float_add_int x_left (cfg_width cfg)) in
  let! y_bottom := lift (PyFloat.float_add_int y_top (cfg_height cfg)) in
  crop background (x_left, y_top, x_right, y_bottom).

(** the loop of [add_gradient] over the columns still to draw *)
Fixpoint gradient_loop (cfg : TicketConfig) (columns : list Z) (draw : ref)
    : M unit :=
  match columns with
  | [] => ret tt
  | i :: rest =>
      let! a := lift (TicketGenerator.gradient_alpha cfg i) in
      let! _ :=
        draw_line draw (i, 0, i, cfg_height cfg) (mkColor 255 255 255 a) in
      gradient_loop cfg rest draw
  end.

(** [add_gradient] *)
Definition add_gradient (self : t) (ticket : ref) : M ref :=
  let cfg := config self in
  let! gradient := new RGBA (cfg_width cfg, cfg_height cfg) (mkColor 255 255 255 0) in
  let draw := gradient in
  let! _ := gradient_loop cfg (TicketGenerator.range (cfg_width cfg)) draw in
  let! converted := convert ticket RGBA in
  alpha_composite converted gradient.

(** [add_qr_code] *)
Definition add_qr_code (self : t) (w : World) (ticket : ref)
    (qr_data : string) : M unit :=
  let! made := lift (QR.make_image 2 8 2 qr_data) in
  let! qr_image := alloc made in
  let! qr_code := convert qr_image RGB in
  let! qr_code := resize qr_code (320, 320) BICUBIC in
  let! logo := open w "./EVNTia.png" in
  let logo_size := (80, 40) in
  let! logo := resize logo logo_size BICUBIC in
  let! code := deref qr_code in
  let logo_position :=
    ((width code - fst logo_size) / 2, (height code - snd logo_size) / 2) in
  let! _ := paste qr_code logo logo_position (Some logo) in
  paste ticket qr_code (830, 50) None.

(** the loop over [details], threading [y_pos] *)
Fixpoint details_loop (self : t) (rows : list (string * string * option Z))
    (ticket : ref) (y_pos : Z) : M unit :=
  match rows with
  | [] => ret tt
  | (icon_type, text, x_offset) :: rest =>
      let '(x_pos, y_pos) :=
        match x_offset with
        | None => (padding (config self), y_pos + 40)
        | Some off => (padding (config self) + off, y_pos)
        end in
      let! _ := draw_icon_with_text self ticket x_pos y_pos icon_type text in
      details_loop self rest ticket y_pos
  end.

(** [generate_ticket]; what it returns is a reference to the ticket *)
Definition generate_ticket (self : t) (w : World) (background_path : string)
    (ticket_data : TicketData) : M ref :=
  let cfg := config self in
  let! ticket := new RGB (cfg_width cfg, cfg_height cfg) (rgb 255 255 255) in
  let! background := process_background self w background_path ticket in
  let! _ := paste ticket background (0, 0) None in
  let! ticket := add_gradient self ticket in
  let draw := ticket in

  let y_pos := 20 in
  let! _ :=
    draw_text draw (padding cfg, y_pos)
      ("N: " ++ str (ticket_number ticket_data)) (font_bold self) (rgb 0 0 0) in

  let y_pos := 70 in
  let! _ :=
    draw_text draw (padding cfg, y_pos)
      (TicketGenerator.owner_label ++ owner ticket_data) (font_small self)
      (rgb 0 0 0) in

  let y_pos := 130 in
  let! _ :=
    draw_text draw (padding cfg, y_pos) "Informations" (font_large self)
      (rgb 255 215 0) in

  let y_pos := 180 in
  let title_text := title (event ticket_data) in
  let '(title_width, _) :=
    TicketGenerator.get_text_dimensions title_text (font_bold self) in
  let! _ :=
    draw_text draw (padding cfg, y_pos) title_text (font_bold self) (rgb 0 0 0) in

  let category_text := category (event ticket_data) in
  let '(category_width, category_height) :=
    TicketGenerator.get_text_dimensions category_text (font_small self) in
  let category_x := padding cfg + title_width + 10 in
  let category_y := y_pos + 5 in

  let! _ :=
    create_rounded_rectangle draw
      (category_x, category_y,
       category_x + category_width + 20,
       category_y + category_height + 10)
      10 (rgb 255 215 0) in
  let! _ :=
    draw_text draw (category_x + 10, category_y + 2) category_text
      (font_small self) (rgb 0 0 0) in

  let y_pos := 260 in
  let! _ := details_loop self (TicketGenerator.details ticket_data) ticket y_pos in
  let! _ := add_qr_code self w ticket (qr_data ticket_data) in
  ret ticket.

End WithRaster.

(** *** A generator in a heap, for running the methods *)

(** four transparent icons of 24 by 24 pixels *)
Definition four_icons : Heap :=
  [mkImage RGBA 24 24 (fun _ _ => mkColor 0 0 0 0) [];
   mkImage RGBA 24 24 (fun _ _ => mkColor 0 0 0 0) [];
   mkImage RGBA 24 24 (fun _ _ => mkColor 0 0 0 0) [];
   mkImage RGBA 24 24 (fun _ _ => mkColor 0 0 0 0) []].

(** the generator of the demonstration where no font and no icon file
    was found, its icons the objects of [four_icons] *)
Definition bare_generator : t :=
  mk default_config "icons" DefaultFont DefaultFont DefaultFont
    (<["ticket" := 3%nat]>
       (<["map" := 2%nat]> (<["clock" := 1%nat]> (<["calendar" := 0%nat]> ∅)))).

End Objects.

(** * Properties *)

(** ** The error monad *)

Lemma bind_ok_inv {A B} (r : result A) (k : A -> result B) (b : B) :
  bind r k = inr b -> exists a, r = inr a /\ k a = inr b.
Proof.
  destruct r as [e | a]; simpl; intros Hk; [discriminate | eauto].
Qed.

Lemma bind_err {A B} (r : result A) (k : A -> result B) (e : exn) :
  r = inl e -> bind r k = inl e.
Proof. intros ->; reflexivity. Qed.

Lemma is_ok_inr {A} (r : result A) : is_ok r = true -> exists a, r = inr a.
Proof. destruct r; simpl; [discriminate | eauto]. Qed.

(** Split a successful [let*] into its two halves. *)
Ltac bind_inv H :=
  lazymatch type of H with
  | bind _ _ = inr _ =>
      let a := fresh "v" in
      let Ha := fresh "Hv" in
      apply bind_ok_inv in H; destruct H as (a & Ha & H)
  end.

Ltac binds_inv H := repeat (bind_inv H).

(** ** Shape of an image through the Pillow calls *)

Module PILFacts.
Import PIL.

(** arithmetic with the size limits of [Image.new] *)
Ltac int_max_lia :=
  change (INT_MAX / 4 - 1) with 536870910 in *;
  change INT_MAX with 2147483647 in *; lia.

Section WithRaster.
Context `{Raster}.

Lemma new_inv m w h c im :
  new m (w, h) c = inr im ->
  shape im = (m, w, h) /\ drawn im = [] /\ px im = (fun _ _ => c)
  /\ 0 <= w <= INT_MAX / 4 - 1 /\ 0 <= h <= INT_MAX.
Proof.
  unfold new. intros Hn.
  destruct ((w <? 0) || (h <? 0)) eqn:Hneg; [discriminate |].
  destruct ((INT_MAX <? w) || (INT_MAX <? h)) eqn:Hbig; [discriminate |].
  destruct (INT_MAX / 4 - 1 <? w) eqn:Hline; [discriminate |].
  injection Hn as <-. repeat split; lia.
Qed.

Lemma new_ok m w h c :
  0 <= w <= INT_MAX / 4 - 1 -> 0 <= h <= INT_MAX ->
  new m (w, h) c = inr (mkImage m w h (fun _ _ => c) []).
Proof.
  intros Hw Hh. unfold new.
  replace ((w <? 0) || (h <? 0)) with false by lia.
  replace ((INT_MAX <? w) || (INT_MAX <? h)) with false by int_max_lia.
  replace (INT_MAX / 4 - 1 <? w) with false by lia.
  reflexivity.
Qed.

Lemma resize_inv im sz f r :
  resize im sz f = inr r ->
  shape r = (mode im, fst sz, snd sz) /\ drawn r = [].
Proof.
  destruct sz as [w h]. unfold resize. intros Hr.
  destruct ((w =? width im) && (h =? height im)).
  - injection Hr as <-. split; reflexivity.
  - destruct (negb (c_int w && c_int h)); [discriminate |].
    destruct ((w <? 1) || (h <? 1)); [discriminate |].
    destruct (resize_refused (resize_filter (mode im) f) w h); [discriminate |].
    injection Hr as <-. split; reflexivity.
Qed.

(** A target of at most 38347922 pixels on a side is never refused. *)
Lemma resize_accepted m f w h :
  w <= 38347922 -> h <= 38347922 ->
  resize_refused (resize_filter m f) w h = false.
Proof.
  intros Hw Hh. unfold resize_refused.
  destruct (resize_filter m f); cbn [support];
    [change (INT_MAX / 4 - 1) with 536870910
    | change (INT_MAX / ((2 * 2 + 1) * 8)) with 53687091
    | change (INT_MAX / ((3 * 2 + 1) * 8)) with 38347922]; lia.
Qed.

(** Past the size checks, the only refusal is a MemoryError. *)
Lemma resize_cases im w h f :
  1 <= w <= INT_MAX -> 1 <= h <= INT_MAX ->
  resize im (w, h) f = inl MemoryError
  \/ exists r, resize im (w, h) f = inr r /\ mode r = mode im.
Proof.
  intros Hw Hh. unfold resize.
  destruct ((w =? width im) && (h =? height im)).
  - right. eexists. split; reflexivity.
  - replace (negb (c_int w && c_int h)) with false
      by (unfold c_int; change INT_MAX with 2147483647 in *; lia).
    replace ((w <? 1) || (h <? 1)) with false by lia.
    destruct (resize_refused (resize_filter (mode im) f) w h).
    + left. reflexivity.
    + right. eexists. split; reflexivity.
Qed.

Lemma paste_inv dst src xy mask r :
  paste dst src xy mask = inr r -> shape r = shape dst /\ drawn r = drawn dst.
Proof.
  destruct xy as [x0 y0]. unfold paste. intros Hp.
  destruct mask as [m |].
  - destruct (negb (mask_mode_ok (mode m))); [discriminate |].
    destruct (negb ((width m =? width src) && (height m =? height src)));
      [discriminate |].
    injection Hp as <-. split; reflexivity.
  - injection Hp as <-. split; reflexivity.
Qed.

Lemma paste_unmasked_ok dst src xy : is_ok (paste dst src xy None) = true.
Proof. destruct xy; reflexivity. Qed.

(** A source with an alpha band can always be pasted through itself. *)
Lemma paste_self_mask_ok dst src xy :
  mask_mode_ok (mode src) = true -> is_ok (paste dst src xy (Some src)) = true.
Proof.
  intros Hm. destruct xy as [x0 y0]. unfold paste.
  rewrite Hm, !Z.eqb_refl. reflexivity.
Qed.

Lemma alpha_composite_inv a b r :
  alpha_composite a b = inr r ->
  shape r = (RGBA, width a, height a) /\ drawn r = []
  /\ width a = width b /\ height a = height b.
Proof.
  unfold alpha_composite. intros Hc.
  destruct (negb (Mode_eqb (mode a) RGBA && Mode_eqb (mode b) RGBA));
    [discriminate |].
  destruct ((width a =? width b) && (height a =? height b)) eqn:Hs;
    [| discriminate].
  injection Hc as <-. repeat split; lia.
Qed.

Lemma draw_text_shape im xy text font fill :
  shape (draw_text im xy text font fill) = shape im.
Proof. destruct xy; reflexivity. Qed.

Lemma draw_text_drawn im xy text font fill :
  drawn (draw_text im xy text font fill) = CallText xy text font fill :: drawn im.
Proof. destruct xy; reflexivity. Qed.

Lemma draw_line_shape im xy fill : shape (draw_line im xy fill) = shape im.
Proof. destruct xy as [[[x0 y0] x1] y1]; reflexivity. Qed.

Lemma draw_rectangle_inv im xy fill r :
  draw_rectangle im xy fill = inr r ->
  shape r = shape im /\ drawn r = CallRectangle xy fill :: drawn im.
Proof.
  unfold draw_rectangle. intros Hr. bind_inv Hr.
  destruct xy as [[[x0 y0] x1] y1]. injection Hr as <-. split; reflexivity.
Qed.

Lemma draw_pieslice_inv im xy start stop fill r :
  draw_pieslice im xy start stop fill = inr r ->
  shape r = shape im /\ drawn r = CallPieslice xy start stop fill :: drawn im.
Proof.
  unfold draw_pieslice. intros Hr. bind_inv Hr.
  injection Hr as <-. split; reflexivity.
Qed.

End WithRaster.
End PILFacts.

(** ** Rounding of the binary64 operations *)

Module Binary64Facts.
Import Binary64.

(** *** Powers of two *)

Lemma bpow_gt_0 e : (0 < bpow e)%R.
Proof. apply powerRZ_lt. lra. Qed.

Lemma bpow_add e1 e2 : bpow (e1 + e2) = (bpow e1 * bpow e2)%R.
Proof. apply powerRZ_add. lra. Qed.

Lemma bpow_0 : bpow 0 = 1%R.
Proof. reflexivity. Qed.

Lemma bpow_1 : bpow 1 = 2%R.
Proof. unfold bpow. simpl. lra. Qed.

Lemma bpow_succ e : bpow (e + 1) = (2 * bpow e)%R.
Proof. rewrite bpow_add, bpow_1. lra. Qed.

Lemma bpow_nonneg_IZR e : 0 <= e -> bpow e = IZR (2 ^ e).
Proof.
  intros He. unfold bpow.
  rewrite <- (Z2Nat.id e He), <- pow_powerRZ, <- pow_IZR. reflexivity.
Qed.

Lemma bpow_sub e1 e2 : bpow (e1 - e2) = (bpow e1 / bpow e2)%R.
Proof.
  replace e1 with ((e1 - e2) + e2) at 2 by lia. rewrite bpow_add.
  pose proof (bpow_gt_0 e2). field. lra.
Qed.

Lemma bpow_le e1 e2 : e1 <= e2 -> (bpow e1 <= bpow e2)%R.
Proof.
  intros Hle. replace e2 with (e1 + (e2 - e1)) by lia.
  rewrite bpow_add, (bpow_nonneg_IZR (e2 - e1)) by lia.
  pose proof (bpow_gt_0 e1).
  assert (1 <= IZR (2 ^ (e2 - e1)))%R.
  { apply IZR_le. pose proof (Z.pow_pos_nonneg 2 (e2 - e1)). lia. }
  nra.
Qed.

Lemma bpow_lt e1 e2 : e1 < e2 -> (bpow e1 < bpow e2)%R.
Proof.
  intros Hlt. replace e2 with (e1 + 1 + (e2 - e1 - 1)) by lia.
  rewrite bpow_add, bpow_succ, (bpow_nonneg_IZR (e2 - e1 - 1)) by lia.
  pose proof (bpow_gt_0 e1).
  assert (1 <= IZR (2 ^ (e2 - e1 - 1)))%R.
  { apply IZR_le. pose proof (Z.pow_pos_nonneg 2 (e2 - e1 - 1)). lia. }
  nra.
Qed.

Lemma F2R_shift m e k : 0 <= k -> F2R (m * 2 ^ k) (e - k) = F2R m e.
Proof.
  intros Hk. unfold F2R. rewrite mult_IZR, <- bpow_nonneg_IZR by exact Hk.
  replace e with ((e - k) + k) at 2 by lia. rewrite (bpow_add (e - k) k). ring.
Qed.

Lemma F2R_le m1 m2 e : m1 <= m2 -> (F2R m1 e <= F2R m2 e)%R.
Proof.
  intros Hle. unfold F2R. pose proof (bpow_gt_0 e).
  apply IZR_le in Hle. nra.
Qed.

Lemma F2R_lt m1 m2 e : m1 < m2 -> (F2R m1 e < F2R m2 e)%R.
Proof.
  intros Hlt. unfold F2R. pose proof (bpow_gt_0 e).
  apply IZR_lt in Hlt. nra.
Qed.

Lemma F2R_lt_inv m1 m2 e : (F2R m1 e < F2R m2 e)%R -> m1 < m2.
Proof.
  intros Hlt. destruct (Z.lt_ge_cases m1 m2) as [Hok | Hge]; [exact Hok |].
  apply (F2R_le _ _ e) in Hge. lra.
Qed.

Lemma F2R_le_inv m1 m2 e : (F2R m1 e <= F2R m2 e)%R -> m1 <= m2.
Proof.
  intros Hle. destruct (Z.le_gt_cases m1 m2) as [Hok | Hgt]; [exact Hok |].
  apply (F2R_lt _ _ e) in Hgt. lra.
Qed.

Lemma F2R_succ m e : F2R (m + 1) e = (F2R m e + bpow e)%R.
Proof. unfold F2R. rewrite plus_IZR. ring. Qed.

(** *** Number of bits *)

Lemma digits2_pos_bounds p :
  2 ^ (Z.pos (digits2_pos p) - 1) <= Z.pos p < 2 ^ Z.pos (digits2_pos p).
Proof.
  induction p as [p IH | p IH |]; simpl digits2_pos.
  - rewrite Pos2Z.inj_succ.
    replace (Z.succ (Z.pos (digits2_pos p)) - 1) with (Z.pos (digits2_pos p) - 1 + 1) by lia.
    rewrite Z.pow_succ_r, Z.pow_add_r by lia. lia.
  - rewrite Pos2Z.inj_succ.
    replace (Z.succ (Z.pos (digits2_pos p)) - 1) with (Z.pos (digits2_pos p) - 1 + 1) by lia.
    rewrite Z.pow_succ_r, Z.pow_add_r by lia. lia.
  - simpl. lia.
Qed.

Lemma digits_unique m d : 0 < d -> 2 ^ (d - 1) <= m < 2 ^ d -> Zdigits2 m = d.
Proof.
  intros Hd Hm.
  assert (Hpos : 0 < m) by (pose proof (Z.pow_pos_nonneg 2 (d - 1)); lia).
  destruct m as [| p | p]; try lia. simpl.
  pose proof (digits2_pos_bounds p) as Hp.
  destruct (Z.lt_trichotomy (Z.pos (digits2_pos p)) d) as [Hlt | [Heq | Hgt]].
  - assert (2 ^ Z.pos (digits2_pos p) <= 2 ^ (d - 1)) by (apply Z.pow_le_mono_r; lia).
    lia.
  - exact Heq.
  - assert (2 ^ d <= 2 ^ (Z.pos (digits2_pos p) - 1)) by (apply Z.pow_le_mono_r; lia).
    lia.
Qed.

Lemma digits_bounds m : 0 < m -> 2 ^ (Zdigits2 m - 1) <= m < 2 ^ Zdigits2 m.
Proof. destruct m as [| p | p]; try lia. intros _. apply digits2_pos_bounds. Qed.

Lemma digits_pos m : 0 < m -> 0 < Zdigits2 m.
Proof. destruct m; simpl; lia. Qed.

(** *** Shifting a located mantissa to the right *)

Lemma F2R_double m e : F2R (2 * m) e = F2R m (e + 1).
Proof. unfold F2R. rewrite mult_IZR, bpow_succ. ring. Qed.

Lemma F2R_double_1 m e : F2R (2 * m + 1) e = (F2R m (e + 1) + bpow e)%R.
Proof. unfold F2R. rewrite plus_IZR, mult_IZR, bpow_succ. ring. Qed.

Lemma F2R_double_2 m e : F2R (2 * m + 1 + 1) e = (F2R m (e + 1) + 2 * bpow e)%R.
Proof. unfold F2R. rewrite !plus_IZR, mult_IZR, bpow_succ. ring. Qed.

Lemma F2R_succ_up m e : F2R (m + 1) (e + 1) = (F2R m (e + 1) + 2 * bpow e)%R.
Proof. unfold F2R. rewrite plus_IZR, bpow_succ. ring. Qed.

Lemma F2R_0 e : F2R 0 e = 0%R.
Proof. unfold F2R. ring. Qed.

Lemma F2R_1 e : F2R 1 e = bpow e.
Proof. unfold F2R. ring. Qed.

Lemma F2R_2 e : F2R (1 + 1) e = (2 * bpow e)%R.
Proof. unfold F2R. change (1 + 1) with 2. ring. Qed.

(** One step: the slot doubles, the place in it is updated. *)
Lemma shr_1_located mrs e x :
  record_located mrs e x -> record_located (shr_1 mrs) (e + 1) x.
Proof.
  destruct mrs as [m r s]. unfold record_located. simpl shr_m.
  intros [Hm Hloc]. pose proof (bpow_gt_0 e) as Hb.
  destruct m as [| p | p]; [| | lia].
  - (* m = 0 *)
    split; [destruct r, s; simpl; lia |].
    destruct r, s; cbn [shr_1 shr_m loc_of_shr_record located orb] in *;
      rewrite ?F2R_0, ?Z.add_0_l, ?F2R_1, ?bpow_succ in *; lra.
  - destruct p as [p | p |].
    + (* m = 2p + 1 *)
      split; [destruct r, s; simpl; lia |].
      change (Z.pos p~1) with (2 * Z.pos p + 1) in Hloc.
      destruct r, s; cbn [shr_1 shr_m loc_of_shr_record located orb] in *;
        rewrite ?F2R_double_1, ?F2R_double_2, ?F2R_succ_up in *; lra.
    + (* m = 2p *)
      split; [destruct r, s; simpl; lia |].
      change (Z.pos p~0) with (2 * Z.pos p) in Hloc.
      destruct r, s; cbn [shr_1 shr_m loc_of_shr_record located orb] in *;
        rewrite ?F2R_double_1, ?F2R_double, ?F2R_succ_up in *; lra.
    + (* m = 1 *)
      split; [destruct r, s; simpl; lia |].
      destruct r, s; cbn [shr_1 shr_m loc_of_shr_record located orb] in *;
        rewrite ?F2R_0, ?Z.add_0_l, ?F2R_2, ?F2R_1, ?bpow_succ in *; lra.
Qed.

Lemma iter_pos_located n : forall mrs e x,
  record_located mrs e x -> record_located (SpecFloat.iter_pos shr_1 n mrs) (e + Z.pos n) x.
Proof.
  induction n as [n IH | n IH |]; intros mrs e x Hloc; simpl SpecFloat.iter_pos.
  - replace (e + Z.pos n~1) with (e + 1 + Z.pos n + Z.pos n) by lia.
    apply IH, IH, shr_1_located, Hloc.
  - replace (e + Z.pos n~0) with (e + Z.pos n + Z.pos n) by lia.
    apply IH, IH, Hloc.
  - apply shr_1_located, Hloc.
Qed.

Lemma record_of_loc_located m e l x :
  0 <= m -> located m e l x -> record_located (shr_record_of_loc m l) e x.
Proof.
  intros Hm Hloc. unfold record_located.
  destruct l as [| [| |]]; simpl; split; assumption.
Qed.

(** [shr] by a non-negative amount keeps [x] located. *)
Lemma shr_located m e l n x :
  0 <= m -> 0 <= n -> located m e l x ->
  exists mrs, shr (shr_record_of_loc m l) e n = (mrs, e + n)
              /\ record_located mrs (e + n) x.
Proof.
  intros Hm Hn Hloc. apply (record_of_loc_located m e l x Hm) in Hloc.
  destruct n as [| p | p]; [| | lia]; simpl shr.
  - rewrite Z.add_0_r. eexists. split; [reflexivity | exact Hloc].
  - eexists. split; [reflexivity |]. apply iter_pos_located, Hloc.
Qed.

(** *** Rounding to nearest *)

Lemma located_bounds m e l x : located m e l x -> (F2R m e <= x < F2R (m + 1) e)%R.
Proof.
  destruct l as [| c]; simpl.
  - intros ->. rewrite F2R_succ. pose proof (bpow_gt_0 e). lra.
  - intros [Hx _]. lra.
Qed.

Lemma F2R_pow2 k e : 0 <= k -> F2R (2 ^ k) e = bpow (k + e).
Proof.
  intros Hk. unfold F2R. rewrite <- bpow_nonneg_IZR by exact Hk.
  rewrite bpow_add. reflexivity.
Qed.

(** The mantissa chosen is an end of the slot, and the nearer one. *)
Lemma round_nearest_even_choice m e l x :
  located m e l x ->
  (round_nearest_even m l = m \/ round_nearest_even m l = m + 1)
  /\ (Rabs (x - F2R (round_nearest_even m l) e) <= Rabs (x - F2R m e))%R
  /\ (Rabs (x - F2R (round_nearest_even m l) e) <= Rabs (x - F2R (m + 1) e))%R.
Proof.
  intros Hloc. pose proof (located_bounds m e l x Hloc) as Hb.
  destruct l as [| [| |]]; simpl in *.
  - split; [left; reflexivity |]. subst x.
    split; unfold Rabs; repeat destruct Rcase_abs; lra.
  - destruct (Z.even m); (split; [tauto |]);
      split; unfold Rabs; repeat destruct Rcase_abs; lra.
  - split; [left; reflexivity |].
    split; unfold Rabs; repeat destruct Rcase_abs; lra.
  - split; [right; reflexivity |].
    split; unfold Rabs; repeat destruct Rcase_abs; lra.
Qed.

(** Between two neighbours with full mantissas there is no normal
    number. *)
Lemma no_normal_between m e g :
  2 ^ 52 <= m -> normal g -> ~ (F2R m e < g < F2R (m + 1) e)%R.
Proof.
  intros Hm (mg & eg & -> & Hmg) [Hlo Hhi].
  destruct (Z.le_gt_cases e eg) as [Hle | Hgt].
  - rewrite <- (F2R_shift mg eg (eg - e)) in Hlo, Hhi by lia.
    replace (eg - (eg - e)) with e in Hlo, Hhi by lia.
    apply F2R_lt_inv in Hlo, Hhi. lia.
  - assert (Hg : (F2R mg eg < F2R (2 ^ 53) eg)%R) by (apply F2R_lt; lia).
    rewrite F2R_pow2 in Hg by lia.
    assert (Hp : (bpow (53 + eg) <= bpow (52 + e))%R) by (apply bpow_le; lia).
    assert (Hl : (F2R (2 ^ 52) e <= F2R m e)%R) by (apply F2R_le; lia).
    rewrite F2R_pow2 in Hl by lia. lra.
Qed.

(** The nearer end of a slot between two normal neighbours is nearest
    among all normal numbers. *)
Lemma nearest_in_slot m e f x :
  2 ^ 52 <= m -> (F2R m e <= x <= F2R (m + 1) e)%R -> normal f ->
  (Rabs (x - f) <= Rabs (x - F2R m e))%R ->
  (Rabs (x - f) <= Rabs (x - F2R (m + 1) e))%R ->
  nearest x f.
Proof.
  intros Hm Hx Hf Hlo Hhi. split; [exact Hf |]. intros g Hg.
  pose proof (no_normal_between m e g Hm Hg) as Hno.
  destruct (Rle_or_lt g (F2R m e)) as [Hle | Hgt].
  - eapply Rle_trans; [exact Hlo |].
    unfold Rabs. repeat destruct Rcase_abs; lra.
  - destruct (Rle_or_lt (F2R (m + 1) e) g) as [Hge | Hlt]; [| lra].
    eapply Rle_trans; [exact Hhi |].
    unfold Rabs. repeat destruct Rcase_abs; lra.
Qed.

Lemma fexp_normal k : -1074 <= k - 53 -> fexp 53 1024 k = k - 53.
Proof. intros Hk. unfold fexp, emin. lia. Qed.

(** [binary_round_aux] on a positive mantissa of at least 53 bits whose
    rounded exponent stays in the normal range: the result is the normal
    float nearest to the located real. *)
Lemma binary_round_aux_near m e l x :
  0 < m -> located m e l x ->
  53 <= Zdigits2 m ->
  -1074 <= e + Zdigits2 m - 53 < 971 ->
  exists m' e',
    binary_round_aux 53 1024 false m e l = S754_finite false m' e'
    /\ 2 ^ 52 <= Z.pos m' < 2 ^ 53
    /\ e + Zdigits2 m - 53 <= e' <= e + Zdigits2 m - 53 + 1
    /\ nearest x (F2R (Z.pos m') e').
Proof.
  intros Hm Hloc Hd He.
  set (d := Zdigits2 m) in *. set (e1 := e + d - 53) in *.
  pose proof (digits_bounds m Hm) as Hdig. fold d in Hdig.
  pose proof (located_bounds m e l x Hloc) as Hx.
  (* the magnitude of x *)
  assert (Hmag : (bpow (52 + e1) <= x < bpow (53 + e1))%R).
  { assert (Hlo : (F2R (2 ^ (d - 1)) e <= F2R m e)%R) by (apply F2R_le; lia).
    assert (Hhi : (F2R (m + 1) e <= F2R (2 ^ d) e)%R) by (apply F2R_le; lia).
    rewrite F2R_pow2 in Hlo, Hhi by lia.
    replace (52 + e1) with (d - 1 + e) by (unfold e1; lia).
    replace (53 + e1) with (d + e) by (unfold e1; lia). lra. }
  unfold binary_round_aux, shr_fexp. fold d.
  rewrite (fexp_normal (d + e)) by (unfold e1 in He; lia).
  destruct (shr_located m e l (d + e - 53 - e) x) as (mrs & Hshr & Hm1 & Hloc1);
    [lia | lia | exact Hloc |].
  rewrite Hshr. replace (e + (d + e - 53 - e)) with e1 in * by (unfold e1; lia).
  set (m1 := shr_m mrs) in *. set (l1 := loc_of_shr_record mrs) in *.
  pose proof (located_bounds m1 e1 l1 x Hloc1) as Hx1.
  assert (Hm1r : 2 ^ 52 <= m1 < 2 ^ 53).
  { split.
    - assert (Hlt : (F2R (2 ^ 52) e1 < F2R (m1 + 1) e1)%R)
        by (rewrite F2R_pow2 by lia; lra).
      apply F2R_lt_inv in Hlt. lia.
    - assert (Hlt : (F2R m1 e1 < F2R (2 ^ 53) e1)%R)
        by (rewrite F2R_pow2 by lia; lra).
      apply F2R_lt_inv in Hlt. exact Hlt. }
  destruct (round_nearest_even_choice m1 e1 l1 x Hloc1) as (Hchoice & Hlo & Hhi).
  set (m2 := round_nearest_even m1 l1) in *.
  assert (Hnear : forall f, f = F2R m2 e1 -> normal f -> nearest x f).
  { intros f -> Hf. apply (nearest_in_slot m1 e1); try assumption; lra || lia. }
  destruct (Z.eq_dec m2 (2 ^ 53)) as [Hfull | Hnot].
  - (* the mantissa overflowed to 2^53: one more shift *)
    rewrite Hfull. change (Zdigits2 (2 ^ 53)) with 54.
    rewrite (fexp_normal (54 + e1)) by lia.
    replace (54 + e1 - 53 - e1) with 1 by lia.
    cbn [shr shr_record_of_loc SpecFloat.iter_pos].
    change (shr_m (shr_1 {| shr_m := 2 ^ 53; shr_r := false; shr_s := false |}))
      with (2 ^ 52).
    change (2 ^ 52) with (Z.pos (2 ^ 52)) at 1. cbv iota.
    replace (e1 + 1 <=? 1024 - 53) with true by lia.
    exists (2 ^ 52)%positive, (e1 + 1).
    split; [reflexivity |]. split; [lia |]. split; [lia |].
    apply Hnear.
    + rewrite Hfull. change (2 ^ 53) with (2 * 2 ^ 52).
      rewrite F2R_double. reflexivity.
    + exists (2 ^ 52), (e1 + 1). split; [reflexivity | lia].
  - assert (Hm2 : 2 ^ 52 <= m2 < 2 ^ 53) by lia.
    rewrite (digits_unique m2 53) by lia.
    rewrite (fexp_normal (53 + e1)) by lia.
    replace (53 + e1 - 53 - e1) with 0 by lia.
    cbn [shr].
    assert (Hrec : shr_m (shr_record_of_loc m2 loc_Exact) = m2) by reflexivity.
    rewrite Hrec.
    destruct m2 as [| p | p] eqn:Hp; try lia.
    replace (e1 <=? 1024 - 53) with true by lia.
    exists p, e1. split; [reflexivity |]. split; [lia |]. split; [lia |].
    apply Hnear; [reflexivity |].
    exists (Z.pos p), e1. split; [reflexivity | lia].
Qed.

(** *** Order *)

Lemma nearest_mono x y fx fy :
  (x < y)%R -> nearest x fx -> nearest y fy -> (fx <= fy)%R.
Proof.
  intros Hxy [Hfx Hnx] [Hfy Hny].
  specialize (Hnx fy Hfy). specialize (Hny fx Hfx).
  destruct (Rle_or_lt fx fy) as [Hle | Hgt]; [exact Hle | exfalso].
  revert Hnx Hny. unfold Rabs. repeat destruct Rcase_abs; lra.
Qed.

Lemma nearest_of_normal x f : normal x -> nearest x f -> f = x.
Proof.
  intros Hx [_ Hn]. specialize (Hn x Hx).
  revert Hn. unfold Rabs. repeat destruct Rcase_abs; lra.
Qed.

Lemma normal_nearest x : normal x -> nearest x x.
Proof.
  intros Hx. split; [exact Hx |]. intros g _.
  unfold Rabs. repeat destruct Rcase_abs; lra.
Qed.

Lemma nearest_le_normal x f c : nearest x f -> normal c -> (x <= c)%R -> (f <= c)%R.
Proof.
  intros Hn Hc [Hlt | Heq].
  - apply (nearest_mono x c); [exact Hlt | exact Hn | apply normal_nearest, Hc].
  - subst c. rewrite (nearest_of_normal x f Hc Hn). lra.
Qed.

Lemma nearest_ge_normal x f c : nearest x f -> normal c -> (c <= x)%R -> (c <= f)%R.
Proof.
  intros Hn Hc [Hlt | Heq].
  - apply (nearest_mono c x); [exact Hlt | apply normal_nearest, Hc | exact Hn].
  - subst c. rewrite (nearest_of_normal x f Hc Hn). lra.
Qed.

Lemma normal_float_normal f : normal_float f -> normal (B2R f).
Proof.
  intros (m & e & -> & Hm & _). exists (Z.pos m), e. split; [reflexivity | exact Hm].
Qed.

Lemma normal_float_pos f : normal_float f -> (0 < B2R f)%R.
Proof.
  intros (m & e & -> & Hm & _). simpl. unfold F2R.
  pose proof (bpow_gt_0 e). assert (0 < IZR (Z.pos m))%R by (apply IZR_lt; lia). nra.
Qed.

(** A value has one normal representation only. *)
Lemma normal_float_inj f1 f2 :
  normal_float f1 -> normal_float f2 -> B2R f1 = B2R f2 -> f1 = f2.
Proof.
  intros (m1 & e1 & -> & Hm1 & _) (m2 & e2 & -> & Hm2 & _). simpl. intros Heq.
  assert (Hlt : forall ma ea mb eb,
             2 ^ 52 <= ma < 2 ^ 53 -> 2 ^ 52 <= mb < 2 ^ 53 -> ea < eb ->
             F2R ma ea <> F2R mb eb).
  { intros ma ea mb eb Ha Hb He Hv.
    rewrite <- (F2R_shift mb eb (eb - ea)) in Hv by lia.
    replace (eb - (eb - ea)) with ea in Hv by lia.
    assert (Hm : ma = mb * 2 ^ (eb - ea)).
    { apply Z.le_antisymm; apply (F2R_le_inv _ _ ea); rewrite Hv; lra. }
    assert (2 ^ 1 <= 2 ^ (eb - ea)) by (apply Z.pow_le_mono_r; lia).
    nia. }
  destruct (Z.lt_trichotomy e1 e2) as [He | [He | He]].
  - exfalso. exact (Hlt _ _ _ _ Hm1 Hm2 He Heq).
  - subst e2.
    assert (Hm : Z.pos m1 = Z.pos m2).
    { apply Z.le_antisymm; apply (F2R_le_inv _ _ e1); rewrite Heq; lra. }
    injection Hm as ->. reflexivity.
  - exfalso. exact (Hlt _ _ _ _ Hm2 Hm1 He (eq_sym Heq)).
Qed.

(** *** Rounding an exact value *)

Lemma iter_xO m k : Z.pos (Pos.iter xO m k) = Z.pos m * 2 ^ Z.pos k.
Proof.
  induction k as [| k IH] using Pos.peano_ind.
  - simpl. lia.
  - rewrite Pos.iter_succ, Pos2Z.inj_xO, IH, Pos2Z.inj_succ, Z.pow_succ_r by lia. ring.
Qed.

(** the mantissa of [shl_align] when the target exponent is not above *)
Lemma shl_align_down m e e' :
  e' <= e -> shl_align m e e' = (Z.to_pos (Z.pos m * 2 ^ (e - e')), e').
Proof.
  intros Hle. unfold shl_align.
  destruct (e' - e) as [| p | p] eqn:Hd; try lia.
  - replace (e - e') with 0 by lia. replace e' with e by lia.
    rewrite Z.mul_1_r. reflexivity.
  - replace (e - e') with (Z.pos p) by lia. rewrite <- iter_xO. reflexivity.
Qed.

Lemma shl_align_up m e e' : e <= e' -> shl_align m e e' = (m, e).
Proof.
  intros Hle. unfold shl_align.
  destruct (e' - e) as [| p | p] eqn:Hd; try lia; reflexivity.
Qed.

Lemma pow2_pos k : 0 < 2 ^ k \/ k < 0.
Proof.
  destruct (Z.le_gt_cases 0 k) as [Hk | Hk]; [left | right; exact Hk].
  apply Z.pow_pos_nonneg; lia.
Qed.

Lemma fill_mantissa n d :
  0 < d <= 53 -> 2 ^ (d - 1) <= n < 2 ^ d -> 2 ^ 52 <= n * 2 ^ (53 - d) < 2 ^ 53.
Proof.
  intros Hd Hn.
  assert (H52 : 2 ^ 52 = 2 ^ (d - 1) * 2 ^ (53 - d))
    by (rewrite <- Z.pow_add_r by lia; f_equal; lia).
  assert (H53 : 2 ^ 53 = 2 ^ d * 2 ^ (53 - d))
    by (rewrite <- Z.pow_add_r by lia; f_equal; lia).
  assert (0 < 2 ^ (53 - d)) by (apply Z.pow_pos_nonneg; lia).
  rewrite H52, H53. nia.
Qed.

(** [binary_round] on a positive mantissa whose rounded exponent stays in
    the normal range. *)
Lemma binary_round_near m e :
  -1074 <= e + Zdigits2 (Z.pos m) - 53 < 971 ->
  exists m' e',
    binary_round 53 1024 false m e = S754_finite false m' e'
    /\ 2 ^ 52 <= Z.pos m' < 2 ^ 53 /\ -1074 <= e' <= 971
    /\ nearest (F2R (Z.pos m) e) (F2R (Z.pos m') e').
Proof.
  intros He. set (d := Zdigits2 (Z.pos m)) in *.
  pose proof (digits_bounds (Z.pos m) ltac:(lia)) as Hdig. fold d in Hdig.
  assert (Hd : 0 < d) by (apply digits_pos; lia).
  unfold binary_round. change (Z.pos (digits2_pos m)) with d.
  rewrite (fexp_normal (d + e)) by lia.
  destruct (Z.le_gt_cases 53 d) as [Hbig | Hsmall].
  - (* enough bits already *)
    rewrite shl_align_up by lia.
    destruct (binary_round_aux_near (Z.pos m) e loc_Exact (F2R (Z.pos m) e))
      as (m' & e' & Hr & Hm' & He' & Hn); try (fold d; lia); [reflexivity |].
    exists m', e'. fold d in He'.
    split; [exact Hr |]. split; [exact Hm' |]. split; [lia | exact Hn].
  - (* fewer than 53 bits: the mantissa is filled up first *)
    rewrite shl_align_down by lia.
    replace (e - (d + e - 53)) with (53 - d) by lia.
    set (mz := Z.pos m * 2 ^ (53 - d)).
    assert (Hmz : 2 ^ 52 <= mz < 2 ^ 53).
    { unfold mz. apply fill_mantissa; lia. }
    assert (Hdz : Zdigits2 mz = 53) by (apply digits_unique; lia).
    assert (Hval : F2R mz (d + e - 53) = F2R (Z.pos m) e).
    { unfold mz. replace (d + e - 53) with (e - (53 - d)) by lia.
      apply F2R_shift. lia. }
    replace (Z.pos (Z.to_pos mz)) with mz by (rewrite Z2Pos.id; lia).
    destruct (binary_round_aux_near mz (d + e - 53) loc_Exact (F2R (Z.pos m) e))
      as (m' & e' & Hr & Hm' & He' & Hn); try (rewrite Hdz; lia); [lia | |].
    { simpl. symmetry. exact Hval. }
    exists m', e'. rewrite Hdz in He'.
    split; [exact Hr |]. split; [exact Hm' |]. split; [lia | exact Hn].
Qed.

(** A positive integer below [2^53] is a normal number. *)
Lemma normal_int n : 0 < n < 2 ^ 53 -> normal (IZR n).
Proof.
  intros Hn. pose proof (digits_bounds n ltac:(lia)) as Hdig.
  set (d := Zdigits2 n) in *.
  assert (Hd : 0 < d) by (apply digits_pos; lia).
  assert (Hd53 : d <= 53).
  { destruct (Z.le_gt_cases d 53) as [Hok | Hgt]; [exact Hok |].
    assert (2 ^ 53 <= 2 ^ (d - 1)) by (apply Z.pow_le_mono_r; lia). lia. }
  exists (n * 2 ^ (53 - d)), (0 - (53 - d)). split.
  - rewrite F2R_shift by lia. unfold F2R. rewrite bpow_0. ring.
  - apply fill_mantissa; lia.
Qed.

(** *** Division *)

(** Where the remainder puts the quotient in its slot. *)
Lemma new_location_located q e d r :
  0 < d -> 0 <= r < d ->
  located q e (new_location d r) ((IZR q + IZR r / IZR d) * bpow e)%R.
Proof.
  intros Hd Hr.
  pose proof (bpow_gt_0 e) as Hb.
  assert (Hdr : (0 < IZR d)%R) by (apply IZR_lt; lia).
  set (t := (IZR r / IZR d)%R).
  assert (Ht : (t * IZR d = IZR r)%R) by (unfold t; field; lra).
  assert (Hr0 : (0 <= IZR r < IZR d)%R)
    by (split; [apply IZR_le | apply IZR_lt]; lia).
  assert (Ht01 : (0 <= t < 1)%R) by (split; nra).
  assert (Hpos : r <> 0 -> (0 < t)%R).
  { intros Hne. assert (0 < IZR r)%R by (apply IZR_lt; lia). nra. }
  assert (Hcmp : forall c,
             match c with
             | Lt => 2 * r < d
             | Eq => 2 * r = d
             | Gt => d < 2 * r
             end ->
             r <> 0 ->
             located q e (loc_Inexact c) ((IZR q + t) * bpow e)%R).
  { intros c Hc Hne. specialize (Hpos Hne). simpl. rewrite F2R_succ. unfold F2R.
    split; [split; nra |].
    destruct c.
    - assert (2 * IZR r = IZR d)%R by (rewrite <- mult_IZR; f_equal; exact Hc). nra.
    - assert (2 * IZR r < IZR d)%R by (rewrite <- mult_IZR; apply IZR_lt; exact Hc). nra.
    - assert (IZR d < 2 * IZR r)%R by (rewrite <- mult_IZR; apply IZR_lt; exact Hc). nra. }
  unfold new_location, new_location_even, new_location_odd.
  destruct (Z.even d) eqn:Heven; destruct (Z.eqb_spec r 0) as [-> | Hne].
  - simpl. unfold t, F2R. unfold Rdiv. rewrite Rmult_0_l, Rplus_0_r. reflexivity.
  - apply Hcmp; [| exact Hne]. destruct (Z.compare_spec (2 * r) d); lia.
  - simpl. unfold t, F2R. unfold Rdiv. rewrite Rmult_0_l, Rplus_0_r. reflexivity.
  - assert (Hodd : d <> 2 * r).
    { intros ->. rewrite Z.even_mul in Heven. discriminate. }
    destruct (Z.compare_spec (2 * r + 1) d); apply Hcmp; try exact Hne; lia.
Qed.

(** The quotient of two normal floats whose exponents are not too far
    apart is the normal float nearest to the quotient of their values. *)
Lemma SFdiv_near mx ex my ey :
  2 ^ 52 <= Z.pos mx < 2 ^ 53 -> 2 ^ 52 <= Z.pos my < 2 ^ 53 ->
  -1021 <= ex - ey < 1023 ->
  exists m' e',
    SFdiv 53 1024 (S754_finite false mx ex) (S754_finite false my ey)
    = S754_finite false m' e'
    /\ 2 ^ 52 <= Z.pos m' < 2 ^ 53 /\ -1074 <= e' <= 971
    /\ nearest (F2R (Z.pos mx) ex / F2R (Z.pos my) ey) (F2R (Z.pos m') e').
Proof.
  intros Hmx Hmy He.
  unfold SFdiv, SFdiv_core_binary. cbn [xorb].
  rewrite (digits_unique (Z.pos mx) 53), (digits_unique (Z.pos my) 53) by lia.
  replace (53 + ex - (53 + ey)) with (ex - ey) by lia.
  rewrite (fexp_normal (ex - ey)) by lia.
  replace (Z.min (ex - ey - 53) (ex - ey)) with (ex - ey - 53) by lia.
  replace (ex - ey - (ex - ey - 53)) with 53 by lia.
  cbv iota. rewrite Z.shiftl_mul_pow2 by lia.
  pose proof (Z_div_mod (Z.pos mx * 2 ^ 53) (Z.pos my) ltac:(lia)) as Hdiv.
  destruct (Z.div_eucl (Z.pos mx * 2 ^ 53) (Z.pos my)) as [q r].
  destruct Hdiv as [Hqr Hr].
  set (e1 := ex - ey - 53).
  assert (Hq : 2 ^ 52 <= q < 2 ^ 54).
  { change (2 ^ 54) with (2 ^ 53 * 2). change (2 ^ 53) with (2 ^ 52 * 2) in *. nia. }
  assert (Hdq : 53 <= Zdigits2 q <= 54).
  { pose proof (digits_bounds q ltac:(lia)) as Hdig.
    destruct (Z.le_gt_cases 53 (Zdigits2 q)) as [H53 | H53].
    - split; [exact H53 |].
      destruct (Z.le_gt_cases (Zdigits2 q) 54) as [H54 | H54]; [exact H54 |].
      assert (2 ^ 54 <= 2 ^ (Zdigits2 q - 1)) by (apply Z.pow_le_mono_r; lia). lia.
    - assert (2 ^ Zdigits2 q <= 2 ^ 52) by (apply Z.pow_le_mono_r; lia). lia. }
  assert (Hx : (F2R (Z.pos mx) ex / F2R (Z.pos my) ey
                = (IZR q + IZR r / IZR (Z.pos my)) * bpow e1)%R).
  { unfold F2R, e1.
    replace (ex - ey - 53) with (ex - ey - 53 + 0) by lia.
    replace ex with ((ex - ey - 53) + 53 + ey) at 1 by lia.
    rewrite !bpow_add, (bpow_nonneg_IZR 53) by lia.
    pose proof (bpow_gt_0 (ex - ey - 53)). pose proof (bpow_gt_0 ey).
    assert (Hmy0 : (0 < IZR (Z.pos my))%R) by (apply IZR_lt; lia).
    assert (Hreal : (IZR (Z.pos mx) * IZR (2 ^ 53)
                     = IZR (Z.pos my) * IZR q + IZR r)%R)
      by (rewrite <- !mult_IZR, <- plus_IZR; f_equal; exact Hqr).
    rewrite bpow_0. field_simplify; [| lra | lra].
    apply (Rmult_eq_reg_r (IZR (Z.pos my))); [| lra].
    field_simplify; [| lra | lra]. nra. }
  rewrite Hx.
  destruct (binary_round_aux_near q e1 (new_location (Z.pos my) r)
              ((IZR q + IZR r / IZR (Z.pos my)) * bpow e1)%R)
    as (m' & e' & Hr' & Hm' & He' & Hn); try lia.
  - apply new_location_located; lia.
  - exists m', e'. split; [exact Hr' |]. split; [exact Hm' |].
    split; [unfold e1 in He'; lia | exact Hn].
Qed.

(** *** Subtraction and multiplication *)

Lemma digits_le m k : 0 < m < 2 ^ k -> Zdigits2 m <= k.
Proof.
  intros Hm. pose proof (digits_bounds m ltac:(lia)) as Hdig.
  destruct (Z.le_gt_cases (Zdigits2 m) k) as [Hok | Hgt]; [exact Hok |].
  assert (2 ^ k <= 2 ^ (Zdigits2 m - 1)) by (apply Z.pow_le_mono_r; lia). lia.
Qed.

Lemma digits_ge m k : 0 <= k -> 2 ^ k <= m -> k + 1 <= Zdigits2 m.
Proof.
  intros Hk Hm. assert (Hpos : 0 < m) by (pose proof (Z.pow_pos_nonneg 2 k); lia).
  pose proof (digits_bounds m Hpos) as Hdig.
  destruct (Z.le_gt_cases (k + 1) (Zdigits2 m)) as [Hok | Hgt]; [exact Hok |].
  assert (2 ^ Zdigits2 m <= 2 ^ k) by (apply Z.pow_le_mono_r; lia). lia.
Qed.

Lemma F2R_minus a b e : F2R (a - b) e = (F2R a e - F2R b e)%R.
Proof. unfold F2R. rewrite minus_IZR. ring. Qed.

Lemma F2R_mult a ea b eb : F2R (a * b) (ea + eb) = (F2R a ea * F2R b eb)%R.
Proof. unfold F2R. rewrite mult_IZR, bpow_add. ring. Qed.

(** The difference of two normal floats, the larger first, is the normal
    float nearest to the difference of their values. *)
Lemma SFsub_near mx ex my ey :
  2 ^ 52 <= Z.pos mx < 2 ^ 53 -> 2 ^ 52 <= Z.pos my < 2 ^ 53 ->
  (F2R (Z.pos my) ey < F2R (Z.pos mx) ex)%R ->
  -1022 <= Z.min ex ey -> ex < 971 ->
  exists m' e',
    SFsub 53 1024 (S754_finite false mx ex) (S754_finite false my ey)
    = S754_finite false m' e'
    /\ 2 ^ 52 <= Z.pos m' < 2 ^ 53 /\ -1074 <= e' <= 971
    /\ nearest (F2R (Z.pos mx) ex - F2R (Z.pos my) ey) (F2R (Z.pos m') e').
Proof.
  intros Hmx Hmy Hlt Hlo Hhi.
  unfold SFsub. cbn [cond_Zopp]. set (ez := Z.min ex ey) in *.
  rewrite !shl_align_down by (unfold ez; lia). cbn [fst].
  assert (Hpx : 0 < 2 ^ (ex - ez)) by (apply Z.pow_pos_nonneg; unfold ez; lia).
  assert (Hpy : 0 < 2 ^ (ey - ez)) by (apply Z.pow_pos_nonneg; unfold ez; lia).
  rewrite !Z2Pos.id by nia.
  set (a := Z.pos mx * 2 ^ (ex - ez)). set (b := Z.pos my * 2 ^ (ey - ez)).
  assert (Ha : F2R a ez = F2R (Z.pos mx) ex).
  { unfold a. replace ez with (ex - (ex - ez)) at 2 by lia.
    apply F2R_shift. unfold ez. lia. }
  assert (Hb : F2R b ez = F2R (Z.pos my) ey).
  { unfold b. replace ez with (ey - (ey - ez)) at 2 by lia.
    apply F2R_shift. unfold ez. lia. }
  assert (Hab : b < a) by (apply (F2R_lt_inv _ _ ez); rewrite Ha, Hb; exact Hlt).
  assert (Hval : F2R (a - b) ez = (F2R (Z.pos mx) ex - F2R (Z.pos my) ey)%R)
    by (rewrite F2R_minus, Ha, Hb; reflexivity).
  assert (Hdig : Zdigits2 (a - b) <= 53 + (ex - ez)).
  { apply digits_le. split; [lia |].
    rewrite Z.pow_add_r by (unfold ez; lia). unfold a. nia. }
  assert (Hd1 : 1 <= Zdigits2 (a - b)).
  { pose proof (digits_pos (a - b) ltac:(lia)). lia. }
  destruct (a - b) as [| p | p] eqn:Hp; try lia.
  cbn [binary_normalize].
  destruct (binary_round_near p ez) as (m' & e' & Hr & Hm' & He' & Hn); [lia |].
  exists m', e'. rewrite <- Hval. repeat split; assumption || lia || apply Hn.
Qed.

(** The product of two normal floats is the normal float nearest to the
    product of their values. *)
Lemma SFmul_near mx ex my ey :
  2 ^ 52 <= Z.pos mx < 2 ^ 53 -> 2 ^ 52 <= Z.pos my < 2 ^ 53 ->
  -1126 <= ex + ey < 918 ->
  exists m' e',
    SFmul 53 1024 (S754_finite false mx ex) (S754_finite false my ey)
    = S754_finite false m' e'
    /\ 2 ^ 52 <= Z.pos m' < 2 ^ 53 /\ -1074 <= e' <= 971
    /\ nearest (F2R (Z.pos mx) ex * F2R (Z.pos my) ey) (F2R (Z.pos m') e').
Proof.
  intros Hmx Hmy He. unfold SFmul. cbn [xorb].
  rewrite Pos2Z.inj_mul.
  assert (Hprod : 2 ^ 104 <= Z.pos mx * Z.pos my < 2 ^ 106).
  { change (2 ^ 104) with (2 ^ 52 * 2 ^ 52).
    change (2 ^ 106) with (2 ^ 53 * 2 ^ 53). nia. }
  assert (Hdig : 105 <= Zdigits2 (Z.pos mx * Z.pos my) <= 106).
  { split; [apply (digits_ge _ 104); lia | apply digits_le; lia]. }
  destruct (binary_round_aux_near (Z.pos mx * Z.pos my) (ex + ey) loc_Exact
              (F2R (Z.pos mx) ex * F2R (Z.pos my) ey)%R)
    as (m' & e' & Hr & Hm' & He' & Hn); try lia.
  - unfold located. symmetry. apply F2R_mult.
  - exists m', e'. repeat split; assumption || lia || apply Hn.
Qed.

End Binary64Facts.

(** ** The methods of [TicketGenerator] *)

Module GeneratorFacts.
Import PIL PILFacts TicketGenerator.

Lemma extends_refl im : extends im im.
Proof. split; [reflexivity | exists []; reflexivity]. Qed.

Lemma extends_trans a b c : extends a b -> extends b c -> extends a c.
Proof.
  intros [Hs1 [l1 Hd1]] [Hs2 [l2 Hd2]]. split; [congruence |].
  exists (l1 ++ l2)%list. rewrite Hd1, Hd2, app_assoc. reflexivity.
Qed.

Lemma extends_cons a b call :
  shape a = shape b -> drawn a = call :: drawn b -> extends a b.
Proof. intros Hs Hd. split; [exact Hs | exists [call]; exact Hd]. Qed.

Lemma extends_same a b : shape a = shape b -> drawn a = drawn b -> extends a b.
Proof. intros Hs Hd. split; [exact Hs | exists []; exact Hd]. Qed.

Lemma extends_In a b call : extends a b -> In call (drawn b) -> In call (drawn a).
Proof. intros [_ [l ->]] Hin. apply in_or_app. right. exact Hin. Qed.

Create HintDb ticket.
#[local] Hint Resolve extends_refl extends_cons extends_same : ticket.

Section WithRaster.
Context `{Raster}.

Lemma draw_text_extends im xy text font fill :
  extends (draw_text im xy text font fill) im.
Proof.
  apply extends_cons with (call := CallText xy text font fill).
  - apply draw_text_shape.
  - apply draw_text_drawn.
Qed.

Lemma paste_extends dst src xy mask r :
  paste dst src xy mask = inr r -> extends r dst.
Proof. intros Hp. apply paste_inv in Hp as [Hs Hd]. auto with ticket. Qed.

Lemma draw_rectangle_extends im xy fill r :
  draw_rectangle im xy fill = inr r -> extends r im.
Proof. intros Hr. apply draw_rectangle_inv in Hr as [Hs Hd]. eauto with ticket. Qed.

Lemma draw_pieslice_extends im xy start stop fill r :
  draw_pieslice im xy start stop fill = inr r -> extends r im.
Proof. intros Hr. apply draw_pieslice_inv in Hr as [Hs Hd]. eauto with ticket. Qed.

(** The rounded rectangle is two rectangles and four quarter slices,
    in that order. *)
Lemma create_rounded_rectangle_drawn draw x1 y1 x2 y2 radius fill r :
  create_rounded_rectangle draw (x1, y1, x2, y2) radius fill = inr r ->
  shape r = shape draw
  /\ drawn r =
       CallPieslice (x2 - radius * 2, y2 - radius * 2, x2, y2) 0 90 fill
       :: CallPieslice (x1, y2 - radius * 2, x1 + radius * 2, y2) 90 180 fill
       :: CallPieslice (x2 - radius * 2, y1, x2, y1 + radius * 2) 270 360 fill
       :: CallPieslice (x1, y1, x1 + radius * 2, y1 + radius * 2) 180 270 fill
       :: CallRectangle (x1, y1 + radius, x2, y2 - radius) fill
       :: CallRectangle (x1 + radius, y1, x2 - radius, y2) fill
       :: drawn draw.
Proof.
  unfold create_rounded_rectangle. intros Hc. binds_inv Hc.
  apply draw_rectangle_inv in Hv as [Hs0 Hd0].
  apply draw_rectangle_inv in Hv0 as [Hs1 Hd1].
  apply draw_pieslice_inv in Hv1 as [Hs2 Hd2].
  apply draw_pieslice_inv in Hv2 as [Hs3 Hd3].
  apply draw_pieslice_inv in Hv3 as [Hs4 Hd4].
  apply draw_pieslice_inv in Hc as [Hs5 Hd5].
  split; [congruence |].
  rewrite Hd5, Hd4, Hd3, Hd2, Hd1, Hd0. reflexivity.
Qed.

Lemma create_rounded_rectangle_extends draw coords radius fill r :
  create_rounded_rectangle draw coords radius fill = inr r -> extends r draw.
Proof.
  destruct coords as [[[x1 y1] x2] y2]. intros Hc.
  apply create_rounded_rectangle_drawn in Hc as [Hs Hd].
  split; [exact Hs |]. rewrite Hd.
  eexists [_; _; _; _; _; _]. reflexivity.
Qed.

Lemma draw_icon_with_text_extends self ticket x y icon_type text r :
  draw_icon_with_text self ticket x y icon_type text = inr r -> extends r ticket.
Proof.
  unfold draw_icon_with_text. intros Hd. binds_inv Hd. injection Hd as <-.
  eapply extends_trans with (b := v0);
    [eapply extends_cons; reflexivity |].
  destruct (has_alpha_band (mode v)); eapply paste_extends; eassumption.
Qed.

Lemma details_loop_extends self rows : forall ticket y_pos r,
  details_loop self rows ticket y_pos = inr r -> extends r ticket.
Proof.
  induction rows as [| [[icon_type text] x_offset] rest IH];
    intros ticket y_pos r Hl; simpl in Hl.
  - injection Hl as <-. apply extends_refl.
  - destruct x_offset as [off |]; bind_inv Hl;
      (eapply extends_trans;
       [eapply IH; eassumption
       | eapply draw_icon_with_text_extends; eassumption]).
Qed.

Lemma add_gradient_inv self ticket r :
  add_gradient self ticket = inr r ->
  shape r = (RGBA, width ticket, height ticket) /\ drawn r = [].
Proof.
  unfold add_gradient. intros Ha. bind_inv Ha.
  apply alpha_composite_inv in Ha as (Hs & Hd & _). split; assumption.
Qed.

Lemma add_qr_code_extends self w ticket qr_data r :
  add_qr_code self w ticket qr_data = inr r -> extends r ticket.
Proof.
  unfold add_qr_code. intros Hq. binds_inv Hq.
  eapply paste_extends; eassumption.
Qed.

(** What a successful [generate_ticket] went through: the blank
    canvas, the fitted background, the gradient composite [shaded],
    and the canvas [labelled] once the first two text fields are on
    it; everything later only draws on that canvas. *)
Lemma generate_ticket_inv self w background_path ticket_data img :
  generate_ticket self w background_path ticket_data = inr img ->
  exists blank background shaded,
    new RGB (cfg_width (config self), cfg_height (config self)) (rgb 255 255 255)
      = inr blank
    /\ process_background self w background_path blank = inr background
    /\ shape shaded = (RGBA, cfg_width (config self), cfg_height (config self))
    /\ drawn shaded = []
    /\ extends img
         (draw_text
            (draw_text shaded (padding (config self), 20)
               ("N: " ++ str (ticket_number ticket_data)) (font_bold self)
               (rgb 0 0 0))
            (padding (config self), 70)
            (owner_label ++ owner ticket_data) (font_small self) (rgb 0 0 0)).
Proof.
  unfold generate_ticket. intros Hg.
  bind_inv Hg. rename v into blank, Hv into Hblank.
  bind_inv Hg. rename v into background, Hv into Hbg.
  bind_inv Hg. rename v into pasted, Hv into Hpaste.
  bind_inv Hg. rename v into shaded, Hv into Hshade.
  destruct (get_text_dimensions (title (event ticket_data)) (font_bold self))
    as [title_width title_height].
  destruct (get_text_dimensions (category (event ticket_data)) (font_small self))
    as [category_width category_height].
  bind_inv Hg. rename v into badge, Hv into Hbadge.
  bind_inv Hg. rename v into rows, Hv into Hrows.
  exists blank, background, shaded.
  apply add_gradient_inv in Hshade as [Hs Hd].
  apply paste_inv in Hpaste as [Hsp _].
  apply new_inv in Hblank as Hnew. destruct Hnew as (Hsb & _).
  split; [exact Hblank |]. split; [exact Hbg |].
  split; [unfold shape in *; congruence |]. split; [exact Hd |].
  eapply extends_trans; [eapply add_qr_code_extends; eassumption |].
  eapply extends_trans; [eapply details_loop_extends; eassumption |].
  eapply extends_trans; [apply draw_text_extends |].
  eapply extends_trans;
    [eapply create_rounded_rectangle_extends; eassumption |].
  eapply extends_trans; [apply draw_text_extends |].
  eapply extends_trans; [apply draw_text_extends |].
  apply extends_refl.
Qed.

(** The last step of [generate_ticket] is [add_qr_code], and what it
    returns is returned. *)
Lemma generate_ticket_ends self w background_path ticket_data img :
  generate_ticket self w background_path ticket_data = inr img ->
  exists rows,
    add_qr_code self w rows (qr_data ticket_data) = inr img
    /\ shape rows = (RGBA, cfg_width (config self), cfg_height (config self)).
Proof.
  intros Hg.
  pose proof (generate_ticket_inv _ _ _ _ _ Hg)
    as (blank & background & shaded & _ & _ & Hs & _ & [He _]).
  rewrite !draw_text_shape, Hs in He.
  unfold generate_ticket in Hg.
  bind_inv Hg. bind_inv Hg. bind_inv Hg. bind_inv Hg.
  destruct (get_text_dimensions (title (event ticket_data)) (font_bold self))
    as [title_width title_height].
  destruct (get_text_dimensions (category (event ticket_data)) (font_small self))
    as [category_width category_height].
  bind_inv Hg. bind_inv Hg.
  eexists. split; [exact Hg |].
  apply add_qr_code_extends in Hg as [Hsame _]. congruence.
Qed.

End WithRaster.
End GeneratorFacts.

(** ** Claims on [generate_ticket] *)

Module TicketClaims.
Import PIL PILFacts TicketGenerator GeneratorFacts Fixtures.

Lemma DrawCall_eqb_refl call : DrawCall_eqb call call = true.
Proof.
  assert (Hc : forall c, Color_eqb c c = true)
    by (intros c; unfold Color_eqb; rewrite !Z.eqb_refl; reflexivity).
  assert (Hb : forall b, Box_eqb b b = true)
    by (intros [[[b0 b1] b2] b3]; unfold Box_eqb; rewrite !Z.eqb_refl; reflexivity).
  assert (Hf : forall f, Font_eqb f f = true)
    by (intros [file points |]; simpl;
        [rewrite String.eqb_refl, Z.eqb_refl |]; reflexivity).
  destruct call as [[x y] text font fill | box fill | box fill | box s e fill];
    simpl; rewrite ?Z.eqb_refl, ?String.eqb_refl, ?Hc, ?Hb, ?Hf; reflexivity.
Qed.

(** A call that differs from every entry of a history is not in it. *)
Lemma not_drawn call calls :
  forallb (fun c => negb (DrawCall_eqb call c)) calls = true -> ~ In call calls.
Proof.
  intros Hall Hin. rewrite forallb_forall in Hall.
  specialize (Hall call Hin). rewrite DrawCall_eqb_refl in Hall. discriminate.
Qed.

Section WithRaster.
Context `{Raster}.

(** The image [generate_ticket] returns is the gradient composite with
    drawings on it: RGBA, and of the configured size. *)
Lemma generate_ticket_shape self w background_path ticket_data img :
  generate_ticket self w background_path ticket_data = inr img ->
  shape img = (RGBA, cfg_width (config self), cfg_height (config self)).
Proof.
  intros Hg. apply generate_ticket_inv in Hg
    as (blank & background & shaded & _ & _ & Hs & _ & [He _]).
  rewrite He, !draw_text_shape. exact Hs.
Qed.

(** C1: a successful call of [generate_ticket] returns an image whose
    dimensions are exactly the configured [(width, height)]. *)
Theorem generate_ticket_size self w background_path ticket_data img :
  generate_ticket self w background_path ticket_data = inr img ->
  size img = (cfg_width (config self), cfg_height (config self)).
Proof.
  intros Hg. apply generate_ticket_shape in Hg.
  unfold shape in Hg. unfold size. congruence.
Qed.

(** C10: the image [generate_ticket] returns is in RGBA mode, alpha
    band included; a caller that wants RGB gets it from [convert], the
    call the demonstration makes. *)
Theorem generate_ticket_mode self w background_path ticket_data img :
  generate_ticket self w background_path ticket_data = inr img ->
  mode img = RGBA /\ has_alpha_band (mode img) = true
  /\ mode (convert img RGB) = RGB.
Proof.
  intros Hg. apply generate_ticket_shape in Hg.
  unfold shape in Hg. injection Hg as -> _ _. repeat split.
Qed.

(** The demonstration shows an RGB image: the RGBA ticket, converted. *)
Lemma main_shows_RGB w shown :
  main w = inr shown ->
  mode shown = RGB
  /\ exists generator out ticket,
       init w default_config "icons" = inr (generator, out)
       /\ generate_ticket generator w "./Mage4.jpg" demo_ticket_data = inr ticket
       /\ mode ticket = RGBA /\ shown = convert ticket RGB.
Proof.
  unfold main. intros Hm. bind_inv Hm. destruct v as [generator out].
  bind_inv Hm. injection Hm as <-. split; [reflexivity |].
  exists generator, out, v. repeat split; try assumption.
  apply generate_ticket_shape in Hv0. unfold shape in Hv0. congruence.
Qed.

(** C8, as the code has it: the owner field is drawn as the label
    [owner_label] ("Proprietaire: " with an e-acute) followed by the
    owner's name, at the left margin [padding], 70 pixels from the top,
    in the small font and in black. *)
Theorem owner_field_drawn self w background_path ticket_data img :
  generate_ticket self w background_path ticket_data = inr img ->
  In (CallText (padding (config self), 70) (owner_label ++ owner ticket_data)
        (font_small self) (rgb 0 0 0))
     (drawn img).
Proof.
  intros Hg. apply generate_ticket_inv in Hg
    as (blank & background & shaded & _ & _ & _ & _ & Hext).
  eapply extends_In; [exact Hext |].
  rewrite draw_text_drawn. left. reflexivity.
Qed.

(** C4: when the background file cannot be opened, [generate_ticket]
    returns no image; the error the caller gets is the one [Image.open]
    raised, as soon as the blank canvas itself could be made. *)
Theorem missing_background_is_fatal self w background_path ticket_data :
  image_file w background_path = None ->
  is_ok (generate_ticket self w background_path ticket_data) = false
  /\ (is_ok (new RGB (cfg_width (config self), cfg_height (config self))
               (rgb 255 255 255)) = true ->
      generate_ticket self w background_path ticket_data
      = inl (OSError background_path)).
Proof.
  intros Hmiss.
  assert (Hbg : forall ticket,
             process_background self w background_path ticket
             = inl (OSError background_path)).
  { intros ticket. unfold process_background, open. rewrite Hmiss. reflexivity. }
  unfold generate_ticket.
  destruct (new RGB _ _) as [e | blank]; simpl.
  - split; [reflexivity | discriminate].
  - rewrite Hbg. simpl. split; reflexivity.
Qed.

End WithRaster.

(** *** Concrete runs *)

Lemma generate_ticket_size_witness :
  exists img,
    generate_ticket (generator_in (bare_world 1024 256) default_config)
      (bare_world 1024 256) "./Mage4.jpg" demo_ticket_data = inr img
    /\ size img = (1202, 450).
Proof.
  assert (Hok : is_ok (generate_ticket
                         (generator_in (bare_world 1024 256) default_config)
                         (bare_world 1024 256) "./Mage4.jpg" demo_ticket_data)
                = true) by (vm_compute; reflexivity).
  destruct (is_ok_inr _ Hok) as [img Himg].
  exists img. split; [exact Himg |].
  exact (generate_ticket_size _ _ _ _ _ Himg).
Defined.

Lemma generate_ticket_mode_witness :
  exists img,
    generate_ticket (generator_in (full_world 800 600) default_config)
      (full_world 800 600) "./Mage4.jpg" demo_ticket_data = inr img
    /\ mode img = RGBA.
Proof.
  assert (Hok : is_ok (generate_ticket
                         (generator_in (full_world 800 600) default_config)
                         (full_world 800 600) "./Mage4.jpg" demo_ticket_data)
                = true) by (vm_compute; reflexivity).
  destruct (is_ok_inr _ Hok) as [img Himg].
  exists img. split; [exact Himg |].
  exact (proj1 (generate_ticket_mode _ _ _ _ _ Himg)).
Defined.

Lemma owner_field_drawn_witness :
  exists img,
    generate_ticket (generator_in (bare_world 1024 256) default_config)
      (bare_world 1024 256) "./Mage4.jpg" demo_ticket_data = inr img
    /\ In (CallText (50, 70) (owner_label ++ "RANDRIAMANANTENA LUCA ZO HAINGO")
             DefaultFont (rgb 0 0 0))
          (drawn img).
Proof.
  assert (Hok : is_ok (generate_ticket
                         (generator_in (bare_world 1024 256) default_config)
                         (bare_world 1024 256) "./Mage4.jpg" demo_ticket_data)
                = true) by (vm_compute; reflexivity).
  destruct (is_ok_inr _ Hok) as [img Himg].
  exists img. split; [exact Himg |].
  exact (owner_field_drawn _ _ _ _ _ Himg).
Defined.

(** C8, as the claim words it, fails on the demonstration's own ticket:
    no text "Owner: ..." is drawn at (50, 70). *)
Lemma owner_field_not_in_english :
  exists img,
    generate_ticket (generator_in (bare_world 1024 256) default_config)
      (bare_world 1024 256) "./Mage4.jpg" demo_ticket_data = inr img
    /\ ~ In (CallText (50, 70) ("Owner: " ++ owner demo_ticket_data)
               DefaultFont (rgb 0 0 0))
            (drawn img).
Proof.
  set (call := CallText (50, 70) ("Owner: " ++ owner demo_ticket_data)
                 DefaultFont (rgb 0 0 0)).
  set (run := generate_ticket (generator_in (bare_world 1024 256) default_config)
                (bare_world 1024 256) "./Mage4.jpg" demo_ticket_data).
  assert (Hrun : match run with
                 | inr img =>
                     forallb (fun c => negb (DrawCall_eqb call c)) (drawn img)
                 | inl _ => false
                 end = true) by (vm_compute; reflexivity).
  destruct run as [e | img]; [discriminate |].
  exists img. split; [reflexivity |]. apply not_drawn. exact Hrun.
Qed.

Lemma missing_background_is_fatal_witness :
  generate_ticket (generator_in empty_world default_config) empty_world
    "./Mage4.jpg" demo_ticket_data
  = inl (OSError "./Mage4.jpg").
Proof.
  apply (missing_background_is_fatal
           (generator_in empty_world default_config) empty_world
           "./Mage4.jpg" demo_ticket_data).
  - reflexivity.
  - reflexivity.
Defined.

End TicketClaims.

(** ** Icon loading *)

Module IconClaims.
Import PIL PILFacts TicketGenerator GeneratorFacts Fixtures.

Section WithRaster.
Context `{Raster}.

Lemma load_icon_mode w cfg path icon :
  load_icon w cfg path = inr icon -> mode icon = RGBA.
Proof.
  unfold load_icon. intros Hl. bind_inv Hl.
  apply resize_inv in Hl as [Hs _]. unfold shape in Hs. simpl in Hs. congruence.
Qed.

Lemma icon_for_mode w cfg folder file : mode (icon_for w cfg folder file) = RGBA.
Proof.
  unfold icon_for.
  destruct (load_icon w cfg (path_join folder file)) eqn:Hl; [reflexivity |].
  eapply load_icon_mode; eassumption.
Qed.

(** No exception leaves the loop: every file ends up in the map, as
    itself or as the placeholder. *)
Lemma load_icons_loop_ok w cfg folder :
  0 <= icon_size cfg <= INT_MAX / 4 - 1 ->
  forall files icons out,
    load_icons_loop w cfg folder files (icons, out)
    = inr (fold_left
             (fun m '(name, file) => <[name := icon_for w cfg folder file]> m)
             files icons,
           (out ++ errors_for w cfg folder files)%list).
Proof.
  intros Hsize files.
  induction files as [| [name file] rest IH]; intros icons out.
  - simpl. rewrite app_nil_r. reflexivity.
  - unfold errors_for in *. cbn [load_icons_loop fold_left flat_map].
    pose proof (eq_refl (icon_for w cfg folder file)) as Hfor.
    unfold icon_for at 2 in Hfor.
    destruct (load_icon w cfg (path_join folder file)) as [e | icon] eqn:Hl.
    + rewrite new_ok by int_max_lia. cbn [bind]. rewrite IH, Hfor.
      rewrite <- app_assoc. reflexivity.
    + rewrite IH, Hfor. reflexivity.
Qed.

Lemma icons_lookup w cfg folder name file :
  In (name, file) icon_files ->
  (<["ticket" := icon_for w cfg folder "ticket.png"]>
     (<["map" := icon_for w cfg folder "map.png"]>
        (<["clock" := icon_for w cfg folder "clock.png"]>
           (<["calendar" := icon_for w cfg folder "calendar.png"]> ∅))) : gmap string Image)
    !! name
  = Some (icon_for w cfg folder file).
Proof.
  intros Hin. simpl in Hin.
  destruct Hin as [Heq | [Heq | [Heq | [Heq | []]]]]; injection Heq as <- <-.
  - rewrite !lookup_insert_ne by discriminate. apply lookup_insert_eq.
  - rewrite !lookup_insert_ne by discriminate. apply lookup_insert_eq.
  - rewrite lookup_insert_ne by discriminate. apply lookup_insert_eq.
  - apply lookup_insert_eq.
Qed.

Lemma errors_for_In w cfg folder files name file e :
  In (name, file) files ->
  load_icon w cfg (path_join folder file) = inl e ->
  In (ErrorLoadingIcon file e) (errors_for w cfg folder files).
Proof.
  intros Hin Hl. unfold errors_for. apply in_flat_map.
  exists (name, file). split; [exact Hin |]. rewrite Hl. left. reflexivity.
Qed.

(** What [setup_fonts] returns when it returns: the three faces when
    both files load, the default font otherwise. *)
Lemma setup_fonts_inv w cfg fonts :
  setup_fonts w cfg = inr fonts ->
  fonts = if font_file w "arial.ttf" && font_file w "arialbd.ttf"
          then (TrueType "arial.ttf" (font_large_size cfg),
                TrueType "arial.ttf" (font_small_size cfg),
                TrueType "arialbd.ttf" (font_large_size cfg))
          else (DefaultFont, DefaultFont, DefaultFont).
Proof.
  unfold setup_fonts, truetype. intros Hf.
  destruct (font_large_size cfg <=? 0); [discriminate |].
  destruct (font_file w "arial.ttf"); cbn [bind ok raise andb] in *;
    [| injection Hf as <-; reflexivity].
  destruct (font_small_size cfg <=? 0); [discriminate |].
  cbn [bind ok raise] in Hf.
  destruct (font_file w "arialbd.ttf"); cbn [bind ok raise] in Hf;
    injection Hf as <-; reflexivity.
Qed.

(** With sizes a font can have, [setup_fonts] raises nothing. *)
Lemma setup_fonts_ok w cfg :
  0 < font_large_size cfg -> 0 < font_small_size cfg ->
  exists fonts, setup_fonts w cfg = inr fonts.
Proof.
  intros Hl Hs. unfold setup_fonts, truetype.
  replace (font_large_size cfg <=? 0) with false by lia.
  replace (font_small_size cfg <=? 0) with false by lia.
  destruct (font_file w "arial.ttf"), (font_file w "arialbd.ttf");
    cbn [bind ok raise]; eexists; reflexivity.
Qed.

Lemma init_ok w cfg folder :
  0 <= icon_size cfg <= INT_MAX / 4 - 1 ->
  0 < font_large_size cfg -> 0 < font_small_size cfg ->
  exists g, init w cfg folder = inr (g, errors_for w cfg folder icon_files)
    /\ config g = cfg
    /\ setup_fonts w cfg = inr (font_large g, font_small g, font_bold g)
    /\ icons g =
         <["ticket" := icon_for w cfg folder "ticket.png"]>
           (<["map" := icon_for w cfg folder "map.png"]>
              (<["clock" := icon_for w cfg folder "clock.png"]>
                 (<["calendar" := icon_for w cfg folder "calendar.png"]> ∅))).
Proof.
  intros Hsize Hl Hs. unfold init, load_icons.
  destruct (setup_fonts_ok w cfg Hl Hs) as ([[large small] bold] & ->).
  rewrite (load_icons_loop_ok w cfg folder Hsize). simpl.
  eexists. repeat split.
Qed.

Lemma init_inv w cfg folder g out :
  init w cfg folder = inr (g, out) ->
  config g = cfg
  /\ setup_fonts w cfg = inr (font_large g, font_small g, font_bold g)
  /\ forall name file, In (name, file) icon_files ->
       exists icon, icons g !! name = Some icon /\ mode icon = RGBA.
Proof.
  unfold init, load_icons. intros Hi.
  destruct (setup_fonts w cfg) as [e | [[large small] bold]]; [discriminate |].
  cbn [bind] in Hi.
  bind_inv Hi. destruct v as [stored printed]. injection Hi as <- <-. simpl.
  split; [reflexivity |]. split; [reflexivity |].
  assert (Hgen : forall files icons0 out0 icons1 out1,
             load_icons_loop w cfg folder files (icons0, out0) = inr (icons1, out1) ->
             forall name,
               (exists file, In (name, file) files)
               \/ (exists icon, icons0 !! name = Some icon /\ mode icon = RGBA) ->
               exists icon, icons1 !! name = Some icon /\ mode icon = RGBA).
  { clear. induction files as [| [n f] rest IH];
      intros icons0 out0 icons1 out1 Hl name Hname; simpl in Hl.
    - injection Hl as <- <-. destruct Hname as [[file []] | Hin]. exact Hin.
    - assert (Hstep : forall icon out',
                 mode icon = RGBA ->
                 load_icons_loop w cfg folder rest (<[n := icon]> icons0, out')
                 = inr (icons1, out1) ->
                 exists icon', icons1 !! name = Some icon' /\ mode icon' = RGBA).
      { intros icon out' Hmode Hrest. eapply IH; [exact Hrest |].
        destruct (decide (n = name)) as [-> | Hne].
        - right. exists icon. rewrite lookup_insert_eq. split; [reflexivity | exact Hmode].
        - destruct Hname as [[file [Heq | Hin]] | (icon0 & Hlook & Hm)].
          + congruence.
          + left. exists file. exact Hin.
          + right. exists icon0. rewrite lookup_insert_ne by exact Hne.
            split; assumption. }
      destruct (load_icon w cfg (path_join folder f)) as [e | icon] eqn:Hload.
      + bind_inv Hl. apply new_inv in Hv as (Hs & _).
        unfold shape in Hs. eapply Hstep; [| exact Hl]. congruence.
      + eapply Hstep; [| exact Hl]. eapply load_icon_mode; eassumption. }
  intros name file Hin. eapply Hgen; [exact Hv |]. left. exists file. exact Hin.
Qed.

(** An icon row cannot fail once its icon is in the map and carries an
    alpha band. *)
Lemma draw_icon_with_text_ok self ticket x y icon_type text icon :
  icons self !! icon_type = Some icon -> mode icon = RGBA ->
  exists r, draw_icon_with_text self ticket x y icon_type text = inr r
            /\ shape r = shape ticket.
Proof.
  intros Hlook Hmode.
  destruct (is_ok_inr (paste ticket icon (x, y) (Some icon))) as [pasted Hp].
  { apply paste_self_mask_ok. rewrite Hmode. reflexivity. }
  unfold draw_icon_with_text. rewrite Hlook. cbn [bind ok].
  replace (has_alpha_band (mode icon)) with true by (rewrite Hmode; reflexivity).
  rewrite Hp. cbn [bind]. eexists. split; [reflexivity |].
  apply paste_inv in Hp as [Hs _]. rewrite draw_text_shape. exact Hs.
Qed.

Lemma details_loop_ok self ticket_data ticket y_pos :
  icons_complete self ->
  is_ok (details_loop self (details ticket_data) ticket y_pos) = true.
Proof.
  intros Hall. unfold details. simpl.
  destruct (Hall "calendar" "calendar.png") as (i1 & Hl1 & Hm1);
    [simpl; tauto |].
  destruct (Hall "clock" "clock.png") as (i2 & Hl2 & Hm2); [simpl; tauto |].
  destruct (Hall "map" "map.png") as (i3 & Hl3 & Hm3); [simpl; tauto |].
  destruct (Hall "ticket" "ticket.png") as (i4 & Hl4 & Hm4); [simpl; tauto |].
  edestruct (draw_icon_with_text_ok self ticket) as (r1 & -> & _);
    [exact Hl1 | exact Hm1 |]. simpl.
  edestruct (draw_icon_with_text_ok self r1) as (r2 & -> & _);
    [exact Hl2 | exact Hm2 |]. simpl.
  edestruct (draw_icon_with_text_ok self r2) as (r3 & -> & _);
    [exact Hl3 | exact Hm3 |]. simpl.
  edestruct (draw_icon_with_text_ok self r3) as (r4 & -> & _);
    [exact Hl4 | exact Hm4 |]. reflexivity.
Qed.

(** Whether [add_qr_code] succeeds does not depend on the canvas nor on
    the generator. *)
Lemma add_qr_code_ok_indep self1 self2 w ticket1 ticket2 qr_data :
  is_ok (add_qr_code self1 w ticket1 qr_data)
  = is_ok (add_qr_code self2 w ticket2 qr_data).
Proof.
  unfold add_qr_code.
  destruct (QR.make_image 2 8 2 qr_data) as [e | qr_image]; [reflexivity |]. cbn [bind is_ok].
  destruct (resize (convert qr_image RGB) (320, 320) BICUBIC) as [e | qr_code];
    [reflexivity |]. cbn [bind is_ok].
  destruct (open w "./EVNTia.png") as [e | logo]; [reflexivity |]. cbn [bind is_ok].
  destruct (resize logo (80, 40) BICUBIC) as [e | small]; [reflexivity |]. cbn [bind is_ok].
  destruct (paste qr_code small _ (Some small)) as [e | stamped];
    [reflexivity |]. cbn [bind is_ok].
  rewrite !paste_unmasked_ok. reflexivity.
Qed.

(** Two generators with the same configuration and fonts, each with a
    complete icon map, succeed on the same renders. *)
Lemma generate_ticket_ok_indep self1 self2 w background_path ticket_data :
  config self1 = config self2 ->
  font_large self1 = font_large self2 ->
  font_small self1 = font_small self2 ->
  font_bold self1 = font_bold self2 ->
  icons_complete self1 -> icons_complete self2 ->
  is_ok (generate_ticket self1 w background_path ticket_data)
  = is_ok (generate_ticket self2 w background_path ticket_data).
Proof.
  intros Hc Hfl Hfs Hfb Hi1 Hi2.
  assert (Hbg : forall ticket,
             process_background self1 w background_path ticket
             = process_background self2 w background_path ticket)
    by (intros ticket; unfold process_background; rewrite Hc; reflexivity).
  assert (Hgrad : forall ticket, add_gradient self1 ticket = add_gradient self2 ticket)
    by (intros ticket; unfold add_gradient; rewrite Hc; reflexivity).
  unfold generate_ticket. rewrite Hc, Hfl, Hfs, Hfb.
  destruct (new RGB _ _) as [e | blank]; [reflexivity |]. cbn [bind is_ok].
  rewrite Hbg.
  destruct (process_background self2 w background_path blank) as [e | background];
    [reflexivity |]. cbn [bind is_ok].
  destruct (paste blank background (0, 0) None) as [e | pasted]; [reflexivity |].
  cbn [bind is_ok]. rewrite Hgrad.
  destruct (add_gradient self2 pasted) as [e | shaded]; [reflexivity |].
  cbn [bind is_ok].
  destruct (get_text_dimensions (title (event ticket_data)) (font_bold self2))
    as [title_width title_height].
  destruct (get_text_dimensions (category (event ticket_data)) (font_small self2))
    as [category_width category_height].
  match goal with |- context [bind ?r _] => destruct r as [e | badge] end;
    [reflexivity |]. cbn [bind is_ok].
  match goal with
  | |- is_ok (bind (details_loop self1 ?rows ?c ?y) _) = _ =>
      destruct (is_ok_inr _ (details_loop_ok self1 ticket_data c y Hi1)) as [t1 Ht1];
      destruct (is_ok_inr _ (details_loop_ok self2 ticket_data c y Hi2)) as [t2 Ht2]
  end.
  rewrite Ht1, Ht2. cbn [bind].
  apply add_qr_code_ok_indep.
Qed.

(** A file that opens is converted and resized, for an icon size of
    at least 1 that the resampler takes. *)
Lemma load_icon_present w cfg path im :
  image_file w path = Some im ->
  1 <= icon_size cfg <= 38347922 ->
  load_icon w cfg path
  = inr (mkImage RGBA (icon_size cfg) (icon_size cfg)
           (if (icon_size cfg =? width im) && (icon_size cfg =? height im)
            then convert_pixels (mode im) RGBA (px im)
            else resample LANCZOS RGBA (width im, height im)
                   (convert_pixels (mode im) RGBA (px im))
                   (icon_size cfg, icon_size cfg))
           []).
Proof.
  intros Hfile Hsize. unfold load_icon, open. rewrite Hfile.
  cbn [bind ok]. unfold resize, convert. cbn [mode width height px size].
  destruct ((icon_size cfg =? width im) && (icon_size cfg =? height im)) eqn:Hsame.
  - reflexivity.
  - replace (negb (c_int (icon_size cfg) && c_int (icon_size cfg))) with false
      by (unfold c_int; change INT_MAX with 2147483647; lia).
    replace ((icon_size cfg <? 1) || (icon_size cfg <? 1)) with false by lia.
    rewrite (resize_accepted RGBA LANCZOS) by lia.
    reflexivity.
Qed.

Lemma load_icon_missing w cfg path :
  image_file w path = None -> load_icon w cfg path = inl (OSError path).
Proof. intros Hfile. unfold load_icon, open. rewrite Hfile. reflexivity. Qed.

(** C5: with an icon size from 0 to 4096 and font sizes a font can
    have, construction raises nothing whatever icon files are missing;
    each of the four icons is settled on its own: one whose file
    cannot be opened is replaced by a fully transparent image of the
    configured icon size, and reported, and one whose file opens (as
    an image of at most 65535 pixels a side) is that file, converted
    to RGBA and resized, whatever happened to the others; renders with the resulting generator return images
    of the configured size, and succeed exactly when they would with
    a generator built where other icon files were available. *)
Theorem icons_degrade_gracefully w cfg folder :
  0 <= icon_size cfg <= 4096 ->
  0 < font_large_size cfg -> 0 < font_small_size cfg ->
  exists g out,
    init w cfg folder = inr (g, out)
    /\ (forall name file, In (name, file) icon_files ->
          match image_file w (path_join folder file) with
          | None =>
              icons g !! name = Some (transparent (icon_size cfg))
              /\ In (ErrorLoadingIcon file (OSError (path_join folder file))) out
          | Some im =>
              1 <= icon_size cfg ->
              1 <= width im <= 65535 -> 1 <= height im <= 65535 ->
              icons g !! name
              = Some (mkImage RGBA (icon_size cfg) (icon_size cfg)
                        (if (icon_size cfg =? width im)
                            && (icon_size cfg =? height im)
                         then convert_pixels (mode im) RGBA (px im)
                         else resample LANCZOS RGBA (width im, height im)
                                (convert_pixels (mode im) RGBA (px im))
                                (icon_size cfg, icon_size cfg))
                        [])
          end)
    /\ (forall w' background_path ticket_data img,
          generate_ticket g w' background_path ticket_data = inr img ->
          size img = (cfg_width cfg, cfg_height cfg))
    /\ (forall w0 g0 out0 w' background_path ticket_data,
          init w0 cfg folder = inr (g0, out0) ->
          setup_fonts w0 cfg = setup_fonts w cfg ->
          is_ok (generate_ticket g w' background_path ticket_data)
          = is_ok (generate_ticket g0 w' background_path ticket_data)).
Proof.
  intros Hsize Hfl Hfs.
  destruct (init_ok w cfg folder ltac:(int_max_lia) Hfl Hfs)
    as (g & Hinit & Hcfg & Hfonts & Hicons).
  exists g, (errors_for w cfg folder icon_files).
  split; [exact Hinit |]. split; [| split].
  - intros name file Hin.
    pose proof (icons_lookup w cfg folder name file Hin) as Hlook.
    rewrite <- Hicons in Hlook. unfold icon_for in Hlook.
    destruct (image_file w (path_join folder file)) as [im |] eqn:Hfile.
    + intros Hone _ _.
      rewrite (load_icon_present w cfg _ im Hfile ltac:(lia)) in Hlook.
      exact Hlook.
    + pose proof (load_icon_missing w cfg _ Hfile) as Hl.
      rewrite Hl in Hlook. split; [exact Hlook |].
      eapply errors_for_In; eassumption.
  - intros w' background_path ticket_data img Hg.
    apply TicketClaims.generate_ticket_shape in Hg. unfold shape in Hg.
    unfold size. congruence.
  - intros w0 g0 out0 w' background_path ticket_data Hinit0 Hf0.
    apply init_inv in Hinit as (_ & _ & Hall).
    apply init_inv in Hinit0 as (Hcfg0 & Hfonts0 & Hall0).
    rewrite Hf0, Hfonts in Hfonts0. injection Hfonts0 as Hfl' Hfs' Hfb'.
    apply generate_ticket_ok_indep; congruence || assumption.
Qed.

End WithRaster.

Lemma icons_degrade_gracefully_witness :
  exists g out calendar,
    init (calendar_world 1024 256) default_config "icons" = inr (g, out)
    /\ icons g !! "calendar" = Some calendar
    /\ shape calendar = (RGBA, 24, 24)
    /\ px calendar 0 0 = rgb 0 0 0
    /\ icons g !! "clock" = Some (transparent 24)
    /\ In (ErrorLoadingIcon "clock.png" (OSError "icons/clock.png")) out
    /\ is_ok (generate_ticket g (calendar_world 1024 256) "./Mage4.jpg"
                demo_ticket_data)
       = true.
Proof.
  destruct (icons_degrade_gracefully (calendar_world 1024 256) default_config "icons")
    as (g & out & Hinit & Hicons & _ & Hsame);
    [simpl; lia | simpl; lia | simpl; lia |].
  exists g, out.
  pose proof (Hicons "calendar" "calendar.png") as Hcal.
  pose proof (Hicons "clock" "clock.png") as Hclock.
  simpl in Hcal, Hclock.
  specialize (Hcal ltac:(tauto) ltac:(lia) ltac:(simpl; lia) ltac:(simpl; lia)).
  destruct Hclock as [Hlook Hout]; [tauto |].
  eexists. split; [exact Hinit |]. split; [exact Hcal |].
  split; [reflexivity |]. split; [reflexivity |].
  split; [exact Hlook |]. split; [exact Hout |].
  rewrite (Hsame (with_icons (bare_world 1024 256))
             (generator_in (with_icons (bare_world 1024 256)) default_config)
             [] (calendar_world 1024 256) "./Mage4.jpg" demo_ticket_data).
  - vm_compute. reflexivity.
  - vm_compute. reflexivity.
  - vm_compute. reflexivity.
Defined.

End IconClaims.

(** ** The size of the QR symbol *)

Module QRFacts.
Import QR.

Lemma len_nonneg {A} (l : list A) : 0 <= len l.
Proof. unfold len. lia. Qed.

Lemma add_data_nonneg data : lengths_nonneg (add_data data).
Proof.
  unfold add_data, optimal_data_chunks, lengths_nonneg.
  apply List.Forall_forall. intros [m n] Hin.
  apply in_flat_map in Hin as ([is_num chunk] & _ & Hin).
  destruct is_num.
  - destruct Hin as [Heq | []]. injection Heq as <- <-. apply len_nonneg.
  - apply in_map_iff in Hin as ([is_alpha sub_chunk] & Heq & _).
    injection Heq as <- <-. apply len_nonneg.
Qed.

Lemma data_bits_nonneg m n : 0 <= n -> 0 <= data_bits m n.
Proof.
  intros Hn. destruct m; simpl.
  - pose proof (Z.div_pos n 3 Hn ltac:(lia)).
    destruct (n mod 3 =? 0); [lia |]. destruct (n mod 3 =? 1); lia.
  - pose proof (Z.div_pos n 2 Hn ltac:(lia)).
    pose proof (Z.mod_pos_bound n 2 ltac:(lia)). lia.
  - lia.
Qed.

Lemma length_bits_bounds v m :
  8 <= length_bits v m <= length_bits 40 m /\ length_bits 40 m <= length_bits v m + 8.
Proof.
  unfold length_bits. simpl.
  destruct (v <? 10); [destruct m; lia |].
  destruct (v <? 27); destruct m; lia.
Qed.

Lemma length_bits_large v m : 27 <= v -> length_bits v m = length_bits 40 m.
Proof.
  intros Hv. unfold length_bits.
  replace (v <? 10) with false by lia. replace (v <? 27) with false by lia.
  reflexivity.
Qed.

(** The bit count, with the accumulator of the loop made explicit. *)
Lemma needed_bits_from v data_list : forall acc,
  fold_left (fun acc '(m, n) => acc + 4 + length_bits v m + data_bits m n)
    data_list acc
  = acc + needed_bits v data_list.
Proof.
  unfold needed_bits.
  induction data_list as [| [m n] rest IH]; intros acc; simpl.
  - lia.
  - rewrite IH, (IH (4 + _ + _)). lia.
Qed.

Lemma needed_bits_cons v m n rest :
  needed_bits v ((m, n) :: rest)
  = 4 + length_bits v m + data_bits m n + needed_bits v rest.
Proof.
  unfold needed_bits at 1. simpl. rewrite needed_bits_from. lia.
Qed.

(** Wider length fields cost at most 8 more bits per segment, and a
    segment takes at least 12 bits. *)
Lemma needed_bits_bounds v data_list :
  lengths_nonneg data_list ->
  0 <= needed_bits v data_list <= needed_bits 40 data_list
  /\ 3 * needed_bits 40 data_list <= 5 * needed_bits v data_list.
Proof.
  induction 1 as [| [m n] rest Hn _ IH].
  - unfold needed_bits. simpl. lia.
  - rewrite !needed_bits_cons. simpl in Hn.
    pose proof (length_bits_bounds v m). pose proof (data_bits_nonneg m n Hn). lia.
Qed.

Lemma needed_bits_large v data_list :
  27 <= v -> needed_bits v data_list = needed_bits 40 data_list.
Proof.
  intros Hv. induction data_list as [| [m n] rest IH].
  - reflexivity.
  - rewrite !needed_bits_cons, IH, (length_bits_large v m Hv). reflexivity.
Qed.

(** *** [bisect_left] *)

Lemma bisect_from_range a x : forall i,
  i <= bisect_from a x i <= i + len a.
Proof.
  induction a as [| y rest IH]; intros i; simpl.
  - unfold len. simpl. lia.
  - unfold len in *. simpl length. destruct (x <=? y).
    + lia.
    + specialize (IH (i + 1)). lia.
Qed.

Lemma bisect_from_found a x : forall i,
  bisect_from a x i < i + len a ->
  x <= nth (Z.to_nat (bisect_from a x i - i)) a 0.
Proof.
  induction a as [| y rest IH]; intros i; simpl.
  - unfold len. simpl. lia.
  - unfold len in *. simpl length. destruct (Z.leb_spec x y) as [Hle | Hgt].
    + rewrite Z.sub_diag. simpl. lia.
    + intros Hlt. pose proof (bisect_from_range rest x (i + 1)) as Hr.
      specialize (IH (i + 1)).
      replace (Z.to_nat (bisect_from rest x (i + 1) - i))
        with (S (Z.to_nat (bisect_from rest x (i + 1) - (i + 1)))) by lia.
      simpl. apply IH. lia.
Qed.

Lemma bisect_from_all_less a x : forall i,
  Forall (fun y => y < x) a -> bisect_from a x i = i + len a.
Proof.
  induction a as [| y rest IH]; intros i Hall; simpl.
  - unfold len. simpl. lia.
  - apply List.Forall_cons_iff in Hall as [Hy Hrest].
    replace (x <=? y) with false by lia.
    rewrite IH by exact Hrest. unfold len. simpl length. lia.
Qed.

Lemma bisect_from_some_fits a x : forall i,
  Exists (fun y => x <= y) a -> bisect_from a x i < i + len a.
Proof.
  induction a as [| y rest IH]; intros i Hex; simpl.
  - inversion Hex.
  - unfold len in *. simpl length. destruct (Z.leb_spec x y) as [Hle | Hgt].
    + lia.
    + apply List.Exists_cons in Hex as [Hy | Hrest]; [lia |].
      specialize (IH (i + 1) Hrest). lia.
Qed.

(** Every entry before the one found is too small. *)
Lemma bisect_from_before a x : forall i j,
  (j < Z.to_nat (bisect_from a x i - i))%nat -> nth j a 0 < x.
Proof.
  induction a as [| y rest IH]; intros i j; simpl.
  - rewrite Z.sub_diag. simpl. lia.
  - destruct (Z.leb_spec x y) as [Hle | Hgt].
    + rewrite Z.sub_diag. simpl. lia.
    + intros Hj. destruct j as [| j]; [exact Hgt |].
      apply (IH (i + 1)).
      pose proof (bisect_from_range rest x (i + 1)). lia.
Qed.

Lemma table_length : len BIT_LIMIT_TABLE_H = 41.
Proof. reflexivity. Qed.

Lemma table_max : Forall (fun y => y <= capacity_H 40) BIT_LIMIT_TABLE_H.
Proof. unfold capacity_H. simpl. repeat constructor; lia. Qed.

Lemma skipn_table_length lo :
  0 <= lo <= 41 -> len (skipn (Z.to_nat lo) BIT_LIMIT_TABLE_H) = 41 - lo.
Proof.
  intros Hlo. unfold len. rewrite List.length_skipn.
  change (List.length BIT_LIMIT_TABLE_H) with 41%nat. lia.
Qed.

(** The version found lies between [lo] and 41, and below 41 it has
    room for [x] bits. *)
Lemma bisect_left_spec x lo :
  0 <= lo <= 41 ->
  lo <= bisect_left BIT_LIMIT_TABLE_H x lo <= 41
  /\ (bisect_left BIT_LIMIT_TABLE_H x lo < 41 ->
      x <= capacity_H (bisect_left BIT_LIMIT_TABLE_H x lo)).
Proof.
  intros Hlo. unfold bisect_left.
  pose proof (bisect_from_range (skipn (Z.to_nat lo) BIT_LIMIT_TABLE_H) x lo) as Hr.
  rewrite skipn_table_length in Hr by exact Hlo.
  split; [lia |]. intros Hlt.
  pose proof (bisect_from_found (skipn (Z.to_nat lo) BIT_LIMIT_TABLE_H) x lo) as Hf.
  rewrite skipn_table_length in Hf by exact Hlo.
  specialize (Hf ltac:(lia)).
  rewrite nth_skipn in Hf. unfold capacity_H.
  replace (Z.to_nat (bisect_from (skipn (Z.to_nat lo) BIT_LIMIT_TABLE_H) x lo))
    with (Z.to_nat lo + Z.to_nat (bisect_from (skipn (Z.to_nat lo) BIT_LIMIT_TABLE_H) x lo - lo))%nat
    by lia.
  exact Hf.
Qed.

Lemma bisect_left_before x lo u :
  0 <= lo -> lo <= u < bisect_left BIT_LIMIT_TABLE_H x lo -> capacity_H u < x.
Proof.
  intros Hlo Hu. unfold bisect_left in Hu. unfold capacity_H.
  pose proof (bisect_from_before (skipn (Z.to_nat lo) BIT_LIMIT_TABLE_H) x lo
                (Z.to_nat (u - lo)) ltac:(lia)) as Hb.
  rewrite nth_skipn in Hb.
  replace (Z.to_nat lo + Z.to_nat (u - lo))%nat with (Z.to_nat u) in Hb by lia.
  exact Hb.
Qed.

Lemma bisect_left_overflow x lo :
  0 <= lo <= 41 -> capacity_H 40 < x -> bisect_left BIT_LIMIT_TABLE_H x lo = 41.
Proof.
  intros Hlo Hx. unfold bisect_left.
  rewrite bisect_from_all_less.
  - rewrite skipn_table_length by exact Hlo. lia.
  - apply List.Forall_forall. intros y Hin.
    assert (Hin' : In y BIT_LIMIT_TABLE_H)
      by (rewrite <- (firstn_skipn (Z.to_nat lo) BIT_LIMIT_TABLE_H);
          apply in_or_app; right; exact Hin).
    clear Hin. rename Hin' into Hin.
    pose proof table_max as Hmax. rewrite List.Forall_forall in Hmax.
    specialize (Hmax y Hin). lia.
Qed.

Lemma bisect_left_fits x lo :
  0 <= lo <= 40 -> x <= capacity_H 40 -> bisect_left BIT_LIMIT_TABLE_H x lo < 41.
Proof.
  intros Hlo Hx. unfold bisect_left.
  pose proof (bisect_from_some_fits (skipn (Z.to_nat lo) BIT_LIMIT_TABLE_H) x lo) as Hf.
  rewrite skipn_table_length in Hf by lia.
  replace 41 with (lo + (41 - lo)) by lia. apply Hf.
  apply List.Exists_exists. exists (capacity_H 40). split; [| exact Hx].
  unfold capacity_H.
  replace 40%nat with (Z.to_nat lo + (40 - Z.to_nat lo))%nat by lia.
  rewrite Z2Nat.inj_pos. replace (Pos.to_nat 40) with (Z.to_nat lo + (40 - Z.to_nat lo))%nat by lia.
  rewrite <- nth_skipn. apply nth_In.
  rewrite List.length_skipn. change (List.length BIT_LIMIT_TABLE_H) with 41%nat. lia.
Qed.

(** the three classes of versions that share their length fields *)
Lemma same_mode_sizes_spec v1 v2 :
  same_mode_sizes v1 v2 = true <->
  ((v1 < 10 <-> v2 < 10) /\ (v1 < 27 <-> v2 < 27)).
Proof.
  unfold same_mode_sizes, length_bits. simpl.
  destruct (Z.ltb_spec v1 10); destruct (Z.ltb_spec v1 27);
    destruct (Z.ltb_spec v2 10); destruct (Z.ltb_spec v2 27);
    simpl; split; intros; try discriminate; try reflexivity; lia.
Qed.

Lemma check_version_ok version :
  1 <= version <= 40 -> check_version version = inr tt.
Proof.
  intros Hv. unfold check_version.
  replace ((version <? 1) || (40 <? version)) with false by lia. reflexivity.
Qed.

Lemma check_version_41 : check_version 41 = inl invalid_version_41.
Proof. reflexivity. Qed.

(** Wider length fields never need fewer bits. *)
Lemma length_bits_mono u v m : u <= v -> length_bits u m <= length_bits v m.
Proof.
  intros Hle. unfold length_bits.
  destruct (Z.ltb_spec u 10), (Z.ltb_spec u 27), (Z.ltb_spec v 10),
    (Z.ltb_spec v 27); destruct m; lia.
Qed.

Lemma needed_bits_mono u v data_list :
  u <= v -> needed_bits u data_list <= needed_bits v data_list.
Proof.
  intros Hle. induction data_list as [| [m n] rest IH].
  - reflexivity.
  - rewrite !needed_bits_cons. pose proof (length_bits_mono u v m Hle). lia.
Qed.

(** A payload too long for version 40 is refused, wherever the search
    starts: the version found is 41, and assigning it to
    [self.version] raises before the comparison with 41 is reached. *)
Lemma best_fit_overflow depth data_list start :
  lengths_nonneg data_list -> 1 <= start <= 9 ->
  capacity_H 40 < needed_bits 40 data_list ->
  best_fit (S depth) data_list start = inl invalid_version_41.
Proof.
  intros Hnn Hstart Hbig.
  pose proof (needed_bits_bounds start data_list Hnn) as [_ Hfrac].
  change (capacity_H 40) with 10208 in Hbig.
  cbn [best_fit]. rewrite check_version_ok by lia. cbn [bind].
  pose proof (bisect_left_spec (needed_bits start data_list) start ltac:(lia))
    as [Hrange Hroom].
  set (version := bisect_left BIT_LIMIT_TABLE_H (needed_bits start data_list) start) in *.
  destruct (Z.eqb_spec version 41) as [Heq | Hne];
    [rewrite Heq, check_version_41; reflexivity |].
  rewrite check_version_ok by lia. cbn [bind].
  replace (version =? 41) with false by lia.
  specialize (Hroom ltac:(lia)).
  assert (Hlarge : 27 <= version).
  { destruct (Z.le_gt_cases 27 version) as [Hle | Hgt]; [exact Hle | exfalso].
    assert (Hcap : capacity_H version <= 4768).
    { unfold capacity_H.
      assert (Hv : (Z.to_nat version < 27)%nat) by lia.
      revert Hv. generalize (Z.to_nat version). intros n Hn.
      do 27 (destruct n as [| n]; [simpl; lia |]). lia. }
    lia. }
  destruct (same_mode_sizes start version) eqn:Hsame.
  - apply same_mode_sizes_spec in Hsame. lia.
  - destruct depth as [| depth]; cbn [best_fit];
      rewrite check_version_ok by lia; cbn [bind];
      rewrite (needed_bits_large version) by exact Hlarge;
      rewrite bisect_left_overflow by (change (capacity_H 40) with 10208; lia);
      reflexivity.
Qed.

(** A payload that version 40 can hold gets the smallest version from
    2 on that holds it. *)
Lemma best_fit_ok data_list :
  lengths_nonneg data_list ->
  needed_bits 40 data_list <= capacity_H 40 ->
  exists version,
    best_fit 3 data_list 2 = inr version
    /\ 2 <= version <= 40
    /\ needed_bits version data_list <= capacity_H version
    /\ forall u, 2 <= u < version -> capacity_H u < needed_bits u data_list.
Proof.
  intros Hnn Hfit.
  assert (Hstep : forall start,
             2 <= start <= 40 ->
             let version :=
               bisect_left BIT_LIMIT_TABLE_H (needed_bits start data_list) start in
             start <= version <= 40
             /\ needed_bits start data_list <= capacity_H version
             /\ forall u, start <= u < version ->
                  capacity_H u < needed_bits u data_list).
  { intros start Hstart version.
    pose proof (needed_bits_bounds start data_list Hnn) as [Hle _].
    pose proof (bisect_left_spec (needed_bits start data_list) start ltac:(lia))
      as [Hrange Hroom].
    pose proof (bisect_left_fits (needed_bits start data_list) start ltac:(lia)
                  ltac:(lia)) as Hlt.
    fold version in Hrange, Hroom, Hlt.
    split; [lia |]. split; [apply Hroom; exact Hlt |].
    intros u Hu.
    pose proof (bisect_left_before (needed_bits start data_list) start u
                  ltac:(lia) Hu) as Hb.
    pose proof (needed_bits_mono start u data_list ltac:(lia)). lia. }
  assert (Hsame : forall start version,
             same_mode_sizes start version = true ->
             needed_bits version data_list = needed_bits start data_list).
  { intros start version Hs. clear -Hs.
    assert (Hlen : forall m, length_bits version m = length_bits start m).
    { intros m. unfold same_mode_sizes in Hs. simpl in Hs.
      destruct m; lia. }
    induction data_list as [| [m n] rest IH]; [reflexivity |].
    rewrite !needed_bits_cons, IH, Hlen. reflexivity. }
  cbn [best_fit]. rewrite check_version_ok by lia. cbn [bind].
  destruct (Hstep 2 ltac:(lia)) as (Hr1 & Hc1 & Hm1).
  set (v1 := bisect_left BIT_LIMIT_TABLE_H (needed_bits 2 data_list) 2) in *.
  rewrite (check_version_ok v1) by lia. cbn [bind].
  replace (v1 =? 41) with false by lia.
  destruct (same_mode_sizes 2 v1) eqn:Hs1.
  { exists v1. rewrite (Hsame 2 v1 Hs1).
    split; [reflexivity |]. split; [lia |]. split; [lia | exact Hm1]. }
  cbn [bind].
  destruct (Hstep v1 ltac:(lia)) as (Hr2 & Hc2 & Hm2).
  set (v2 := bisect_left BIT_LIMIT_TABLE_H (needed_bits v1 data_list) v1) in *.
  rewrite (check_version_ok v2) by lia. cbn [bind].
  replace (v2 =? 41) with false by lia.
  assert (Hm12 : forall u, 2 <= u < v2 -> capacity_H u < needed_bits u data_list).
  { intros u Hu. destruct (Z.lt_ge_cases u v1); [apply Hm1 | apply Hm2]; lia. }
  destruct (same_mode_sizes v1 v2) eqn:Hs2.
  { exists v2. rewrite (Hsame v1 v2 Hs2).
    split; [reflexivity |]. split; [lia |]. split; [lia | exact Hm12]. }
  cbn [bind].
  destruct (Hstep v2 ltac:(lia)) as (Hr3 & Hc3 & Hm3).
  set (v3 := bisect_left BIT_LIMIT_TABLE_H (needed_bits v2 data_list) v2) in *.
  rewrite (check_version_ok v3) by lia. cbn [bind].
  replace (v3 =? 41) with false by lia.
  assert (Hs3 : same_mode_sizes v2 v3 = true).
  { apply same_mode_sizes_spec.
    assert (H1 : ~ ((2 < 10 <-> v1 < 10) /\ (2 < 27 <-> v1 < 27)))
      by (rewrite <- same_mode_sizes_spec; congruence).
    assert (H2 : ~ ((v1 < 10 <-> v2 < 10) /\ (v1 < 27 <-> v2 < 27)))
      by (rewrite <- same_mode_sizes_spec; congruence).
    lia. }
  rewrite Hs3. exists v3. rewrite (Hsame v2 v3 Hs3).
  split; [reflexivity |]. split; [lia |]. split; [lia |].
  intros u Hu. destruct (Z.lt_ge_cases u v2); [apply Hm12 | apply Hm3]; lia.
Qed.

(** The version [best_fit] returns passes the check of
    [util.create_data]. *)
Lemma check_capacity_ok version data_list :
  needed_bits version data_list <= capacity_H version ->
  check_capacity version data_list = inr tt.
Proof.
  intros Hfit. unfold check_capacity.
  replace (capacity_H version <? needed_bits version data_list) with false by lia.
  reflexivity.
Qed.

End QRFacts.

(** ** Claims on [add_qr_code] and [process_background] *)

Module AssetClaims.
Import PIL PILFacts TicketGenerator GeneratorFacts Fixtures.

Section WithRaster.
Context `{Raster}.

Lemma resize_ok im w h f :
  1 <= w <= 38347922 -> 1 <= h <= 38347922 ->
  exists r, resize im (w, h) f = inr r /\ mode r = mode im.
Proof.
  intros Hw Hh. unfold resize.
  destruct ((w =? width im) && (h =? height im)).
  - eexists. split; reflexivity.
  - replace (negb (c_int w && c_int h)) with false
      by (unfold c_int; change INT_MAX with 2147483647; lia).
    replace ((w <? 1) || (h <? 1)) with false by lia.
    rewrite resize_accepted by lia.
    eexists. split; reflexivity.
Qed.

Lemma make_image_overflow start box_size border data :
  1 <= start <= 9 ->
  QR.capacity_H 40 < QR.needed_bits 40 (QR.add_data data) ->
  QR.make_image start box_size border data = inl QR.invalid_version_41.
Proof.
  intros Hstart Hbig. unfold QR.make_image.
  rewrite (QRFacts.best_fit_overflow 2 _ start (QRFacts.add_data_nonneg data)
             Hstart Hbig).
  reflexivity.
Qed.

Lemma make_image_ok data :
  QR.needed_bits 40 (QR.add_data data) <= QR.capacity_H 40 ->
  exists version qr_image,
    QR.make_image 2 8 2 data = inr qr_image
    /\ QR.best_fit 3 (QR.add_data data) 2 = inr version
    /\ 2 <= version <= 40
    /\ QR.needed_bits version (QR.add_data data) <= QR.capacity_H version
    /\ (forall u, 2 <= u < version ->
          QR.capacity_H u < QR.needed_bits u (QR.add_data data))
    /\ shape qr_image
       = (M1, (QR.modules_count version + 4) * 8,
          (QR.modules_count version + 4) * 8).
Proof.
  intros Hfit.
  destruct (QRFacts.best_fit_ok _ (QRFacts.add_data_nonneg data) Hfit)
    as (version & Hbest & Hrange & Hroom & Hleast).
  exists version. unfold QR.make_image. rewrite Hbest. cbn [bind].
  rewrite (QRFacts.check_capacity_ok _ _ Hroom). cbn [bind].
  change (2 * 2) with 4.
  rewrite new_ok by (unfold QR.modules_count; int_max_lia).
  cbn [bind]. eexists. split; [reflexivity |]. split; [reflexivity |].
  split; [lia |]. split; [exact Hroom |]. split; [exact Hleast | reflexivity].
Qed.

(** With a symbol made and a logo that can mask itself, nothing in
    [add_qr_code] fails. *)
Lemma add_qr_code_ok self w ticket payload logo :
  QR.needed_bits 40 (QR.add_data payload) <= QR.capacity_H 40 ->
  image_file w "./EVNTia.png" = Some logo ->
  mask_mode_ok (mode logo) = true ->
  is_ok (add_qr_code self w ticket payload) = true.
Proof.
  intros Hfit Hlogo Hmask. unfold add_qr_code.
  destruct (make_image_ok payload Hfit) as (version & qr_image & -> & _).
  cbn [bind].
  destruct (resize_ok (convert qr_image RGB) 320 320 BICUBIC) as (qr_code & -> & _);
    [lia | lia |].
  cbn [bind]. unfold open. rewrite Hlogo. cbn [bind ok].
  destruct (resize_ok (mkImage (mode logo) (width logo) (height logo) (px logo) [])
              80 40 BICUBIC) as (small & -> & Hmode); [lia | lia |].
  cbn [bind]. simpl in Hmode.
  destruct (is_ok_inr (paste qr_code small
                         ((width qr_code - fst (80, 40)) / 2,
                          (height qr_code - snd (80, 40)) / 2) (Some small)))
    as [stamped ->].
  { apply paste_self_mask_ok. rewrite Hmode. exact Hmask. }
  cbn [bind]. apply paste_unmasked_ok.
Qed.

(** Without the logo file, [add_qr_code] fails on every canvas. *)
Lemma add_qr_code_needs_logo self w ticket payload :
  image_file w "./EVNTia.png" = None ->
  is_ok (add_qr_code self w ticket payload) = false.
Proof.
  intros Hmiss. unfold add_qr_code, open. rewrite Hmiss.
  destruct (QR.make_image 2 8 2 payload) as [e | qr_image]; [reflexivity |].
  cbn [bind].
  destruct (resize (convert qr_image RGB) (320, 320) BICUBIC); reflexivity.
Qed.

(** C6, as the code has it: [add_qr_code], and with it
    [generate_ticket], fails when the logo file cannot be opened, and
    when the payload is too long even for the largest symbol (version
    40 at level H), then with the encoder's [ValueError] for the
    version 41 it would take; any shorter payload, those beyond the
    capacity of version 2 included, is encoded in the smallest
    version from 2 on that holds it and, with a logo of at most
    65535 pixels a side that can serve as its own mask, the call
    succeeds. *)
Theorem qr_code_failures self w ticket payload :
  (image_file w "./EVNTia.png" = None ->
   is_ok (add_qr_code self w ticket payload) = false
   /\ (QR.needed_bits 40 (QR.add_data payload) <= QR.capacity_H 40 ->
       add_qr_code self w ticket payload = inl (OSError "./EVNTia.png"))
   /\ forall background_path ticket_data,
        is_ok (generate_ticket self w background_path ticket_data) = false)
  /\ (QR.capacity_H 40 < QR.needed_bits 40 (QR.add_data payload) ->
      add_qr_code self w ticket payload
      = inl (ValueError "Invalid version (was 41, expected 1 to 40)")
      /\ forall background_path ticket_data,
           qr_data ticket_data = payload ->
           is_ok (generate_ticket self w background_path ticket_data) = false)
  /\ (QR.needed_bits 40 (QR.add_data payload) <= QR.capacity_H 40 ->
      exists version,
        QR.best_fit 3 (QR.add_data payload) 2 = inr version
        /\ 2 <= version <= 40
        /\ QR.needed_bits version (QR.add_data payload) <= QR.capacity_H version
        /\ (forall u, 2 <= u < version ->
              QR.capacity_H u < QR.needed_bits u (QR.add_data payload))
        /\ forall logo,
             image_file w "./EVNTia.png" = Some logo ->
             1 <= width logo <= 65535 -> 1 <= height logo <= 65535 ->
             mask_mode_ok (mode logo) = true ->
             is_ok (add_qr_code self w ticket payload) = true).
Proof.
  assert (Hover : QR.capacity_H 40 < QR.needed_bits 40 (QR.add_data payload) ->
                  forall canvas,
                    add_qr_code self w canvas payload = inl QR.invalid_version_41).
  { intros Hbig canvas. unfold add_qr_code.
    rewrite make_image_overflow by (lia || exact Hbig). reflexivity. }
  split; [| split].
  - intros Hmiss. split; [apply add_qr_code_needs_logo; exact Hmiss |].
    split.
    + intros Hfit. unfold add_qr_code.
      destruct (make_image_ok payload Hfit) as (version & qr_image & -> & _).
      cbn [bind].
      destruct (resize_ok (convert qr_image RGB) 320 320 BICUBIC)
        as (qr_code & -> & _); [lia | lia |].
      cbn [bind]. unfold open. rewrite Hmiss. reflexivity.
    + intros background_path ticket_data.
      destruct (generate_ticket self w background_path ticket_data)
        as [e | img] eqn:Hg; [reflexivity |].
      apply generate_ticket_ends in Hg as (rows & Hq & _).
      pose proof (add_qr_code_needs_logo self w rows (qr_data ticket_data) Hmiss)
        as Hno.
      rewrite Hq in Hno. discriminate Hno.
  - intros Hbig. split; [apply Hover; exact Hbig |].
    intros background_path ticket_data Hpayload.
    destruct (generate_ticket self w background_path ticket_data)
      as [e | img] eqn:Hg; [reflexivity |].
    apply generate_ticket_ends in Hg as (rows & Hq & _).
    rewrite Hpayload, (Hover Hbig rows) in Hq. discriminate Hq.
  - intros Hfit.
    destruct (make_image_ok payload Hfit)
      as (version & qr_image & _ & Hbest & Hrange & Hroom & Hleast & _).
    exists version. split; [exact Hbest |]. split; [exact Hrange |].
    split; [exact Hroom |]. split; [exact Hleast |].
    intros logo Hlogo _ _ Hmask. eapply add_qr_code_ok; eassumption.
Qed.

End WithRaster.

Lemma qr_code_failures_witness :
  add_qr_code (generator_in empty_world default_config) empty_world
    (solid RGBA 1202 450 (rgb 255 255 255)) (String.concat "" (repeat "evntia" 300))
  = inl (ValueError "Invalid version (was 41, expected 1 to 40)")
  /\ add_qr_code (generator_in empty_world default_config) empty_world
       (solid RGBA 1202 450 (rgb 255 255 255)) "https://evntia.tech/event/12"
     = inl (OSError "./EVNTia.png")
  /\ is_ok (generate_ticket (generator_in empty_world default_config) empty_world
              "./Mage4.jpg" demo_ticket_data)
     = false
  /\ (exists version,
        QR.best_fit 3 (QR.add_data "https://evntia.tech/event/12") 2 = inr version
        /\ QR.capacity_H 3 < QR.needed_bits 3 (QR.add_data "https://evntia.tech/event/12")
        /\ is_ok (add_qr_code (generator_in empty_world default_config)
                    (bare_world 1024 256)
                    (solid RGBA 1202 450 (rgb 255 255 255))
                    "https://evntia.tech/event/12")
           = true).
Proof.
  split; [| split; [| split]].
  - destruct (qr_code_failures (generator_in empty_world default_config) empty_world
                (solid RGBA 1202 450 (rgb 255 255 255))
                (String.concat "" (repeat "evntia" 300)))
      as (_ & Hbig & _).
    apply Hbig. vm_compute. reflexivity.
  - destruct (qr_code_failures (generator_in empty_world default_config) empty_world
                (solid RGBA 1202 450 (rgb 255 255 255))
                "https://evntia.tech/event/12")
      as (Hmiss & _ & _).
    apply Hmiss; [reflexivity | vm_compute; discriminate].
  - destruct (qr_code_failures (generator_in empty_world default_config) empty_world
                (solid RGBA 1202 450 (rgb 255 255 255))
                "https://evntia.tech/event/12")
      as (Hmiss & _ & _).
    apply Hmiss. reflexivity.
  - destruct (qr_code_failures (generator_in empty_world default_config)
                (bare_world 1024 256)
                (solid RGBA 1202 450 (rgb 255 255 255))
                "https://evntia.tech/event/12")
      as (_ & _ & Hfit).
    destruct Hfit as (version & Hbest & Hrange & _ & Hleast & Hok);
      [vm_compute; discriminate |].
    exists version. split; [exact Hbest |].
    assert (Hv : version = 4).
    { assert (Hrun : QR.best_fit 3 (QR.add_data "https://evntia.tech/event/12") 2
                     = inr 4) by (vm_compute; reflexivity).
      rewrite Hrun in Hbest. injection Hbest as <-. reflexivity. }
    split; [apply Hleast; lia |].
    apply (Hok (solid RGBA 200 100 (mkColor 200 0 0 255)));
      [reflexivity | simpl; lia | simpl; lia | reflexivity].
Defined.

(** C6, as the claim words it, fails on the demonstration's own URL: its
    28 bytes need 236 bits, version 2 at level H holds 128, and the call
    succeeds all the same, with a version 4 symbol of 296 by 296
    pixels. *)
Lemma qr_payload_beyond_version_2_accepted :
  QR.needed_bits 2 (QR.add_data (url demo_event)) = 236
  /\ QR.capacity_H 2 = 128
  /\ QR.best_fit 3 (QR.add_data (url demo_event)) 2 = inr 4
  /\ is_ok (add_qr_code (generator_in (bare_world 1024 256) default_config)
              (bare_world 1024 256) (solid RGBA 1202 450 (rgb 255 255 255))
              (url demo_event))
     = true
  /\ is_ok (generate_ticket (generator_in (bare_world 1024 256) default_config)
              (bare_world 1024 256) "./Mage4.jpg" demo_ticket_data)
     = true.
Proof. vm_compute. repeat split. Qed.

(** C2 at a canvas of odd width: a 1024 by 256 background is scaled to
    1800 by 450, the crop box runs from 299.5 to 1500.5, both ends round
    to the even neighbour, and the crop comes out 1200 wide for a canvas
    of 1201; pasted at the origin it leaves the last column of the
    canvas white. *)
Lemma process_background_odd_width :
  exists img pasted,
    process_background (generator_in (bare_world 1024 256) odd_config)
      (bare_world 1024 256) "./Mage4.jpg" (solid RGB 1201 450 (rgb 255 255 255))
    = inr img
    /\ cfg_width odd_config = 1201
    /\ size img = (1200, 450)
    /\ paste (solid RGB 1201 450 (rgb 255 255 255)) img (0, 0) None = inr pasted
    /\ px pasted 1199 0 = rgb 30 60 90
    /\ px pasted 1200 0 = rgb 255 255 255.
Proof.
  set (run := process_background (generator_in (bare_world 1024 256) odd_config)
                (bare_world 1024 256) "./Mage4.jpg"
                (solid RGB 1201 450 (rgb 255 255 255))).
  assert (Hrun : match run with
                 | inr img =>
                     (width img =? 1200) && (height img =? 450)
                     && match paste (solid RGB 1201 450 (rgb 255 255 255)) img (0, 0)
                                None with
                        | inr pasted =>
                            Color_eqb (px pasted 1199 0) (rgb 30 60 90)
                            && Color_eqb (px pasted 1200 0) (rgb 255 255 255)
                        | inl _ => false
                        end
                 | inl _ => false
                 end = true) by (vm_compute; reflexivity).
  destruct run as [e | img]; [discriminate |].
  destruct (paste _ img (0, 0) None) as [e | pasted] eqn:Hpaste; [lia |].
  exists img, pasted.
  assert (Heq : forall c d, Color_eqb c d = true -> c = d).
  { intros [r1 g1 b1 a1] [r2 g2 b2 a2]. unfold Color_eqb. simpl.
    intros Hc. f_equal; lia. }
  apply andb_prop in Hrun as [Hsize Hpx]. apply andb_prop in Hpx as [H1 H2].
  split; [reflexivity |]. split; [reflexivity |].
  split; [unfold size; f_equal; lia |].
  split; [exact Hpaste |]. split; apply Heq; assumption.
Qed.

(** The same background on the default canvas is cropped to the exact
    size. *)
Lemma process_background_default :
  exists img,
    process_background (generator_in (bare_world 1024 256) default_config)
      (bare_world 1024 256) "./Mage4.jpg" (solid RGB 1202 450 (rgb 255 255 255))
    = inr img
    /\ size img = (1202, 450).
Proof.
  set (run := process_background (generator_in (bare_world 1024 256) default_config)
                (bare_world 1024 256) "./Mage4.jpg"
                (solid RGB 1202 450 (rgb 255 255 255))).
  assert (Hrun : match run with
                 | inr img => (width img =? 1202) && (height img =? 450)
                 | inl _ => false
                 end = true) by (vm_compute; reflexivity).
  destruct run as [e | img]; [discriminate |].
  exists img. split; [reflexivity |]. unfold size. f_equal; lia.
Qed.

End AssetClaims.

(** ** The rounded rectangle *)

Module RoundedClaims.
Import PIL PILFacts TicketGenerator Pieslice Fixtures.

Section WithRaster.
Context `{Raster}.

Lemma paint_px im inside fill call x y :
  px (paint im inside (fun _ _ => fill) call) x y
  = if in_bounds im x y && inside x y then fill else px im x y.
Proof. reflexivity. Qed.

Lemma paint_in_bounds im inside ink call x y :
  in_bounds (paint im inside ink call) x y = in_bounds im x y.
Proof. reflexivity. Qed.

Lemma check_box_ok x0 y0 x1 y1 :
  x0 <= x1 -> y0 <= y1 -> check_box (x0, y0, x1, y1) = inr tt.
Proof.
  intros Hx Hy. unfold check_box.
  replace (x1 <? x0) with false by lia. replace (y1 <? y0) with false by lia.
  reflexivity.
Qed.

(** With a radius that fits, the six calls all go through, and the
    canvas afterwards is the canvas before with [fill] wherever one of
    them painted. *)
Lemma create_rounded_rectangle_px draw x1 y1 x2 y2 radius fill :
  0 <= radius -> 2 * radius <= x2 - x1 -> 2 * radius <= y2 - y1 ->
  exists r,
    create_rounded_rectangle draw (x1, y1, x2, y2) radius fill = inr r
    /\ forall x y,
         px r x y
         = if in_bounds draw x y && rounded_ink (x1, y1, x2, y2) radius x y
           then fill else px draw x y.
Proof.
  intros Hr Hw Hh. unfold create_rounded_rectangle, draw_rectangle, draw_pieslice.
  rewrite !check_box_ok by lia. cbn [bind ok].
  eexists. split; [reflexivity |]. intros x y.
  rewrite !paint_px, !paint_in_bounds. unfold rounded_ink.
  destruct (in_bounds draw x y); [| reflexivity]. cbn [andb].
  destruct ((x1 + radius <=? x) && (x <=? x2 - radius) && (y1 <=? y) && (y <=? y2)),
    ((x1 <=? x) && (x <=? x2) && (y1 + radius <=? y) && (y <=? y2 - radius)),
    (pieslice_ink (x1, y1, x1 + radius * 2, y1 + radius * 2) 180 270 x y),
    (pieslice_ink (x2 - radius * 2, y1, x2, y1 + radius * 2) 270 360 x y),
    (pieslice_ink (x1, y2 - radius * 2, x1 + radius * 2, y2) 90 180 x y),
    (pieslice_ink (x2 - radius * 2, y2 - radius * 2, x2, y2) 0 90 x y);
    reflexivity.
Qed.




End WithRaster.



End RoundedClaims.

(** ** The gradient *)

Module GradientClaims.
Import Binary64 Binary64Facts PIL PILFacts TicketGenerator Fixtures Gradient.

(** *** The float operations of [gradient_alpha] *)

Lemma bpow_lt_inv a b : (bpow a < bpow b)%R -> a < b.
Proof.
  intros Hlt. destruct (Z.lt_ge_cases a b) as [Hok | Hge]; [exact Hok |].
  apply bpow_le in Hge. lra.
Qed.

Lemma normal_bounds m e :
  2 ^ 52 <= m < 2 ^ 53 -> (bpow (52 + e) <= F2R m e < bpow (53 + e))%R.
Proof.
  intros Hm. rewrite <- !F2R_pow2 by lia. split; [apply F2R_le | apply F2R_lt]; lia.
Qed.

(** The exponent of a normal float follows from the size of its value. *)
Lemma normal_float_exponent f a b :
  normal_float f -> (bpow a <= B2R f < bpow b)%R ->
  exists m e, f = S754_finite false m e
              /\ 2 ^ 52 <= Z.pos m < 2 ^ 53 /\ a - 52 <= e <= b - 53.
Proof.
  intros (m & e & -> & Hm & _) Hv. simpl in Hv.
  pose proof (normal_bounds (Z.pos m) e Hm) as Hb.
  exists m, e. split; [reflexivity |]. split; [exact Hm |].
  assert (a < 53 + e) by (apply bpow_lt_inv; lra).
  assert (52 + e < b) by (apply bpow_lt_inv; lra). lia.
Qed.

Lemma normal_bpow e : normal (bpow e).
Proof.
  exists (2 ^ 52), (e - 52). split; [| lia].
  rewrite F2R_pow2 by lia. f_equal. lia.
Qed.

Lemma IZR_bpow k : 0 <= k -> IZR (2 ^ k) = bpow k.
Proof. intros Hk. symmetry. apply bpow_nonneg_IZR, Hk. Qed.

(** [float(n)] is exact for a positive int below [2^53]. *)
Lemma of_int_normal n :
  0 < n < 2 ^ 53 ->
  exists m e,
    PyFloat.of_int n = inr (S754_finite false m e)
    /\ 2 ^ 52 <= Z.pos m < 2 ^ 53 /\ -52 <= e <= 0
    /\ F2R (Z.pos m) e = IZR n.
Proof.
  intros Hn. unfold PyFloat.of_int, PyFloat.prec, PyFloat.emax.
  destruct n as [| p | p]; try lia. cbn [binary_normalize].
  pose proof (digits_pos (Z.pos p) ltac:(lia)) as Hd.
  pose proof (digits_le (Z.pos p) 53 ltac:(lia)) as Hd53.
  destruct (binary_round_near p 0) as (m & e & Hr & Hm & He & Hnear); [lia |].
  rewrite Hr.
  assert (Hval : F2R (Z.pos m) e = IZR (Z.pos p)).
  { apply nearest_of_normal; [| unfold F2R in Hnear; rewrite bpow_0, Rmult_1_r in Hnear;
                                exact Hnear].
    apply normal_int. lia. }
  exists m, e. split; [reflexivity |]. split; [exact Hm |]. split; [| exact Hval].
  destruct (normal_float_exponent (S754_finite false m e) 0 53)
    as (m' & e' & Heq & _ & He').
  - exists m, e. repeat split; lia.
  - cbn [B2R]. rewrite Hval, bpow_0, <- (IZR_bpow 53) by lia.
    split; [apply IZR_le | apply IZR_lt]; lia.
  - injection Heq as <- <-. lia.
Qed.

(** [i / w] for ints with [0 < i] and [0 < w] below [2^53]: the normal
    float nearest to the quotient. *)
Lemma int_truediv_near i w :
  0 < i < 2 ^ 53 -> 0 < w < 2 ^ 53 ->
  exists q,
    PyFloat.int_truediv i w = inr q /\ normal_float q
    /\ nearest (IZR i / IZR w) (B2R q).
Proof.
  intros Hi Hw. unfold PyFloat.int_truediv.
  replace (w =? 0) with false by lia.
  destruct (of_int_normal i Hi) as (mi & ei & -> & Hmi & Hei & Hvi).
  destruct (of_int_normal w Hw) as (mw & ew & -> & Hmw & Hew & Hvw).
  cbn [bind]. unfold PyFloat.prec, PyFloat.emax.
  destruct (SFdiv_near mi ei mw ew Hmi Hmw ltac:(lia))
    as (m & e & -> & Hm & He & Hnear).
  exists (S754_finite false m e). split; [reflexivity |].
  split; [exists m, e; repeat split; lia |].
  simpl. rewrite <- Hvi, <- Hvw. exact Hnear.
Qed.

(** [0 / w] is zero. *)
Lemma int_truediv_0 w :
  0 < w < 2 ^ 53 -> PyFloat.int_truediv 0 w = inr (S754_zero false).
Proof.
  intros Hw. unfold PyFloat.int_truediv.
  replace (w =? 0) with false by lia.
  destruct (of_int_normal w Hw) as (mw & ew & -> & _).
  reflexivity.
Qed.

Lemma of_int_1 : PyFloat.of_int 1 = inr one.
Proof. reflexivity. Qed.

Lemma of_int_255 : PyFloat.of_int 255 = inr f255.
Proof. reflexivity. Qed.

Lemma B2R_one : B2R one = 1%R.
Proof.
  unfold one, B2R. change (Z.pos (2 ^ 52)) with (2 ^ 52).
  rewrite F2R_pow2 by lia. reflexivity.
Qed.

Lemma B2R_f255 : B2R f255 = 255%R.
Proof.
  unfold f255, B2R. change (Z.pos (255 * 2 ^ 45)) with (255 * 2 ^ 45).
  replace (-45) with (0 - 45) by lia. rewrite F2R_shift by lia.
  unfold F2R. rewrite bpow_0. ring.
Qed.

(** [int(x)] of a positive float is the integer part of its value. *)
Lemma to_int_floor m e :
  exists z, PyFloat.to_int (S754_finite false m e) = inr z
            /\ (IZR z <= F2R (Z.pos m) e < IZR z + 1)%R.
Proof.
  unfold PyFloat.to_int, PyFloat.cond_opp.
  destruct (Z.leb_spec 0 e) as [He | He]; eexists; (split; [reflexivity |]).
  - rewrite Z.shiftl_mul_pow2 by lia. rewrite mult_IZR, IZR_bpow by lia.
    unfold F2R. lra.
  - rewrite Z.shiftr_div_pow2 by lia.
    pose proof (Z.pow_pos_nonneg 2 (- e) ltac:(lia) ltac:(lia)) as Hp.
    pose proof (Z.div_mod (Z.pos m) (2 ^ (- e)) ltac:(lia)) as Hdm.
    pose proof (Z.mod_pos_bound (Z.pos m) (2 ^ (- e)) Hp) as Hmod.
    set (z := Z.pos m / 2 ^ (- e)) in *. set (r := Z.pos m mod 2 ^ (- e)) in *.
    assert (Hreal : (IZR (Z.pos m) = IZR (2 ^ (- e)) * IZR z + IZR r)%R)
      by (rewrite <- mult_IZR, <- plus_IZR; f_equal; exact Hdm).
    assert (Hr : (0 <= IZR r < IZR (2 ^ (- e)))%R)
      by (split; [apply IZR_le | apply IZR_lt]; lia).
    rewrite IZR_bpow in Hreal, Hr by lia.
    unfold F2R. rewrite Hreal.
    assert (Hinv : (bpow (- e) * bpow e = 1)%R)
      by (rewrite <- bpow_add; replace (- e + e) with 0 by lia; apply bpow_0).
    pose proof (bpow_gt_0 e) as Hb.
    replace ((bpow (- e) * IZR z + IZR r) * bpow e)%R
      with (IZR z * (bpow (- e) * bpow e) + IZR r * bpow e)%R by ring.
    assert (Hlo : (0 <= IZR r * bpow e)%R) by (apply Rmult_le_pos; lra).
    assert (Hhi : (IZR r * bpow e < bpow (- e) * bpow e)%R)
      by (apply Rmult_lt_compat_r; lra).
    rewrite Hinv in *. lra.
Qed.

(** *** From the ratio to the alpha level *)

Lemma alpha_of_ratio_unfold q :
  alpha_of_ratio q
  = PyFloat.to_int (SFmul 53 1024 f255 (SFsub 53 1024 one q)).
Proof. reflexivity. Qed.

Lemma normal_scale g k : normal g -> normal (g * bpow k).
Proof.
  intros (m & e & -> & Hm). exists m, (e + k). split; [| exact Hm].
  unfold F2R. rewrite bpow_add. ring.
Qed.

Lemma normal_1 : normal 1.
Proof. rewrite <- bpow_0. apply normal_bpow. Qed.

Lemma normal_255 : normal 255.
Proof. apply (normal_int 255). lia. Qed.

(** the largest ratio of a canvas: [1 - 2^-29] *)
Lemma normal_below_1 : normal (1 - bpow (-29)).
Proof.
  replace (1 - bpow (-29))%R with (IZR (2 ^ 29 - 1) * bpow (-29))%R.
  - apply normal_scale, normal_int. lia.
  - rewrite minus_IZR, IZR_bpow by lia.
    assert (Hinv : (bpow 29 * bpow (-29) = 1)%R)
      by (rewrite <- bpow_add; apply bpow_0).
    lra.
Qed.

Lemma alpha_of_ratio_run q :
  normal_float q -> (bpow (-29) <= B2R q <= 1 - bpow (-29))%R ->
  exists s p a, alpha_run q s p a.
Proof.
  intros Hq Hrange.
  pose proof (bpow_gt_0 (-29)) as Hsmall.
  destruct (normal_float_exponent q (-29) 0 Hq) as (mq & eq & -> & Hmq & Heq).
  { rewrite bpow_0. lra. }
  cbn [B2R] in Hrange.
  (* 1 - q *)
  destruct (SFsub_near (2 ^ 52) (-52) mq eq) as (ms & es & Hsub & Hms & Hes & Hsn);
    try lia.
  { change (F2R (Z.pos (2 ^ 52)) (-52)) with (B2R one). rewrite B2R_one. lra. }
  change (F2R (Z.pos (2 ^ 52)) (-52)) with (B2R one) in Hsn. rewrite B2R_one in Hsn.
  set (s := S754_finite false ms es).
  assert (Hs : normal_float s) by (exists ms, es; repeat split; lia).
  assert (Hsr : (bpow (-29) <= B2R s <= 1)%R).
  { split.
    - apply (nearest_ge_normal (1 - F2R (Z.pos mq) eq)); [exact Hsn | | lra].
      apply normal_bpow.
    - apply (nearest_le_normal (1 - F2R (Z.pos mq) eq)); [exact Hsn | | lra].
      apply normal_1. }
  destruct (normal_float_exponent s (-29) 1 Hs) as (ms' & es' & Heqs & _ & Hes').
  { rewrite bpow_1. lra. }
  injection Heqs as <- <-.
  (* 255 * s *)
  destruct (SFmul_near (255 * 2 ^ 45) (-45) ms es) as (mp & ep & Hmul & Hmp & Hep & Hpn);
    try lia.
  change (F2R (Z.pos (255 * 2 ^ 45)) (-45)) with (B2R f255) in Hpn.
  rewrite B2R_f255 in Hpn.
  set (p := S754_finite false mp ep).
  assert (Hp : normal_float p) by (exists mp, ep; repeat split; lia).
  assert (Hpr : (0 < B2R p <= 255)%R).
  { split; [apply normal_float_pos, Hp |].
    apply (nearest_le_normal (255 * F2R (Z.pos ms) es)); [exact Hpn | | ].
    - apply normal_255.
    - unfold s in Hsr. cbn [B2R] in Hsr. lra. }
  destruct (to_int_floor mp ep) as (a & Ha & Hfloor).
  fold one in Hsub. fold f255 in Hmul.
  exists s, p, a. constructor; try assumption.
  rewrite alpha_of_ratio_unfold, Hsub, Hmul. exact Ha.
Qed.

Lemma alpha_run_bounds q s p a : alpha_run q s p a -> 0 <= a <= 255.
Proof.
  intros Hrun. pose proof (run_floor _ _ _ _ Hrun) as Hf.
  pose proof (run_p_range _ _ _ _ Hrun) as Hp.
  split.
  - assert (Hlt : (IZR (-1) < IZR a)%R) by lra.
    apply lt_IZR in Hlt. lia.
  - apply le_IZR. lra.
Qed.

(** A larger ratio gives a smaller or equal alpha. *)
Lemma alpha_run_antitone q1 s1 p1 a1 q2 s2 p2 a2 :
  normal_float q1 -> normal_float q2 ->
  alpha_run q1 s1 p1 a1 -> alpha_run q2 s2 p2 a2 ->
  (B2R q1 <= B2R q2)%R -> a2 <= a1.
Proof.
  intros Hq1 Hq2 Hr1 Hr2 [Hlt | Heq].
  - assert (Hs : (B2R s2 <= B2R s1)%R).
    { apply (nearest_mono (1 - B2R q2) (1 - B2R q1));
        [lra | apply (run_s_near _ _ _ _ Hr2) | apply (run_s_near _ _ _ _ Hr1)]. }
    assert (Hp : (B2R p2 <= B2R p1)%R).
    { destruct Hs as [Hslt | Hseq].
      - apply (nearest_mono (255 * B2R s2) (255 * B2R s1));
          [lra | apply (run_p_near _ _ _ _ Hr2) | apply (run_p_near _ _ _ _ Hr1)].
      - apply normal_float_inj in Hseq;
          [| apply (run_s_normal _ _ _ _ Hr2) | apply (run_s_normal _ _ _ _ Hr1)].
        subst s2. rewrite <- (run_mul _ _ _ _ Hr1), <- (run_mul _ _ _ _ Hr2). lra. }
    pose proof (run_floor _ _ _ _ Hr1) as Hf1.
    pose proof (run_floor _ _ _ _ Hr2) as Hf2.
    assert (Hz : (IZR a2 < IZR (a1 + 1))%R) by (rewrite plus_IZR; lra).
    apply lt_IZR in Hz. lia.
  - apply normal_float_inj in Heq; [| exact Hq1 | exact Hq2]. subst q2.
    pose proof (run_alpha _ _ _ _ Hr1) as Ha1.
    pose proof (run_alpha _ _ _ _ Hr2) as Ha2.
    rewrite Ha1 in Ha2. injection Ha2 as ->. lia.
Qed.

(** *** The columns of a canvas *)

(** The ratio of a column other than the first: a normal float between
    [2^-29] and [1 - 2^-29], nearest to [i / width]. *)
Lemma column_ratio w i :
  0 < i < w -> w <= 2 ^ 29 ->
  exists q,
    PyFloat.int_truediv i w = inr q /\ normal_float q
    /\ nearest (IZR i / IZR w) (B2R q)
    /\ (bpow (-29) <= IZR i / IZR w <= 1 - bpow (-29))%R
    /\ (bpow (-29) <= B2R q <= 1 - bpow (-29))%R.
Proof.
  intros Hi Hw.
  destruct (int_truediv_near i w) as (q & Hdiv & Hq & Hnear); [lia | lia |].
  exists q. split; [exact Hdiv |]. split; [exact Hq |]. split; [exact Hnear |].
  assert (Hx : (bpow (-29) <= IZR i / IZR w <= 1 - bpow (-29))%R).
  { assert (Hwr : (0 < IZR w)%R) by (apply IZR_lt; lia).
    assert (Hi1 : (1 <= IZR i)%R) by (apply IZR_le; lia).
    assert (Hi2 : (IZR i <= IZR w - 1)%R)
      by (rewrite <- (minus_IZR w 1); apply IZR_le; lia).
    assert (Hw29 : (IZR w <= bpow 29)%R)
      by (rewrite <- IZR_bpow by lia; apply IZR_le; exact Hw).
    assert (Hinv : (bpow (-29) * bpow 29 = 1)%R)
      by (rewrite <- bpow_add; apply bpow_0).
    pose proof (bpow_gt_0 (-29)) as Hc.
    assert (Hcw : (bpow (-29) * IZR w <= 1)%R) by nra.
    set (t := (IZR i / IZR w)%R).
    assert (Ht : (t * IZR w = IZR i)%R) by (unfold t; field; lra).
    split; apply (Rmult_le_reg_r (IZR w)); try lra. }
  split; [exact Hx |]. split.
  - apply (nearest_ge_normal (IZR i / IZR w)); [exact Hnear | apply normal_bpow | lra].
  - apply (nearest_le_normal (IZR i / IZR w)); [exact Hnear | apply normal_below_1 | lra].
Qed.

(** Every column other than the first has an alpha level, computed
    without an exception. *)
Lemma column_run cfg i :
  0 < i < cfg_width cfg -> cfg_width cfg <= 2 ^ 29 ->
  exists q s p a,
    PyFloat.int_truediv i (cfg_width cfg) = inr q /\ normal_float q
    /\ nearest (IZR i / IZR (cfg_width cfg)) (B2R q)
    /\ alpha_run q s p a
    /\ gradient_alpha cfg i = inr a.
Proof.
  intros Hi Hw.
  destruct (column_ratio (cfg_width cfg) i Hi Hw) as (q & Hdiv & Hq & Hnear & _ & Hr).
  destruct (alpha_of_ratio_run q Hq Hr) as (s & p & a & Hrun).
  exists q, s, p, a.
  split; [exact Hdiv |]. split; [exact Hq |]. split; [exact Hnear |].
  split; [exact Hrun |].
  unfold gradient_alpha. rewrite Hdiv. exact (run_alpha _ _ _ _ Hrun).
Qed.

(** The first column is fully opaque. *)
Lemma column_0 cfg :
  0 < cfg_width cfg < 2 ^ 53 -> gradient_alpha cfg 0 = inr 255.
Proof.
  intros Hw. unfold gradient_alpha. rewrite int_truediv_0 by exact Hw. reflexivity.
Qed.

Lemma column_defined cfg i :
  0 <= i < cfg_width cfg -> cfg_width cfg <= 2 ^ 29 ->
  exists a, gradient_alpha cfg i = inr a /\ 0 <= a <= 255.
Proof.
  intros Hi Hw. destruct (Z.eq_dec i 0) as [-> | Hne].
  - exists 255. split; [apply column_0; lia | lia].
  - destruct (column_run cfg i) as (q & s & p & a & _ & _ & _ & Hrun & Ha); try lia.
    exists a. split; [exact Ha | eapply alpha_run_bounds; exact Hrun].
Qed.

(** Alpha does not increase from a column to a later one. *)
Lemma column_antitone cfg i j ai aj :
  0 <= i <= j -> j < cfg_width cfg -> cfg_width cfg <= 2 ^ 29 ->
  gradient_alpha cfg i = inr ai -> gradient_alpha cfg j = inr aj ->
  aj <= ai.
Proof.
  intros Hij Hj Hw Hai Haj.
  destruct (Z.eq_dec i j) as [-> | Hne].
  { rewrite Hai in Haj. injection Haj as ->. lia. }
  destruct (column_run cfg j) as (qj & sj & pj & aj' & _ & Hqj & Hnj & Hrunj & Haj');
    try lia.
  rewrite Haj in Haj'. injection Haj' as <-.
  destruct (Z.eq_dec i 0) as [-> | Hi0].
  { rewrite column_0 in Hai by lia. injection Hai as <-.
    apply (alpha_run_bounds _ _ _ _ Hrunj). }
  destruct (column_run cfg i) as (qi & si & pi & ai' & _ & Hqi & Hni & Hruni & Hai');
    try lia.
  rewrite Hai in Hai'. injection Hai' as <-.
  apply (alpha_run_antitone qi si pi ai qj sj pj aj); try assumption.
  apply (nearest_mono (IZR i / IZR (cfg_width cfg)) (IZR j / IZR (cfg_width cfg)));
    try assumption.
  assert (Hwr : (0 < IZR (cfg_width cfg))%R) by (apply IZR_lt; lia).
  assert (Hlt : (IZR i < IZR j)%R) by (apply IZR_lt; lia).
  unfold Rdiv. apply Rmult_lt_compat_r; [apply Rinv_0_lt_compat; exact Hwr | exact Hlt].
Qed.

Lemma B2R_ratio_255_256 : (B2R ratio_255_256 * 256 = 255)%R.
Proof.
  unfold ratio_255_256, B2R. change (Z.pos (255 * 2 ^ 45)) with (255 * 2 ^ 45).
  replace (-53) with (-8 - 45) by lia. rewrite F2R_shift by lia.
  unfold F2R.
  assert (Hinv : (bpow (-8) * bpow 8 = 1)%R) by (rewrite <- bpow_add; apply bpow_0).
  rewrite <- (IZR_bpow 8) in Hinv by lia. change (2 ^ 8) with 256 in Hinv. lra.
Qed.

(** On a canvas at least 256 wide the last column is fully transparent. *)
Lemma last_column_wide cfg :
  256 <= cfg_width cfg <= 2 ^ 29 ->
  gradient_alpha cfg (cfg_width cfg - 1) = inr 0.
Proof.
  intros Hw. set (w := cfg_width cfg) in *.
  destruct (column_run cfg (w - 1)) as (q & s & p & a & _ & Hq & Hnear & Hrun & Ha);
    try (fold w; lia).
  fold w in Hnear. rewrite Ha. f_equal.
  pose proof (alpha_run_bounds _ _ _ _ Hrun) as Hb.
  assert (Hq0 : normal_float ratio_255_256).
  { exists (255 * 2 ^ 45)%positive, (-53). repeat split; lia. }
  pose proof B2R_ratio_255_256 as Hv.
  pose proof (bpow_gt_0 (-29)) as Hc.
  assert (Hc1 : (bpow (-29) <= / 256)%R).
  { replace (/ 256)%R with (bpow (-8)).
    - apply bpow_le. lia.
    - assert (Hinv : (bpow (-8) * bpow 8 = 1)%R)
        by (rewrite <- bpow_add; apply bpow_0).
      rewrite <- (IZR_bpow 8) in Hinv by lia. change (2 ^ 8) with 256 in Hinv.
      apply (Rmult_eq_reg_r 256); lra. }
  destruct (alpha_of_ratio_run ratio_255_256 Hq0) as (s0 & p0 & a0 & Hrun0); [lra |].
  assert (Ha0 : a0 = 0).
  { pose proof (run_alpha _ _ _ _ Hrun0) as Hcomp.
    change (alpha_of_ratio ratio_255_256) with (inr 0 : result Z) in Hcomp.
    injection Hcomp as <-. reflexivity. }
  assert (Hle : a <= a0).
  { apply (alpha_run_antitone ratio_255_256 s0 p0 a0 q s p a); try assumption.
    apply (nearest_ge_normal (IZR (w - 1) / IZR w)); [exact Hnear | |].
    - apply normal_float_normal, Hq0.
    - assert (Hwr : (256 <= IZR w)%R) by (apply IZR_le; lia).
      rewrite minus_IZR. apply (Rmult_le_reg_r (256 * IZR w)); [lra |].
      replace ((IZR w - 1) / IZR w * (256 * IZR w))%R with ((IZR w - 1) * 256)%R
        by (field; lra).
      nra. }
  lia.
Qed.

(** On a narrower canvas the last column is within one step of fully
    transparent; the 255 widths are run one by one. *)
Lemma last_column_narrow cfg :
  0 < cfg_width cfg < 256 ->
  exists a, gradient_alpha cfg (cfg_width cfg - 1) = inr a
            /\ 0 <= a <= 255 / cfg_width cfg.
Proof.
  intros Hw.
  assert (Hall : forallb last_alpha_small (map Z.of_nat (seq 1 255)) = true)
    by (vm_compute; reflexivity).
  rewrite forallb_forall in Hall.
  specialize (Hall (cfg_width cfg)).
  assert (Hin : In (cfg_width cfg) (map Z.of_nat (seq 1 255))).
  { apply in_map_iff. exists (Z.to_nat (cfg_width cfg)).
    split; [lia | apply in_seq; lia]. }
  specialize (Hall Hin). unfold last_alpha_small in Hall.
  change (gradient_alpha (mkTicketConfig (cfg_width cfg) 0 0 0 0 0) (cfg_width cfg - 1))
    with (gradient_alpha cfg (cfg_width cfg - 1)) in Hall.
  destruct (gradient_alpha cfg (cfg_width cfg - 1)) as [e | a]; [discriminate |].
  exists a. split; [reflexivity | lia].
Qed.

Lemma last_column cfg :
  0 < cfg_width cfg <= 2 ^ 29 ->
  exists a, gradient_alpha cfg (cfg_width cfg - 1) = inr a
            /\ 0 <= a <= 255 / cfg_width cfg.
Proof.
  intros Hw. destruct (Z.lt_ge_cases (cfg_width cfg) 256) as [Hnarrow | Hwide].
  - apply last_column_narrow. lia.
  - exists 0. split; [apply last_column_wide; lia |].
    rewrite Z.div_small by lia. lia.
Qed.

(** *** The overlay *)

Section WithRaster.
Context `{Raster}.

Lemma draw_column_px im i h fill x y :
  px (draw_line im (i, 0, i, h) fill) x y
  = if in_bounds im x y && ((x =? i) && between 0 h y) then fill else px im x y.
Proof. unfold draw_line. rewrite Z.eqb_refl. reflexivity. Qed.

(** The loop draws each of its columns in white at that column's
    alpha, and nothing else. *)
Lemma gradient_loop_px cfg : forall columns gradient,
  (forall i, In i columns -> is_ok (gradient_alpha cfg i) = true) ->
  height gradient <= cfg_height cfg ->
  exists g,
    gradient_loop cfg columns gradient = inr g
    /\ shape g = shape gradient
    /\ forall x y,
         in_bounds gradient x y = true ->
         (In x columns ->
          exists a, gradient_alpha cfg x = inr a
                    /\ px g x y = mkColor 255 255 255 a)
         /\ (~ In x columns -> px g x y = px gradient x y).
Proof.
  induction columns as [| i rest IH]; intros gradient Hok Hh.
  - exists gradient. split; [reflexivity |]. split; [reflexivity |].
    intros x y _. split; [intros [] | reflexivity].
  - destruct (is_ok_inr _ (Hok i (or_introl eq_refl))) as [a Ha].
    cbn [gradient_loop]. rewrite Ha. cbn [bind].
    set (drawn_i := draw_line gradient (i, 0, i, cfg_height cfg)
                      (mkColor 255 255 255 a)).
    destruct (IH drawn_i) as (g & Hg & Hs & Hpx).
    { intros j Hj. apply Hok. right. exact Hj. }
    { exact Hh. }
    exists g. split; [exact Hg |]. split; [rewrite Hs; reflexivity |].
    intros x y Hb.
    assert (Hb' : in_bounds drawn_i x y = true) by exact Hb.
    destruct (Hpx x y Hb') as [Hin Hout].
    assert (Hy : between 0 (cfg_height cfg) y = true).
    { unfold in_bounds in Hb. unfold between. lia. }
    split.
    + intros [-> | Hrest].
      * destruct (in_dec Z.eq_dec x rest) as [Hr | Hr]; [exact (Hin Hr) |].
        exists a. split; [exact Ha |].
        rewrite (Hout Hr). unfold drawn_i.
        rewrite draw_column_px, Hb, Z.eqb_refl, Hy. reflexivity.
      * exact (Hin Hrest).
    + intros Hnot.
      assert (Hr : ~ In x rest) by (intros Hr; apply Hnot; right; exact Hr).
      rewrite (Hout Hr). unfold drawn_i. rewrite draw_column_px.
      replace (x =? i) with false by (assert (x <> i) by (intros ->; apply Hnot; left; reflexivity); lia).
      rewrite andb_false_r. reflexivity.
Qed.

Lemma In_range n x : In x (range n) <-> 0 <= x < n.
Proof.
  unfold range. rewrite in_map_iff. split.
  - intros (k & <- & Hk). apply in_seq in Hk. lia.
  - intros Hx. exists (Z.to_nat x). split; [lia | apply in_seq; lia].
Qed.

(** C3: on every canvas [Image.new] can make, [add_gradient]'s
    overlay exists (no column raises), is of the canvas size, and is
    white with, in column [x], the alpha [int(255 * (1 - x / width))];
    that alpha is 255 in column 0, never increases from a column to a
    later one, stays between 0 and 255, and in the last column is at
    most [255 // width], hence 0 from a width of 256 on. *)
Theorem gradient_alpha_profile cfg :
  0 < cfg_width cfg <= INT_MAX / 4 - 1 -> 0 <= cfg_height cfg <= INT_MAX ->
  exists g,
    gradient_overlay cfg = inr g
    /\ shape g = (RGBA, cfg_width cfg, cfg_height cfg)
    /\ (forall x y,
          0 <= x < cfg_width cfg -> 0 <= y < cfg_height cfg ->
          exists a, gradient_alpha cfg x = inr a
                    /\ px g x y = mkColor 255 255 255 a)
    /\ gradient_alpha cfg 0 = inr 255
    /\ (forall i j,
          0 <= i <= j -> j < cfg_width cfg ->
          exists ai aj,
            gradient_alpha cfg i = inr ai /\ gradient_alpha cfg j = inr aj
            /\ 0 <= aj <= ai /\ ai <= 255)
    /\ (exists a, gradient_alpha cfg (cfg_width cfg - 1) = inr a
                  /\ 0 <= a <= 255 / cfg_width cfg).
Proof.
  intros Hw Hh.
  assert (Hw29 : cfg_width cfg <= 2 ^ 29) by int_max_lia.
  unfold gradient_overlay. rewrite new_ok by assumption || lia. cbn [bind].
  destruct (gradient_loop_px cfg (range (cfg_width cfg))
              (mkImage RGBA (cfg_width cfg) (cfg_height cfg)
                 (fun _ _ => mkColor 255 255 255 0) []))
    as (g & Hg & Hs & Hpx).
  { intros i Hi. apply In_range in Hi.
    destruct (column_defined cfg i Hi Hw29) as (a & -> & _). reflexivity. }
  { simpl. lia. }
  exists g. split; [exact Hg |]. split; [exact Hs |].
  split; [| split; [| split]].
  - intros x y Hx Hy.
    destruct (Hpx x y) as [Hin _]; [unfold in_bounds; simpl; lia |].
    apply Hin, In_range, Hx.
  - apply column_0. lia.
  - intros i j Hij Hj.
    destruct (column_defined cfg i ltac:(lia) Hw29) as (ai & Hai & Hbi).
    destruct (column_defined cfg j ltac:(lia) Hw29) as (aj & Haj & Hbj).
    exists ai, aj. split; [exact Hai |]. split; [exact Haj |].
    pose proof (column_antitone cfg i j ai aj Hij Hj Hw29 Hai Haj). lia.
  - apply last_column. lia.
Qed.

End WithRaster.

Lemma gradient_alpha_profile_witness :
  gradient_alpha default_config 0 = inr 255
  /\ exists a, gradient_alpha default_config 1201 = inr a /\ 0 <= a <= 0.
Proof.
  destruct (gradient_alpha_profile default_config)
    as (g & _ & _ & _ & Hfirst & _ & Hlast).
  - vm_compute. split; [reflexivity | discriminate].
  - vm_compute. split; discriminate.
  - split; [exact Hfirst | exact Hlast].
Defined.

End GradientClaims.

(** ** Image objects: what a render shares and what it leaves alone *)

Module ObjectFacts.
Import PIL Fixtures.

(** *** The heap, as the objects a call found and those it made *)

Lemma alloc_app (h l : list Image) im :
  Objects.alloc im (h ++ l)%list
  = (inr (List.length h + List.length l)%nat, (h ++ (l ++ [im]))%list).
Proof. unfold Objects.alloc. rewrite length_app, <- app_assoc. reflexivity. Qed.

Lemma deref_new (h l : list Image) k :
  Objects.deref (List.length h + k)%nat (h ++ l)%list
  = (inr (nth k l Objects.no_image), (h ++ l)%list).
Proof. unfold Objects.deref. rewrite app_nth2_plus. reflexivity. Qed.

Lemma deref_old (h l : list Image) r :
  (r < List.length h)%nat ->
  Objects.deref r (h ++ l)%list = (inr (nth r h Objects.no_image), (h ++ l)%list).
Proof. intros Hr. unfold Objects.deref. rewrite app_nth1 by exact Hr. reflexivity. Qed.

Lemma assign_new (h l : list Image) k im :
  Objects.assign (List.length h + k)%nat im (h ++ l)%list
  = (inr tt, (h ++ <[k := im]> l)%list).
Proof. unfold Objects.assign. rewrite insert_app_r. reflexivity. Qed.

(** *** Running a computation *)

Lemma mbind_assoc {A B C} (m : Objects.M A) (k1 : A -> Objects.M B)
    (k2 : B -> Objects.M C) h :
  Objects.mbind (Objects.mbind m k1) k2 h
  = Objects.mbind m (fun a => Objects.mbind (k1 a) k2) h.
Proof.
  unfold Objects.mbind. destruct (m h) as [[e | a] h']; [reflexivity |].
  reflexivity.
Qed.

Lemma mbind_ret {A B} (a : A) (k : A -> Objects.M B) h :
  Objects.mbind (Objects.ret a) k h = k a h.
Proof. reflexivity. Qed.

Lemma mbind_lift {A B} (r : result A) (k : A -> Objects.M B) h :
  Objects.mbind (Objects.lift r) k h
  = match r with
    | inl e => (inl e, h)
    | inr a => k a h
    end.
Proof. destruct r; reflexivity. Qed.

Lemma mbind_alloc {B} (k : nat -> Objects.M B) (h l : list Image) im :
  Objects.mbind (Objects.alloc im) k (h ++ l)%list
  = k (List.length h + List.length l)%nat (h ++ (l ++ [im]))%list.
Proof. unfold Objects.mbind. rewrite alloc_app. reflexivity. Qed.

Lemma mbind_deref_new {B} (k : Image -> Objects.M B) (h l : list Image) i :
  Objects.mbind (Objects.deref (List.length h + i)%nat) k (h ++ l)%list
  = k (nth i l Objects.no_image) (h ++ l)%list.
Proof. unfold Objects.mbind. rewrite deref_new. reflexivity. Qed.

Lemma mbind_deref_old {B} (k : Image -> Objects.M B) (h l : list Image) r :
  (r < List.length h)%nat ->
  Objects.mbind (Objects.deref r) k (h ++ l)%list
  = k (nth r h Objects.no_image) (h ++ l)%list.
Proof. intros Hr. unfold Objects.mbind. rewrite deref_old by exact Hr. reflexivity. Qed.

Lemma mbind_assign_new {B} (k : unit -> Objects.M B) (h l : list Image) i im :
  Objects.mbind (Objects.assign (List.length h + i)%nat im) k (h ++ l)%list
  = k tt (h ++ <[i := im]> l)%list.
Proof. unfold Objects.mbind. rewrite assign_new. reflexivity. Qed.

Lemma mbind_eq {A B} (m : Objects.M A) (k : A -> Objects.M B) h r h' :
  m h = (r, h') ->
  Objects.mbind m k h
  = match r with
    | inl e => (inl e, h')
    | inr a => k a h'
    end.
Proof. intros Hm. unfold Objects.mbind. rewrite Hm. destruct r; reflexivity. Qed.

Lemma lookup_nth (l : list Image) k :
  (k < List.length l)%nat -> l !! k = Some (nth k l Objects.no_image).
Proof.
  revert k. induction l as [| im l IH]; intros k Hk; [simpl in Hk; lia |].
  destruct k as [| k]; [reflexivity |]. apply IH. simpl in Hk. lia.
Qed.

Lemma insert_nth (l : list Image) k :
  (k < List.length l)%nat -> <[k := nth k l Objects.no_image]> l = l.
Proof. intros Hk. apply list_insert_id, lookup_nth, Hk. Qed.

Lemma view_lookup h self name :
  TicketGenerator.icons (Objects.view h self) !! name
  = (fun r => nth r h Objects.no_image) <$> (Objects.icons self !! name).
Proof. unfold Objects.view. cbn [TicketGenerator.icons]. apply lookup_fmap. Qed.

(** Objects made later do not change what the generator shows. *)
Lemma view_app h fresh self :
  Objects.icons_alive h self ->
  Objects.view (h ++ fresh)%list self = Objects.view h self.
Proof.
  intros Halive. unfold Objects.view. f_equal.
  apply map_fmap_ext. intros name r Hlook.
  apply app_nth1. exact (Halive name r Hlook).
Qed.

Lemma icons_alive_app h fresh self :
  Objects.icons_alive h self -> Objects.icons_alive (h ++ fresh)%list self.
Proof.
  intros Halive name r Hlook. rewrite length_app.
  pose proof (Halive name r Hlook). lia.
Qed.

Section WithRaster.
Context `{Raster}.

(** The loop of [add_gradient] changes the overlay in place, and
    nothing else. *)
Lemma gradient_loop_run cfg columns : forall (h l : list Image) k,
  (k < List.length l)%nat ->
  exists im res,
    Objects.gradient_loop cfg columns (List.length h + k)%nat (h ++ l)%list
    = (res, (h ++ <[k := im]> l)%list)
    /\ match TicketGenerator.gradient_loop cfg columns (nth k l Objects.no_image)
       with
       | inr done => res = inr tt /\ im = done
       | inl e => res = inl e
       end.
Proof.
  induction columns as [| i rest IH]; intros h l k Hk.
  - exists (nth k l Objects.no_image), (inr tt). cbn.
    rewrite insert_nth by exact Hk. repeat split.
  - cbn [Objects.gradient_loop TicketGenerator.gradient_loop].
    cbn [Objects.mbind Objects.lift].
    destruct (TicketGenerator.gradient_alpha cfg i) as [e | a].
    + exists (nth k l Objects.no_image), (inl e). cbn.
      rewrite insert_nth by exact Hk. split; reflexivity.
    + cbn [bind]. unfold Objects.draw_line, Objects.mbind.
      rewrite deref_new, assign_new.
      destruct (IH h (<[k := draw_line (nth k l Objects.no_image)
                               (i, 0, i, cfg_height cfg)
                               (mkColor 255 255 255 a)]> l) k)
        as (im & res & Hrun & Hres); [rewrite length_insert; exact Hk |].
      exists im, res. rewrite Hrun, list_insert_insert_eq. split; [reflexivity |].
      rewrite nth_lookup, list_lookup_insert_eq in Hres by exact Hk.
      exact Hres.
Qed.

(** Run the heap computation as far as it goes by itself. *)
Ltac hrun :=
  repeat (first [ rewrite mbind_assoc
                | rewrite mbind_ret
                | rewrite mbind_alloc
                | rewrite mbind_deref_new
                | rewrite mbind_assign_new
                | rewrite mbind_deref_old
                    by (match goal with
                        | Ha : Objects.icons_alive _ _ |- _ =>
                            eapply Ha; eassumption
                        end)
                | rewrite assign_new ];
          cbv beta;
          cbn [List.length Nat.add nth insert list_insert app]);
  cbn [bind ok raise].

(** a branch in which both sides have raised *)
Ltac hfail :=
  cbn [bind]; eexists; split; [reflexivity | reflexivity].

(** the next call that can raise: on both sides, it did or it did not *)
Ltac hstep :=
  hrun; rewrite mbind_lift;
  lazymatch goal with
  | |- Objects.agrees _ (match ?r with inl _ => _ | inr _ => _ end) _ =>
      let e := fresh "e" in
      let v := fresh "v" in
      destruct r as [e | v]; [hfail | cbn [bind]]
  end.

(** one row of the details: the icon is in the dict or it is not, and
    it has an alpha band or it has not *)
Ltac hrow name :=
  hrun; rewrite (view_lookup _ _ name);
  let r := fresh "icon" in
  let Hlook := fresh "Hlook" in
  destruct (Objects.icons _ !! name) as [r |] eqn:Hlook;
    cbn [fmap option_fmap option_map bind ok raise];
    [| rewrite mbind_lift; hfail];
  hrun;
  destruct (has_alpha_band (mode (nth r _ Objects.no_image)));
    hstep; hrun.

Lemma generate_ticket_refines self w background_path ticket_data h :
  Objects.icons_alive h self ->
  Objects.agrees h
    (Objects.generate_ticket self w background_path ticket_data h)
    (TicketGenerator.generate_ticket (Objects.view h self) w background_path
       ticket_data).
Proof.
  intros Halive.
  replace (Objects.generate_ticket self w background_path ticket_data h)
    with (Objects.generate_ticket self w background_path ticket_data
            (h ++ [])%list)
    by (rewrite app_nil_r; reflexivity).
  unfold Objects.generate_ticket, TicketGenerator.generate_ticket,
    Objects.process_background, TicketGenerator.process_background,
    Objects.add_gradient, TicketGenerator.add_gradient,
    TicketGenerator.gradient_overlay,
    Objects.add_qr_code, TicketGenerator.add_qr_code,
    Objects.create_rounded_rectangle, TicketGenerator.create_rounded_rectangle,
    TicketGenerator.details.
  cbn [Objects.details_loop TicketGenerator.details_loop].
  unfold Objects.draw_icon_with_text, TicketGenerator.draw_icon_with_text,
    Objects.new, Objects.open, Objects.convert, Objects.resize, Objects.crop,
    Objects.paste, Objects.alpha_composite, Objects.draw_text,
    Objects.draw_rectangle, Objects.draw_pieslice.
  cbn [Objects.view TicketGenerator.config TicketGenerator.font_large
       TicketGenerator.font_small TicketGenerator.font_bold].
  destruct (TicketGenerator.get_text_dimensions (title (event ticket_data))
              (Objects.font_bold self)) as [title_width title_height].
  destruct (TicketGenerator.get_text_dimensions (category (event ticket_data))
              (Objects.font_small self)) as [category_width category_height].
  cbv zeta.
  (* the blank canvas, and [process_background] *)
  hstep. hstep. hstep. hstep. hstep. destruct v3 as [new_width new_height].
  hstep. hstep. hstep. hstep. hstep. hstep.
  (* the background pasted on the canvas *)
  hstep.
  (* [add_gradient] *)
  hstep. hrun.
  match goal with
  | |- Objects.agrees _
         (Objects.mbind (Objects.gradient_loop ?cfg ?cols _) _ (_ ++ ?l)%list) _ =>
      destruct (gradient_loop_run cfg cols h l 4)
        as (overlay & res & Hloop & Hres); [simpl; lia |];
      rewrite (mbind_eq _ _ _ _ _ Hloop)
  end.
  cbn [nth] in Hres.
  destruct (TicketGenerator.gradient_loop _ _ _) as [e | done];
    [rewrite Hres; hfail | destruct Hres as [-> ->]; cbn [bind]].
  hstep.
  (* the texts and the badge *)
  hstep. hstep. hstep. hstep. hstep. hstep.
  (* the four rows *)
  hrow "calendar"; hrow "clock"; hrow "map"; hrow "ticket";
    (* [add_qr_code] *)
    hstep; hstep; hstep; hstep; hstep; hstep; hrun;
    eexists; (split; [reflexivity |]); exists 6%nat; split; reflexivity.
Qed.

(** C9: two calls of [generate_ticket] made one after the other on
    the same generator, with the same files and the same ticket
    data, either raise the same exception or return two different
    objects that hold the same image, pixel for pixel, the image
    [generate_ticket] computes from what the generator's icons
    showed before the first call; whatever the calls made is new,
    and every object that was there before them, the icons among
    them, is as it was. *)
Theorem generate_ticket_deterministic self w background_path ticket_data
    h res1 h1 res2 h2 :
  Objects.icons_alive h self ->
  Objects.generate_ticket self w background_path ticket_data h = (res1, h1) ->
  Objects.generate_ticket self w background_path ticket_data h1 = (res2, h2) ->
  (exists made, h2 = (h ++ made)%list)
  /\ Objects.view h2 self = Objects.view h self
  /\ match res1, res2 with
     | inr ticket1, inr ticket2 =>
         ticket1 <> ticket2
         /\ exists img,
              h2 !! ticket1 = Some img /\ h2 !! ticket2 = Some img
              /\ TicketGenerator.generate_ticket (Objects.view h self) w
                   background_path ticket_data = inr img
     | inl e1, inl e2 => e1 = e2
     | _, _ => False
     end.
Proof.
  intros Halive Hrun1 Hrun2.
  destruct (generate_ticket_refines self w background_path ticket_data h Halive)
    as (made1 & Hh1 & Hres1).
  rewrite Hrun1 in Hh1, Hres1. cbn [fst snd] in Hh1, Hres1. subst h1.
  destruct (generate_ticket_refines self w background_path ticket_data
              (h ++ made1)%list (icons_alive_app h made1 self Halive))
    as (made2 & Hh2 & Hres2).
  rewrite Hrun2 in Hh2, Hres2.
  rewrite (view_app h made1 self Halive) in Hres2.
  cbn [fst snd] in Hh2, Hres2. subst h2.
  split; [exists (made1 ++ made2)%list; rewrite app_assoc; reflexivity |].
  split.
  { rewrite <- app_assoc. apply view_app. exact Halive. }
  destruct (TicketGenerator.generate_ticket (Objects.view h self) w
              background_path ticket_data) as [e | img].
  - rewrite Hres1, Hres2. reflexivity.
  - destruct Hres1 as (k1 & -> & Hk1). destruct Hres2 as (k2 & -> & Hk2).
    pose proof (lookup_lt_Some _ _ _ Hk1) as Hlt.
    split; [rewrite length_app; lia |].
    exists img. split; [| split; [| reflexivity]].
    + rewrite <- app_assoc, lookup_app_r by lia.
      replace (List.length h + k1 - List.length h)%nat with k1 by lia.
      rewrite lookup_app_l by exact Hlt. exact Hk1.
    + rewrite lookup_app_r by lia.
      replace (List.length (h ++ made1) + k2 - List.length (h ++ made1))%nat
        with k2 by lia.
      exact Hk2.
Qed.


End WithRaster.
Lemma generate_ticket_deterministic_witness :
  exists ticket1 h1 ticket2 h2 img,
    Objects.generate_ticket Objects.bare_generator (Fixtures.bare_world 1024 256)
      "./Mage4.jpg" TicketGenerator.demo_ticket_data Objects.four_icons
    = (inr ticket1, h1)
    /\ Objects.generate_ticket Objects.bare_generator
         (Fixtures.bare_world 1024 256) "./Mage4.jpg"
         TicketGenerator.demo_ticket_data h1
       = (inr ticket2, h2)
    /\ ticket1 <> ticket2
    /\ h2 !! ticket1 = Some img /\ h2 !! ticket2 = Some img
    /\ size img = (1202, 450).
Proof.
  destruct (Objects.generate_ticket Objects.bare_generator
              (Fixtures.bare_world 1024 256) "./Mage4.jpg"
              TicketGenerator.demo_ticket_data Objects.four_icons)
    as [res1 h1] eqn:Hrun1.
  destruct (Objects.generate_ticket Objects.bare_generator
              (Fixtures.bare_world 1024 256) "./Mage4.jpg"
              TicketGenerator.demo_ticket_data h1)
    as [res2 h2] eqn:Hrun2.
  assert (Halive : Objects.icons_alive Objects.four_icons Objects.bare_generator).
  { intros name r Hlook. unfold Objects.bare_generator in Hlook.
    cbn [Objects.icons] in Hlook.
    repeat (apply lookup_insert_Some in Hlook as [[_ <-] | [_ Hlook]];
            [simpl; lia |]).
    rewrite lookup_empty in Hlook. discriminate Hlook. }
  destruct (generate_ticket_deterministic _ _ _ _ _ _ _ _ _ Halive Hrun1 Hrun2)
    as (_ & _ & Hsame).
  assert (Hok : is_ok res1 = true).
  { replace res1
      with (fst (Objects.generate_ticket Objects.bare_generator
                   (Fixtures.bare_world 1024 256) "./Mage4.jpg"
                   TicketGenerator.demo_ticket_data Objects.four_icons))
      by (rewrite Hrun1; reflexivity).
    vm_compute. reflexivity. }
  destruct res1 as [e1 | ticket1]; [discriminate Hok |].
  destruct res2 as [e2 | ticket2]; [contradiction |].
  destruct Hsame as (Hdiff & img & Hl1 & Hl2 & Hpure).
  exists ticket1, h1, ticket2, h2, img.
  split; [reflexivity |]. split; [exact Hrun2 |]. split; [exact Hdiff |].
  split; [exact Hl1 |]. split; [exact Hl2 |].
  apply TicketClaims.generate_ticket_shape in Hpure.
  unfold shape in Hpure. unfold size.
  injection Hpure as _ -> ->. reflexivity.
Defined.

End ObjectFacts.

(** ** More on the float operations: signs, half-integers, errors *)

Module FloatFacts.
Import Binary64 Binary64Facts Halves.

Lemma binary_round_aux_opp s m e l :
  binary_round_aux 53 1024 (negb s) m e l
  = SFopp (binary_round_aux 53 1024 s m e l).
Proof.
  unfold binary_round_aux.
  destruct (shr_fexp 53 1024 m e l) as [mrs' e'].
  destruct (shr_fexp 53 1024 _ e' loc_Exact) as [mrs'' e''].
  destruct (shr_m mrs''); [reflexivity | | reflexivity].
  destruct (e'' <=? 1024 - 53); reflexivity.
Qed.

Lemma binary_round_opp s m e :
  binary_round 53 1024 (negb s) m e = SFopp (binary_round 53 1024 s m e).
Proof.
  unfold binary_round. destruct (shl_align m e _) as [mz ez].
  apply binary_round_aux_opp.
Qed.

Lemma SFdiv_opp mx ex my ey :
  SFdiv 53 1024 (S754_finite true mx ex) (S754_finite false my ey)
  = SFopp (SFdiv 53 1024 (S754_finite false mx ex) (S754_finite false my ey)).
Proof.
  unfold SFdiv.
  destruct (SFdiv_core_binary 53 1024 (Z.pos mx) ex (Z.pos my) ey) as [[mz ez] lz].
  apply (binary_round_aux_opp false).
Qed.

(** Adding a positive float to a negative one is subtracting the
    magnitudes. *)
Lemma SFadd_neg_pos mx ex my ey :
  SFadd 53 1024 (S754_finite true mx ex) (S754_finite false my ey)
  = SFsub 53 1024 (S754_finite false my ey) (S754_finite false mx ex).
Proof.
  unfold SFadd, SFsub. cbn [cond_Zopp]. rewrite (Z.min_comm ex ey).
  f_equal.
Qed.

(** Two positive normal floats compare as their values do. *)
Lemma SFltb_normal f g :
  normal_float f -> normal_float g ->
  (SFltb f g = true <-> (B2R f < B2R g)%R).
Proof.
  intros (m1 & e1 & -> & Hm1 & _) (m2 & e2 & -> & Hm2 & _).
  pose proof (GradientClaims.normal_bounds (Z.pos m1) e1 Hm1) as Hb1.
  pose proof (GradientClaims.normal_bounds (Z.pos m2) e2 Hm2) as Hb2.
  unfold SFltb, SFcompare. cbn [B2R].
  destruct (Z.compare_spec e1 e2) as [-> | Hlt | Hgt].
  - change (Pos.compare_cont Eq m1 m2) with (Pos.compare m1 m2).
    destruct (Pos.compare_spec m1 m2) as [-> | Hlt | Hgt].
    + split; [discriminate | lra].
    + split; [intros _; apply F2R_lt; lia | reflexivity].
    + split; [discriminate |]. intros Hr. apply F2R_lt_inv in Hr. lia.
  - split; [intros _ | reflexivity].
    pose proof (bpow_le (53 + e1) (52 + e2) ltac:(lia)). lra.
  - split; [discriminate |]. intros Hr.
    pose proof (bpow_le (53 + e2) (52 + e1) ltac:(lia)). lra.
Qed.

(** The sum of two positive normal floats is the normal float nearest
    to the sum of their values. *)
Lemma SFadd_near mx ex my ey :
  2 ^ 52 <= Z.pos mx < 2 ^ 53 -> 2 ^ 52 <= Z.pos my < 2 ^ 53 ->
  -1022 <= Z.min ex ey -> Z.max ex ey < 970 ->
  exists m' e',
    SFadd 53 1024 (S754_finite false mx ex) (S754_finite false my ey)
    = S754_finite false m' e'
    /\ 2 ^ 52 <= Z.pos m' < 2 ^ 53 /\ -1074 <= e' <= 971
    /\ nearest (F2R (Z.pos mx) ex + F2R (Z.pos my) ey) (F2R (Z.pos m') e').
Proof.
  intros Hmx Hmy Hlo Hhi.
  unfold SFadd. cbn [cond_Zopp]. set (ez := Z.min ex ey) in *.
  rewrite !shl_align_down by (unfold ez; lia). cbn [fst].
  assert (Hpx : 0 < 2 ^ (ex - ez)) by (apply Z.pow_pos_nonneg; unfold ez; lia).
  assert (Hpy : 0 < 2 ^ (ey - ez)) by (apply Z.pow_pos_nonneg; unfold ez; lia).
  rewrite !Z2Pos.id by nia.
  set (a := Z.pos mx * 2 ^ (ex - ez)). set (b := Z.pos my * 2 ^ (ey - ez)).
  assert (Ha : F2R a ez = F2R (Z.pos mx) ex).
  { unfold a. replace ez with (ex - (ex - ez)) at 2 by lia.
    apply F2R_shift. unfold ez. lia. }
  assert (Hb : F2R b ez = F2R (Z.pos my) ey).
  { unfold b. replace ez with (ey - (ey - ez)) at 2 by lia.
    apply F2R_shift. unfold ez. lia. }
  assert (Hval : F2R (a + b) ez = (F2R (Z.pos mx) ex + F2R (Z.pos my) ey)%R).
  { rewrite <- Ha, <- Hb. unfold F2R. rewrite plus_IZR. ring. }
  assert (Hbig : 2 ^ 52 <= a + b) by (unfold a, b; nia).
  assert (Hdig : Zdigits2 (a + b) <= 54 + (Z.max ex ey - ez)).
  { apply digits_le. split; [lia |].
    assert (Hax : a < 2 ^ (53 + (Z.max ex ey - ez))).
    { unfold a. apply Z.lt_le_trans with (2 ^ 53 * 2 ^ (ex - ez)); [nia |].
      rewrite <- Z.pow_add_r by (unfold ez; lia).
      apply Z.pow_le_mono_r; lia. }
    assert (Hbx : b < 2 ^ (53 + (Z.max ex ey - ez))).
    { unfold b. apply Z.lt_le_trans with (2 ^ 53 * 2 ^ (ey - ez)); [nia |].
      rewrite <- Z.pow_add_r by (unfold ez; lia).
      apply Z.pow_le_mono_r; lia. }
    replace (54 + (Z.max ex ey - ez)) with (1 + (53 + (Z.max ex ey - ez))) by lia.
    rewrite Z.pow_add_r by (unfold ez; lia). change (2 ^ 1) with 2. lia. }
  assert (Hd1 : 53 <= Zdigits2 (a + b)) by (apply (digits_ge _ 52); lia).
  destruct (a + b) as [| p | p] eqn:Hp; try lia.
  cbn [binary_normalize].
  destruct (binary_round_near p ez) as (m' & e' & Hr & Hm' & He' & Hn); [lia |].
  exists m', e'. rewrite <- Hval. repeat split; assumption || lia || apply Hn.
Qed.

(** [float(-n)] is [float(n)] with the sign set. *)
Lemma of_int_neg n m e :
  0 < n ->
  PyFloat.of_int n = inr (S754_finite false m e) ->
  PyFloat.of_int (- n) = inr (S754_finite true m e).
Proof.
  intros Hn. destruct n as [| p | p]; try lia.
  unfold PyFloat.of_int, PyFloat.prec, PyFloat.emax.
  change (- Z.pos p) with (Z.neg p). cbn [binary_normalize].
  pose proof (binary_round_opp false p 0) as Ho. cbn [negb] in Ho. rewrite Ho.
  destruct (binary_round 53 1024 false p 0); intros Heq; try discriminate Heq.
  injection Heq as -> -> ->. reflexivity.
Qed.

(** [n / w] and [-n / w] for positive ints below [2^53]: the same
    magnitude, the float nearest to the quotient. *)
Lemma int_truediv_signed n w :
  0 < n < 2 ^ 53 -> 0 < w < 2 ^ 53 ->
  exists m e,
    PyFloat.int_truediv n w = inr (S754_finite false m e)
    /\ PyFloat.int_truediv (- n) w = inr (S754_finite true m e)
    /\ 2 ^ 52 <= Z.pos m < 2 ^ 53 /\ -1074 <= e <= 971
    /\ nearest (IZR n / IZR w) (F2R (Z.pos m) e).
Proof.
  intros Hn Hw. unfold PyFloat.int_truediv.
  replace (w =? 0) with false by lia.
  destruct (GradientClaims.of_int_normal n Hn) as (mi & ei & Hi & Hmi & Hei & Hvi).
  destruct (GradientClaims.of_int_normal w Hw) as (mw & ew & Hw' & Hmw & Hew & Hvw).
  rewrite (of_int_neg n mi ei ltac:(lia) Hi), Hi, Hw'.
  cbn [bind]. unfold PyFloat.prec, PyFloat.emax. rewrite SFdiv_opp.
  destruct (SFdiv_near mi ei mw ew Hmi Hmw ltac:(lia))
    as (m & e & -> & Hm & He & Hnear).
  exists m, e. split; [reflexivity |]. split; [reflexivity |].
  split; [exact Hm |]. split; [exact He |].
  rewrite <- Hvi, <- Hvw. exact Hnear.
Qed.

Lemma normal_half_int k : 0 < k < 2 ^ 53 -> normal (IZR k / 2).
Proof.
  intros Hk. destruct (normal_int k Hk) as (m & e & Hv & Hm).
  exists m, (e - 1). split; [| exact Hm].
  rewrite Hv. unfold F2R. rewrite bpow_sub, bpow_1. field.
Qed.

(** *** The edges of the crop box *)

(** [k / 2] on ints is exact. *)
Lemma int_truediv_half k :
  - 2 ^ 53 < k < 2 ^ 53 ->
  exists f, PyFloat.int_truediv k 2 = inr f /\ is_half f k.
Proof.
  intros Hk. destruct k as [| p | p].
  - exists (S754_zero false). split; [reflexivity | exists false; reflexivity].
  - destruct (int_truediv_signed (Z.pos p) 2) as (m & e & Hq & _ & Hm & He & Hn);
      [lia | lia |].
    exists (S754_finite false m e). split; [exact Hq |]. split.
    + exists m, e. repeat split; lia.
    + cbn [B2R]. apply nearest_of_normal; [apply normal_half_int; lia | exact Hn].
  - destruct (int_truediv_signed (Z.pos p) 2) as (m & e & _ & Hq & Hm & He & Hn);
      [lia | lia |].
    exists (S754_finite true m e). split; [exact Hq |]. split.
    + exists m, e. repeat split; lia.
    + cbn [SFopp negb B2R Z.opp].
      apply nearest_of_normal; [apply normal_half_int; lia | exact Hn].
Qed.

Lemma bpow_m1 : bpow (-1) = (/ 2)%R.
Proof.
  change (-1) with (0 - 1). rewrite bpow_sub, bpow_0, bpow_1. lra.
Qed.

Lemma is_half_pos g j :
  0 < j -> is_half g j -> normal_float g /\ B2R g = (IZR j / 2)%R.
Proof. intros Hj. destruct j; try lia. intros Hh. exact Hh. Qed.

Lemma is_half_neg f k :
  k < 0 -> is_half f k ->
  exists m e, f = S754_finite true m e
              /\ normal_float (S754_finite false m e)
              /\ F2R (Z.pos m) e = (IZR (- k) / 2)%R.
Proof.
  intros Hk. destruct k as [| p | p]; try lia. intros [Hn Hv].
  destruct Hn as (m & e & Hf & Hm & He).
  destruct f as [| | | s m0 e0]; try discriminate Hf.
  destruct s; try discriminate Hf. injection Hf as -> ->.
  exists m, e. split; [reflexivity |]. split; [| exact Hv].
  exists m, e. repeat split; lia.
Qed.

(** [x + d] for a half-integer [x] and an int [d] is exact. *)
Lemma float_add_int_half f k d :
  is_half f k -> 0 < d < 2 ^ 51 -> - 2 * d < k < 2 ^ 52 ->
  exists g, PyFloat.float_add_int f d = inr g
            /\ normal_float g /\ B2R g = (IZR (k + 2 * d) / 2)%R.
Proof.
  intros Hf Hd Hk. unfold PyFloat.float_add_int.
  destruct (GradientClaims.of_int_normal d ltac:(lia))
    as (md & ed & -> & Hmd & Hed & Hvd).
  cbn [bind]. unfold PyFloat.prec, PyFloat.emax.
  assert (Hsum : normal (IZR (k + 2 * d) / 2)) by (apply normal_half_int; lia).
  assert (Hreal : (IZR (k + 2 * d) / 2 = IZR k / 2 + IZR d)%R)
    by (rewrite plus_IZR, mult_IZR; field).
  destruct (Z.lt_trichotomy k 0) as [Hneg | [-> | Hpos]].
  - destruct (is_half_neg f k Hneg Hf) as (m & e & -> & Hn & Hv).
    destruct (GradientClaims.normal_float_exponent (S754_finite false m e) (-1) 52 Hn)
      as (m' & e' & Heq & Hm & He).
    { cbn [B2R]. rewrite Hv, bpow_m1, <- (GradientClaims.IZR_bpow 52) by lia.
      assert (1 <= IZR (- k) < IZR (2 ^ 52))%R
        by (split; [apply IZR_le | apply IZR_lt]; lia).
      lra. }
    injection Heq as <- <-.
    rewrite SFadd_neg_pos.
    destruct (SFsub_near md ed m e Hmd Hm) as (m' & e' & -> & Hm' & He' & Hnear);
      try lia.
    { rewrite Hv, Hvd, opp_IZR.
      assert (IZR k + 2 * IZR d > 0)%R.
      { rewrite <- mult_IZR, <- plus_IZR. apply Rlt_gt, IZR_lt. lia. }
      lra. }
    exists (S754_finite false m' e'). split; [reflexivity |].
    split; [exists m', e'; repeat split; lia |].
    cbn [B2R]. apply nearest_of_normal; [exact Hsum |].
    rewrite Hreal. rewrite Hv, Hvd, opp_IZR in Hnear.
    replace (IZR k / 2 + IZR d)%R with (IZR d - - IZR k / 2)%R by field.
    exact Hnear.
  - destruct Hf as [s ->]. cbn [SFadd].
    exists (S754_finite false md ed). split; [reflexivity |].
    split; [exists md, ed; repeat split; lia |].
    cbn [B2R]. rewrite Hvd, Hreal. simpl. lra.
  - destruct (is_half_pos f k Hpos Hf) as [Hn Hv].
    destruct (GradientClaims.normal_float_exponent f (-1) 52 Hn)
      as (m & e & -> & Hm & He).
    { rewrite Hv, bpow_m1, <- (GradientClaims.IZR_bpow 52) by lia.
      assert (1 <= IZR k < IZR (2 ^ 52))%R
        by (split; [apply IZR_le | apply IZR_lt]; lia).
      lra. }
    cbn [B2R] in Hv.
    destruct (SFadd_near m e md ed Hm Hmd) as (m' & e' & -> & Hm' & He' & Hnear);
      try lia.
    exists (S754_finite false m' e'). split; [reflexivity |].
    split; [exists m', e'; repeat split; lia |].
    cbn [B2R]. apply nearest_of_normal; [exact Hsum |].
    rewrite Hreal, <- Hv, <- Hvd. exact Hnear.
Qed.

Lemma half_even_opp k : half_even (- k) = - half_even k.
Proof.
  unfold half_even. rewrite Z.even_opp.
  pose proof (Z.div_mod k 2 ltac:(lia)) as Hk.
  pose proof (Z.mod_pos_bound k 2 ltac:(lia)) as Hr.
  pose proof (Z.div_mod (- k) 2 ltac:(lia)) as Hk'.
  pose proof (Z.mod_pos_bound (- k) 2 ltac:(lia)) as Hr'.
  destruct (Z.even k) eqn:He.
  - apply Z.even_spec in He as [c ->].
    replace (- (2 * c)) with (2 * - c) by lia.
    rewrite !(Z.mul_comm 2), !Z.div_mul by lia. reflexivity.
  - assert (Ho : Z.odd k = true) by (rewrite <- Z.negb_even, He; reflexivity).
    apply Z.odd_spec in Ho as [c ->].
    assert (H1 : (2 * c + 1) / 2 = c)
      by (symmetry; apply (Z.div_unique _ _ _ 1); lia).
    assert (H2 : (- (2 * c + 1)) / 2 = - (c + 1))
      by (symmetry; apply (Z.div_unique _ _ _ 1); lia).
    rewrite H1, H2, Z.even_opp, Z.even_add. change (Z.even 1) with false.
    destruct (Z.even c); cbn [Bool.eqb]; lia.
Qed.

(** How far apart the two rounded edges of a span of [d] end up:
    exactly [d] unless both [d] and the numerator [k] of the first
    edge are odd. *)
Lemma half_even_span k d :
  d - 1 <= half_even (k + 2 * d) - half_even k <= d + 1
  /\ (half_even (k + 2 * d) - half_even k = d
      <-> Z.even d = true \/ Z.even k = true).
Proof.
  unfold half_even.
  replace (k + 2 * d) with (k + d * 2) by lia.
  rewrite Z.div_add by lia.
  replace (k + d * 2) with (k + 2 * d) by lia.
  rewrite Z.even_add_mul_2, Z.even_add.
  destruct (Z.even k), (Z.even (k / 2)), (Z.even d); cbn [Bool.eqb];
    (split; [lia |]); split; intros; try lia; try tauto;
    destruct H as [H | H]; discriminate H.
Qed.

(** The two rounded edges of a span of [d] leave margins that differ
    by at most one. *)
Lemma half_even_centre k d :
  -1 <= half_even k + half_even (k + 2 * d) - (k + d) <= 1.
Proof.
  unfold half_even.
  replace (k + 2 * d) with (k + d * 2) by lia.
  rewrite Z.div_add by lia.
  replace (k + d * 2) with (k + 2 * d) by lia.
  rewrite Z.even_add_mul_2, Z.even_add.
  pose proof (Z.div_mod k 2 ltac:(lia)) as Hdm.
  pose proof (Zmod_even k) as Hmod.
  destruct (Z.even k), (Z.even (k / 2)), (Z.even d); cbn [Bool.eqb]; lia.
Qed.

(** [round] on a float with a full mantissa that is [k / 2]. *)
Lemma round_magnitude s m e k :
  0 < k -> F2R (Z.pos m) e = (IZR k / 2)%R ->
  PyFloat.round (S754_finite s m e) = inr (PyFloat.cond_opp s (half_even k)).
Proof.
  intros Hk Hv. unfold PyFloat.round.
  assert (Hv2 : (IZR (2 * Z.pos m) * bpow e = IZR k)%R).
  { rewrite mult_IZR. unfold F2R in Hv. lra. }
  destruct (Z.leb_spec 0 e) as [He | He].
  - rewrite Z.shiftl_mul_pow2 by lia.
    rewrite bpow_nonneg_IZR, <- mult_IZR in Hv2 by lia.
    apply eq_IZR in Hv2.
    set (v := Z.pos m * 2 ^ e).
    assert (Hk2 : k = v * 2) by (unfold v; lia).
    unfold half_even. rewrite Hk2, Z.div_mul, Z.even_mul by lia.
    change (Z.even 2) with true. rewrite orb_true_r. reflexivity.
  - set (h := - e). assert (Hh : 0 < h) by (unfold h; lia).
    assert (Hz : 2 * Z.pos m = k * 2 ^ h).
    { apply eq_IZR. rewrite (mult_IZR k), <- bpow_nonneg_IZR by lia.
      rewrite <- Hv2, Rmult_assoc, <- bpow_add.
      replace (e + h) with 0 by (unfold h; lia). rewrite bpow_0. ring. }
    assert (Hp : 2 ^ h = 2 * 2 ^ (h - 1)).
    { replace h with (1 + (h - 1)) at 1 by lia.
      rewrite Z.pow_add_r by lia. reflexivity. }
    set (P := 2 ^ (h - 1)) in *.
    assert (HP : 0 < P) by (apply Z.pow_pos_nonneg; lia).
    assert (Hm : Z.pos m = k * P) by lia.
    rewrite Z.shiftr_div_pow2, !Z.shiftl_mul_pow2 by lia.
    replace (- e - 1) with (h - 1) by (unfold h; lia). fold h. fold P.
    rewrite Hp, Hm, Z.div_mul_cancel_r by lia.
    pose proof (Z.div_mod k 2 ltac:(lia)) as Hdm.
    pose proof (Z.mod_pos_bound k 2 ltac:(lia)) as Hr.
    unfold half_even. rewrite Z.mul_1_l.
    destruct (Z.even k) eqn:Hev.
    + assert (Hmod : k mod 2 = 0).
      { apply Z.even_spec in Hev as [c ->]. rewrite Z.mul_comm. apply Z.mod_mul. lia. }
      replace (k * P - k / 2 * (2 * P)) with 0 by nia.
      replace (0 ?= P) with Lt by (symmetry; apply Z.compare_lt_iff; lia).
      reflexivity.
    + assert (Hmod : k mod 2 = 1).
      { assert (Ho : Z.odd k = true) by (rewrite <- Z.negb_even, Hev; reflexivity).
        apply Z.odd_spec in Ho as [c ->].
        replace (2 * c + 1) with (1 + c * 2) by lia. rewrite Z.mod_add by lia.
        reflexivity. }
      replace (k * P - k / 2 * (2 * P)) with P by nia.
      rewrite Z.compare_refl, <- Z.negb_even.
      destruct (Z.even (k / 2)); reflexivity.
Qed.

(** [round] of a half-integer. *)
Lemma round_half f k :
  is_half f k -> PyFloat.round f = inr (half_even k).
Proof.
  intros Hf. destruct (Z.lt_trichotomy k 0) as [Hneg | [-> | Hpos]].
  - destruct (is_half_neg f k Hneg Hf) as (m & e & -> & _ & Hv).
    rewrite (round_magnitude true m e (- k)) by (lia || exact Hv).
    cbn [PyFloat.cond_opp]. rewrite half_even_opp. f_equal. lia.
  - destruct Hf as [s ->]. reflexivity.
  - destruct (is_half_pos f k Hpos Hf) as [(m & e & -> & _) Hv].
    rewrite (round_magnitude false m e k) by (lia || exact Hv). reflexivity.
Qed.

(** The right edge of a crop box is never left of its left edge. *)
Lemma lt_half f k g j :
  is_half f k -> normal_float g -> B2R g = (IZR j / 2)%R -> k <= j ->
  PyFloat.lt g f = false.
Proof.
  intros Hf Hg Hv Hkj. unfold PyFloat.lt.
  destruct (Z.lt_trichotomy k 0) as [Hneg | [-> | Hpos]].
  - destruct (is_half_neg f k Hneg Hf) as (m & e & -> & _).
    destruct Hg as (mg & eg & -> & _). reflexivity.
  - destruct Hf as [s ->]. destruct Hg as (mg & eg & -> & _). reflexivity.
  - destruct (is_half_pos f k Hpos Hf) as [Hn Hvf].
    destruct (SFltb g f) eqn:Hlt; [exfalso | reflexivity].
    apply (SFltb_normal g f Hg Hn) in Hlt. rewrite Hv, Hvf in Hlt.
    apply IZR_le in Hkj. lra.
Qed.

(** *** How far a rounded value is from the exact one *)

(** Rounding to nearest moves a value by at most half a unit in the
    last place, which is [2^-53] of the result. *)
Lemma nearest_error x f : nearest x f -> (Rabs (x - f) <= f * bpow (-53))%R.
Proof.
  intros [(m & e & -> & Hm) Hmin].
  assert (Hup : normal (F2R (m + 1) e)).
  { destruct (Z.eq_dec (m + 1) (2 ^ 53)) as [Heq | Hne].
    - exists (2 ^ 52), (e + 1). split; [| lia].
      rewrite Heq, !F2R_pow2 by lia. f_equal. lia.
    - exists (m + 1), e. split; [reflexivity | lia]. }
  assert (Hhalf : (bpow (e - 1) = bpow e / 2)%R) by (rewrite bpow_sub, bpow_1; reflexivity).
  pose proof (bpow_gt_0 e) as Hu.
  assert (Hdn : exists g, normal g /\ (F2R m e - bpow e <= g < F2R m e)%R).
  { destruct (Z.eq_dec m (2 ^ 52)) as [-> | Hne].
    - exists (F2R (2 ^ 53 - 1) (e - 1)). split.
      + exists (2 ^ 53 - 1), (e - 1). split; [reflexivity | lia].
      + rewrite F2R_minus, F2R_1, !F2R_pow2 by lia.
        replace (53 + (e - 1)) with (52 + e) by lia. lra.
    - exists (F2R (m - 1) e). split.
      + exists (m - 1), e. split; [reflexivity | lia].
      + rewrite F2R_minus, F2R_1. lra. }
  destruct Hdn as (g & Hg & Hgb).
  pose proof (Hmin _ Hup) as H1. pose proof (Hmin _ Hg) as H0.
  rewrite F2R_succ in H1.
  assert (Habs : (Rabs (x - F2R m e) <= bpow e / 2)%R).
  { revert H0 H1. unfold Rabs. repeat destruct Rcase_abs; lra. }
  assert (Hlow : (bpow (52 + e) <= F2R m e)%R).
  { rewrite <- F2R_pow2 by lia. apply F2R_le. lia. }
  assert (Hscale : (bpow (52 + e) * bpow (-53) = bpow e / 2)%R).
  { rewrite <- bpow_add, <- Hhalf. f_equal. lia. }
  pose proof (bpow_gt_0 (-53)) as He.
  assert (bpow (52 + e) * bpow (-53) <= F2R m e * bpow (-53))%R
    by (apply Rmult_le_compat_r; lra).
  lra.
Qed.

Lemma bpow_m53 : (bpow (-53) * 9007199254740992 = 1)%R.
Proof.
  replace 9007199254740992%R with (bpow 53)
    by (rewrite bpow_nonneg_IZR by lia; reflexivity).
  rewrite <- bpow_add. apply bpow_0.
Qed.

End FloatFacts.

(** ** [process_background]: the fitted background *)

Module BackgroundFacts.
Import Binary64 Binary64Facts PIL PILFacts TicketGenerator Halves FloatFacts Fixtures Samples.

Lemma div_ge a b c : (0 < b -> c * b <= a -> c <= a / b)%R.
Proof.
  intros Hb Hc. pose proof (Rinv_0_lt_compat b Hb) as Hi.
  replace c with (c * b * / b)%R by (field; lra).
  apply Rmult_le_compat_r; [lra | exact Hc].
Qed.

Lemma div_le a b c : (0 < b -> a <= c * b -> a / b <= c)%R.
Proof.
  intros Hb Hc. pose proof (Rinv_0_lt_compat b Hb) as Hi.
  replace c with (c * b * / b)%R by (field; lra).
  apply Rmult_le_compat_r; [lra | exact Hc].
Qed.

Lemma div_gt a b c : (0 < b -> c * b < a -> c < a / b)%R.
Proof.
  intros Hb Hc. pose proof (Rinv_0_lt_compat b Hb) as Hi.
  replace c with (c * b * / b)%R by (field; lra).
  apply Rmult_lt_compat_r; [lra | exact Hc].
Qed.

Lemma div_mul a b : (0 < b -> a / b * b = a)%R.
Proof. intros Hb. field. lra. Qed.

(** A normal number above the float nearest to [x] is above [x]. *)
Lemma above_nearest x f g : nearest x f -> normal g -> (f < g)%R -> (x < g)%R.
Proof.
  intros [_ Hmin] Hg Hfg. specialize (Hmin g Hg).
  destruct (Rlt_le_dec x g) as [Hlt | Hge]; [exact Hlt | exfalso].
  rewrite !Rabs_pos_eq in Hmin by lra. lra.
Qed.

Lemma bpow_m16 : (bpow (-16) * 65536 = 1)%R.
Proof.
  replace 65536%R with (bpow 16) by (rewrite bpow_nonneg_IZR by lia; reflexivity).
  rewrite <- bpow_add. apply bpow_0.
Qed.

Lemma bpow_m13 : (bpow (-13) * 8192 = 1)%R.
Proof.
  replace 8192%R with (bpow 13) by (rewrite bpow_nonneg_IZR by lia; reflexivity).
  rewrite <- bpow_add. apply bpow_0.
Qed.

(** [a / b] on two positive ints, between two normal numbers that
    bound the quotient. *)
Lemma int_truediv_between a b lo hi :
  0 < a < 2 ^ 53 -> 0 < b < 2 ^ 53 -> normal lo -> normal hi ->
  (lo <= IZR a / IZR b <= hi)%R ->
  exists q,
    PyFloat.int_truediv a b = inr q /\ normal_float q
    /\ nearest (IZR a / IZR b) (B2R q) /\ (lo <= B2R q <= hi)%R.
Proof.
  intros Ha Hb Hlo Hhi [Hl Hh].
  destruct (GradientClaims.int_truediv_near a b Ha Hb) as (q & Hq & Hn & Hnear).
  exists q. split; [exact Hq |]. split; [exact Hn |]. split; [exact Hnear |].
  split; [eapply nearest_ge_normal | eapply nearest_le_normal]; eassumption.
Qed.

(** The aspect ratio of an image at most 65535 on a side. *)
Lemma aspect_ratio a b :
  1 <= a <= 65535 -> 1 <= b <= 65535 ->
  exists q,
    PyFloat.int_truediv a b = inr q /\ normal_float q
    /\ nearest (IZR a / IZR b) (B2R q) /\ (bpow (-16) <= B2R q <= 65535)%R.
Proof.
  intros Ha Hb.
  assert (Hra : (1 <= IZR a <= 65535)%R) by (split; apply IZR_le; lia).
  assert (Hrb : (1 <= IZR b <= 65535)%R) by (split; apply IZR_le; lia).
  pose proof bpow_m16 as H16. pose proof (bpow_gt_0 (-16)) as Hp.
  apply int_truediv_between; try lia.
  - apply GradientClaims.normal_bpow.
  - apply normal_int. lia.
  - split; [apply div_ge | apply div_le]; nra.
Qed.

(** The aspect ratio of a canvas at most 8191 on a side. *)
Lemma canvas_ratio a b :
  1 <= a <= 8191 -> 1 <= b <= 8191 ->
  exists q,
    PyFloat.int_truediv a b = inr q /\ normal_float q
    /\ nearest (IZR a / IZR b) (B2R q) /\ (B2R q <= IZR a)%R.
Proof.
  intros Ha Hb.
  assert (Hra : (1 <= IZR a <= 8191)%R) by (split; apply IZR_le; lia).
  assert (Hrb : (1 <= IZR b <= 8191)%R) by (split; apply IZR_le; lia).
  pose proof bpow_m13 as H13. pose proof (bpow_gt_0 (-13)) as Hp.
  destruct (int_truediv_between a b (bpow (-13)) (IZR a))
    as (q & Hq & Hn & Hnear & _ & Hhi); try lia.
  - apply GradientClaims.normal_bpow.
  - apply normal_int. lia.
  - split; [apply div_ge | apply div_le]; nra.
  - exists q. repeat split; assumption || apply Hnear.
Qed.

(** The integer part of a value that is within [err] of the ratio
    [n / d] of two ints, [err] being less than [1 / d]: the quotient
    [n // d], or one less when the division is exact. *)
Lemma floor_of_ratio n d p z err :
  0 < d -> 0 <= n -> (err * IZR d < 1)%R ->
  (Rabs (p - IZR n / IZR d) <= err)%R ->
  (IZR z <= p < IZR z + 1)%R ->
  n / d - 1 <= z <= n / d /\ (n mod d <> 0 -> z = n / d).
Proof.
  intros Hd Hn Herr Habs Hfl.
  pose proof (Z.div_mod n d ltac:(lia)) as Hdm.
  pose proof (Z.mod_pos_bound n d Hd) as Hr.
  set (k := n / d) in *. set (r := n mod d) in *.
  assert (Hdr : (1 <= IZR d)%R) by (apply IZR_le; lia).
  set (v := (IZR n / IZR d)%R) in *.
  assert (Hv : (v * IZR d = IZR d * IZR k + IZR r)%R).
  { unfold v. rewrite div_mul by lra.
    rewrite <- mult_IZR, <- plus_IZR. f_equal. exact Hdm. }
  assert (Hrr : (0 <= IZR r <= IZR d - 1)%R).
  { split; [apply IZR_le; lia |].
    rewrite <- (minus_IZR d 1). apply IZR_le. lia. }
  assert (Hb : (- err <= p - v <= err)%R).
  { revert Habs. unfold Rabs. destruct Rcase_abs; lra. }
  assert (Hup : (IZR z * IZR d < (IZR k + 1) * IZR d)%R) by nra.
  assert (Hlo : ((IZR k - 2) * IZR d < IZR z * IZR d)%R) by nra.
  assert (Hzk : z <= k).
  { assert (Hlt : (IZR z < IZR (k + 1))%R).
    { rewrite plus_IZR. apply (Rmult_lt_reg_r (IZR d)); lra. }
    apply lt_IZR in Hlt. lia. }
  assert (Hkz : k - 1 <= z).
  { assert (Hlt : (IZR (k - 2) < IZR z)%R).
    { rewrite minus_IZR. apply (Rmult_lt_reg_r (IZR d)); lra. }
    apply lt_IZR in Hlt. lia. }
  split; [lia |]. intros Hne.
  assert (Hr1 : (1 <= IZR r)%R) by (apply IZR_le; lia).
  assert (Hlo' : ((IZR k - 1) * IZR d < IZR z * IZR d)%R) by nra.
  assert (Hlt : (IZR (k - 1) < IZR z)%R).
  { rewrite minus_IZR. apply (Rmult_lt_reg_r (IZR d)); lra. }
  apply lt_IZR in Hlt. lia.
Qed.

Lemma Rabs_bounds x e : (Rabs x <= e -> - e <= x <= e)%R.
Proof. unfold Rabs. destruct Rcase_abs; lra. Qed.

Lemma Rabs_of_bounds x e : (- e <= x <= e -> Rabs x <= e)%R.
Proof. unfold Rabs. destruct Rcase_abs; lra. Qed.

(** [2^30] roundings of [2^-53] each stay below [1 / 65535]. *)
Lemma small_error d :
  1 <= d <= 65535 -> (1073741824 * bpow (-53) * IZR d < 1)%R.
Proof.
  intros Hd. pose proof bpow_m53 as H53. pose proof (bpow_gt_0 (-53)) as He.
  assert (Hdr : (1 <= IZR d <= 65535)%R) by (split; apply IZR_le; lia).
  nra.
Qed.

(** [int(new_height * bg_aspect)] when the background is the wider
    one: at least the canvas width; and the exact
    [height * bg_width // bg_height], or one less when that division
    is exact. *)
Lemma scaled_width W H bw bh q :
  1 <= W <= 8191 -> 1 <= H <= 8191 -> 1 <= bw <= 65535 -> 1 <= bh <= 65535 ->
  normal_float q -> nearest (IZR bw / IZR bh) (B2R q) ->
  (bpow (-16) <= B2R q <= 65535)%R ->
  (IZR W / IZR H < B2R q)%R ->
  exists scaled z,
    PyFloat.int_mul_float H q = inr scaled /\ PyFloat.to_int scaled = inr z
    /\ W <= z <= 8191 * 65535
    /\ H * bw / bh - 1 <= z <= H * bw / bh
    /\ ((H * bw) mod bh <> 0 -> z = H * bw / bh).
Proof.
  intros HW HH Hbw Hbh Hq Hnear Hbq Hwide.
  assert (HrW : (1 <= IZR W <= 8191)%R) by (split; apply IZR_le; lia).
  assert (HrH : (1 <= IZR H <= 8191)%R) by (split; apply IZR_le; lia).
  assert (Hrbh : (1 <= IZR bh <= 65535)%R) by (split; apply IZR_le; lia).
  destruct (GradientClaims.normal_float_exponent q (-16) 16 Hq)
    as (mq & eq & -> & Hmq & Heq).
  { rewrite (bpow_nonneg_IZR 16) by lia. change (IZR (2 ^ 16)) with 65536%R. lra. }
  cbn [B2R] in *.
  unfold PyFloat.int_mul_float.
  destruct (GradientClaims.of_int_normal H ltac:(lia))
    as (mh & eh & -> & Hmh & Heh & Hvh).
  cbn [bind]. unfold PyFloat.prec, PyFloat.emax.
  destruct (SFmul_near mh eh mq eq Hmh Hmq ltac:(lia))
    as (m & e & -> & Hm & He & Hnearp).
  rewrite Hvh in Hnearp.
  destruct (GradientClaims.to_int_floor m e) as (z & Hz & Hfl).
  exists (S754_finite false m e), z. split; [reflexivity |]. split; [exact Hz |].
  set (fq := F2R (Z.pos mq) eq) in *. set (fp := F2R (Z.pos m) e) in *.
  assert (Hlow : (IZR W <= fp)%R).
  { eapply nearest_ge_normal; [exact Hnearp | apply normal_int; lia |].
    pose proof (div_mul (IZR W) (IZR H) ltac:(lra)). nra. }
  assert (Hupp : (fp <= IZR (8191 * 65535))%R).
  { eapply nearest_le_normal; [exact Hnearp | apply normal_int; lia |].
    rewrite mult_IZR. nra. }
  rewrite mult_IZR in Hupp.
  split.
  { split.
    - assert (Hlt : (IZR W < IZR (z + 1))%R) by (rewrite plus_IZR; lra).
      apply lt_IZR in Hlt. lia.
    - apply le_IZR. rewrite mult_IZR. lra. }
  (* the error of the two roundings *)
  pose proof (bpow_gt_0 (-53)) as Heps.
  apply nearest_error, Rabs_bounds in Hnear.
  apply nearest_error, Rabs_bounds in Hnearp.
  set (eps := bpow (-53)) in *.
  assert (Hqe : (fq * eps <= 65535 * eps)%R) by nra.
  assert (Hpe : (fp * eps <= 8191 * 65535 * eps)%R) by nra.
  assert (Hhq : (IZR H * (fq * eps) <= 8191 * 65535 * eps)%R) by nra.
  apply (floor_of_ratio (H * bw) bh fp z (1073741824 * eps)); try lia.
  - apply small_error. lia.
  - apply Rabs_of_bounds. rewrite mult_IZR.
    replace (IZR H * IZR bw / IZR bh)%R with (IZR H * (IZR bw / IZR bh))%R
      by (field; lra).
    nra.
  - exact Hfl.
Qed.

(** [int(new_width / bg_aspect)] otherwise: at least one row; and the
    exact [width * bg_height // bg_width], or one less when that
    division is exact. *)
Lemma scaled_height W bw bh q :
  1 <= W <= 8191 -> 1 <= bw <= 65535 -> 1 <= bh <= 65535 ->
  normal_float q -> nearest (IZR bw / IZR bh) (B2R q) ->
  (bpow (-16) <= B2R q <= IZR W)%R ->
  exists scaled z,
    PyFloat.int_div_float W q = inr scaled /\ PyFloat.to_int scaled = inr z
    /\ 1 <= z <= 8191 * 65536
    /\ W * bh / bw - 1 <= z <= W * bh / bw
    /\ ((W * bh) mod bw <> 0 -> z = W * bh / bw).
Proof.
  intros HW Hbw Hbh Hq Hnear Hbq.
  assert (HrW : (1 <= IZR W <= 8191)%R) by (split; apply IZR_le; lia).
  assert (Hrbw : (1 <= IZR bw <= 65535)%R) by (split; apply IZR_le; lia).
  assert (Hrbh : (1 <= IZR bh <= 65535)%R) by (split; apply IZR_le; lia).
  pose proof bpow_m16 as H16. pose proof (bpow_gt_0 (-16)) as Hp.
  destruct (GradientClaims.normal_float_exponent q (-16) 13 Hq)
    as (mq & eq & -> & Hmq & Heq).
  { rewrite (bpow_nonneg_IZR 13) by lia. change (IZR (2 ^ 13)) with 8192%R. lra. }
  cbn [B2R] in *.
  unfold PyFloat.int_div_float. cbn [PyFloat.is_zero].
  destruct (GradientClaims.of_int_normal W ltac:(lia))
    as (mw & ew & -> & Hmw & Hew & Hvw).
  cbn [bind]. unfold PyFloat.prec, PyFloat.emax.
  destruct (SFdiv_near mw ew mq eq Hmw Hmq ltac:(lia))
    as (m & e & -> & Hm & He & Hneard).
  rewrite Hvw in Hneard.
  destruct (GradientClaims.to_int_floor m e) as (z & Hz & Hfl).
  exists (S754_finite false m e), z. split; [reflexivity |]. split; [exact Hz |].
  set (fq := F2R (Z.pos mq) eq) in *. set (fd := F2R (Z.pos m) e) in *.
  assert (Hlow : (1 <= fd)%R).
  { eapply nearest_ge_normal; [exact Hneard | apply GradientClaims.normal_1 |].
    apply div_ge; lra. }
  assert (Hupp : (fd <= IZR (8191 * 65536))%R).
  { eapply nearest_le_normal; [exact Hneard | apply normal_int; lia |].
    rewrite mult_IZR. apply div_le; [lra |]. nra. }
  rewrite mult_IZR in Hupp.
  split.
  { split.
    - assert (Hlt : (IZR 1 < IZR (z + 1))%R) by (rewrite plus_IZR; lra).
      apply lt_IZR in Hlt. lia.
    - apply le_IZR. rewrite mult_IZR. lra. }
  (* the error of the two roundings *)
  pose proof (bpow_gt_0 (-53)) as Heps.
  apply nearest_error, Rabs_bounds in Hnear.
  apply nearest_error, Rabs_bounds in Hneard.
  set (eps := bpow (-53)) in *.
  set (x := (IZR bw / IZR bh)%R) in *.
  assert (Hx : (x * IZR bh = IZR bw)%R) by (unfold x; apply div_mul; lra).
  set (a := (IZR W / fq)%R) in *.
  assert (Ha : (a * fq = IZR W)%R) by (unfold a; apply div_mul; lra).
  set (v := (IZR W * IZR bh / IZR bw)%R).
  assert (Hv : (v * IZR bw = IZR W * IZR bh)%R) by (unfold v; apply div_mul; lra).
  assert (Hvx : (v * x = IZR W)%R).
  { apply (Rmult_eq_reg_r (IZR bh)); [| lra].
    replace (v * x * IZR bh)%R with (v * (x * IZR bh))%R by ring.
    rewrite Hx. lra. }
  assert (Hv0 : (0 <= v <= 8191 * 65535)%R).
  { unfold v. split; [apply div_ge; nra | apply div_le; nra]. }
  assert (Hav : (- (v * eps) <= a - v <= v * eps)%R).
  { assert (Heq' : ((a - v) * fq = v * (x - fq))%R) by nra.
    split; apply (Rmult_le_reg_r fq); try lra; nra. }
  assert (Hde : (fd * eps <= 8191 * 65536 * eps)%R) by nra.
  assert (Hve : (v * eps <= 8191 * 65535 * eps)%R) by nra.
  apply (floor_of_ratio (W * bh) bw fd z (1073741824 * eps)); try lia.
  - apply small_error. lia.
  - apply Rabs_of_bounds. rewrite mult_IZR. fold v. lra.
  - exact Hfl.
Qed.

(** A background strictly wider than the canvas, as ratios of ints,
    is wider as floats too. *)
Lemma wider_as_floats W H bw bh q t :
  1 <= W <= 8191 -> 1 <= H <= 8191 -> 1 <= bw <= 65535 -> 1 <= bh <= 65535 ->
  nearest (IZR bw / IZR bh) q -> nearest (IZR W / IZR H) t ->
  (q <= 65535)%R -> (t <= 8191)%R ->
  W * bh < bw * H -> (t < q)%R.
Proof.
  intros HW HH Hbw Hbh Hq Ht Hq1 Ht1 Hwide.
  assert (HrH : (1 <= IZR H <= 8191)%R) by (split; apply IZR_le; lia).
  assert (Hrbh : (1 <= IZR bh <= 65535)%R) by (split; apply IZR_le; lia).
  pose proof bpow_m53 as H53. pose proof (bpow_gt_0 (-53)) as Heps.
  assert (Hq0 : (0 < q)%R).
  { destruct Hq as [(m & e & -> & Hm) _].
    pose proof (GradientClaims.normal_bounds m e Hm). pose proof (bpow_gt_0 (52 + e)).
    lra. }
  assert (Ht0 : (0 < t)%R).
  { destruct Ht as [(m & e & -> & Hm) _].
    pose proof (GradientClaims.normal_bounds m e Hm). pose proof (bpow_gt_0 (52 + e)).
    lra. }
  apply nearest_error, Rabs_bounds in Hq. apply nearest_error, Rabs_bounds in Ht.
  set (eps := bpow (-53)) in *.
  set (x := (IZR bw / IZR bh)%R) in *. set (y := (IZR W / IZR H)%R) in *.
  assert (Hx : (x * IZR bh = IZR bw)%R) by (unfold x; apply div_mul; lra).
  assert (Hy : (y * IZR H = IZR W)%R) by (unfold y; apply div_mul; lra).
  assert (Hgap : (1 <= (x - y) * (IZR bh * IZR H))%R).
  { replace ((x - y) * (IZR bh * IZR H))%R
      with (x * IZR bh * IZR H - y * IZR H * IZR bh)%R by ring.
    rewrite Hx, Hy, <- !mult_IZR, <- minus_IZR. apply IZR_le. lia. }
  assert (HG : (0 < IZR bh * IZR H <= 536870912)%R) by nra.
  assert (Hxy : (/ 536870912 <= x - y)%R).
  { assert (Hpos : (0 < x - y)%R) by nra.
    apply (Rmult_le_reg_r 536870912); [lra |].
    rewrite Rinv_l by lra. nra. }
  assert (Hqe : (q * eps <= 65535 * eps)%R) by nra.
  assert (Hte : (t * eps <= 8191 * eps)%R) by nra.
  lra.
Qed.

Lemma is_half_of g j :
  0 < j -> normal_float g -> B2R g = (IZR j / 2)%R -> is_half g j.
Proof. intros Hj Hn Hv. destruct j; try lia. split; assumption. Qed.

(** The crop of [process_background], on a scaled image of any size:
    each edge is a half-integer, rounded on its own; what lies outside
    the scaled image comes out blank. *)
Lemma crop_fits (im : Image) nw nh W H :
  1 <= W < 2 ^ 51 -> 1 <= H < 2 ^ 51 -> 1 <= nw < 2 ^ 52 -> 1 <= nh < 2 ^ 52 ->
  exists img,
    (let* x_left := PyFloat.int_truediv (nw - W) 2 in
     let* y_top := PyFloat.int_truediv (nh - H) 2 in
     let* x_right := PyFloat.float_add_int x_left W in
     let* y_bottom := PyFloat.float_add_int y_top H in
     crop im (x_left, y_top, x_right, y_bottom)) = inr img
    /\ mode img = mode im
    /\ width img = half_even (nw - W + 2 * W) - half_even (nw - W)
    /\ height img = half_even (nh - H + 2 * H) - half_even (nh - H)
    /\ forall x y,
         px img x y
         = if in_bounds im (x + half_even (nw - W)) (y + half_even (nh - H))
           then px im (x + half_even (nw - W)) (y + half_even (nh - H))
           else mkColor 0 0 0 0.
Proof.
  intros HW HH Hnw Hnh.
  assert (Hp : 2 ^ 52 < 2 ^ 53) by (apply Z.pow_lt_mono_r; lia).
  assert (Hp' : 2 ^ 51 < 2 ^ 52) by (apply Z.pow_lt_mono_r; lia).
  destruct (int_truediv_half (nw - W)) as (xl & Hxl & Hhx); [lia |].
  destruct (int_truediv_half (nh - H)) as (yt & Hyt & Hhy); [lia |].
  destruct (float_add_int_half xl (nw - W) W Hhx) as (xr & Hxr & Hnx & Hvx);
    [lia | lia |].
  destruct (float_add_int_half yt (nh - H) H Hhy) as (yb & Hyb & Hny & Hvy);
    [lia | lia |].
  rewrite Hxl. cbn [bind]. rewrite Hyt. cbn [bind].
  rewrite Hxr. cbn [bind]. rewrite Hyb. cbn [bind].
  unfold crop.
  rewrite (lt_half xl (nw - W) xr (nw - W + 2 * W) Hhx Hnx Hvx) by lia.
  rewrite (lt_half yt (nh - H) yb (nh - H + 2 * H) Hhy Hny Hvy) by lia.
  rewrite (round_half xl _ Hhx), (round_half yt _ Hhy).
  rewrite (round_half xr (nw - W + 2 * W)) by (apply is_half_of; [lia | assumption ..]).
  rewrite (round_half yb (nh - H + 2 * H)) by (apply is_half_of; [lia | assumption ..]).
  cbn [bind ok]. eexists. split; [reflexivity |]. cbn [mode width height px].
  pose proof (half_even_span (nw - W) W) as [Hsx _].
  pose proof (half_even_span (nh - H) H) as [Hsy _].
  split; [reflexivity |]. split; [lia |]. split; [lia |]. reflexivity.
Qed.

Section WithRaster.
Context `{Raster}.

(** What [process_background] goes through: the file is scaled to
    [nw] by [nh], one of them the canvas side and the other the
    integer part of the scaled side, then cropped between rounded
    half-integer edges. *)
Lemma process_background_run self w background_path ticket bg :
  image_file w background_path = Some bg ->
  1 <= width bg <= 65535 -> 1 <= height bg <= 65535 ->
  1 <= cfg_width (config self) <= 8191 ->
  1 <= cfg_height (config self) <= 8191 ->
  exists nw nh,
    1 <= nw <= 8191 * 65536 /\ 1 <= nh <= 8191 * 65536
    /\ (if cfg_width (config self) * height bg <? width bg * cfg_height (config self)
        then nh = cfg_height (config self)
             /\ cfg_width (config self) <= nw
             /\ cfg_height (config self) * width bg / height bg - 1 <= nw
                <= cfg_height (config self) * width bg / height bg
             /\ ((cfg_height (config self) * width bg) mod height bg <> 0 ->
                 nw = cfg_height (config self) * width bg / height bg)
        else nw = cfg_width (config self)
             /\ cfg_width (config self) * height bg / width bg - 1 <= nh
                <= cfg_width (config self) * height bg / width bg
             /\ ((cfg_width (config self) * height bg) mod width bg <> 0 ->
                 nh = cfg_width (config self) * height bg / width bg))
    /\ ((resize (mkImage (mode bg) (width bg) (height bg) (px bg) []) (nw, nh)
           LANCZOS = inl MemoryError
         /\ process_background self w background_path ticket = inl MemoryError)
        \/ exists scaled img,
             resize (mkImage (mode bg) (width bg) (height bg) (px bg) []) (nw, nh)
               LANCZOS = inr scaled
             /\ process_background self w background_path ticket = inr img
             /\ mode img = mode bg
             /\ width img
                = half_even (nw - cfg_width (config self)
                             + 2 * cfg_width (config self))
                  - half_even (nw - cfg_width (config self))
             /\ height img
                = half_even (nh - cfg_height (config self)
                             + 2 * cfg_height (config self))
                  - half_even (nh - cfg_height (config self))
             /\ forall x y,
                  px img x y
                  = if in_bounds scaled
                         (x + half_even (nw - cfg_width (config self)))
                         (y + half_even (nh - cfg_height (config self)))
                    then px scaled
                           (x + half_even (nw - cfg_width (config self)))
                           (y + half_even (nh - cfg_height (config self)))
                    else mkColor 0 0 0 0).
Proof.
  intros Hfile Hbw Hbh HW HH.
  unfold process_background, open. rewrite Hfile. cbn [bind ok].
  cbn [width height mode px].
  set (W := cfg_width (config self)) in *.
  set (Hc := cfg_height (config self)) in *.
  destruct (aspect_ratio (width bg) (height bg) Hbw Hbh)
    as (q & -> & Hnq & Hnearq & Hbq).
  cbn [bind].
  destruct (canvas_ratio W Hc HW HH) as (t & -> & Hnt & Hneart & Hbt).
  cbn [bind].
  assert (Hp : 8191 * 65536 < 2 ^ 51) by (vm_compute; reflexivity).
  assert (Hp' : 2 ^ 51 < 2 ^ 52) by (apply Z.pow_lt_mono_r; lia).
  assert (HrW : (IZR W <= 8191)%R) by (apply IZR_le; lia).
  (* the branch the floats take, against the ints *)
  assert (Hbranch : PyFloat.gt q t = true \/
                    (PyFloat.gt q t = false /\ W * height bg >= width bg * Hc)).
  { destruct (PyFloat.gt q t) eqn:Hgt; [left; reflexivity | right].
    split; [reflexivity |].
    destruct (Z_lt_ge_dec (W * height bg) (width bg * Hc)) as [Hlt | Hge];
      [exfalso | exact Hge].
    pose proof (wider_as_floats W Hc (width bg) (height bg) _ _ HW HH Hbw Hbh
                  Hnearq Hneart ltac:(lra) ltac:(lra) Hlt) as Hfl.
    apply (SFltb_normal t q Hnt Hnq) in Hfl. unfold PyFloat.gt in Hgt.
    congruence. }
  destruct Hbranch as [Hgt | [Hgt Hints]]; rewrite Hgt.
  - unfold PyFloat.gt in Hgt. apply (SFltb_normal t q Hnt Hnq) in Hgt.
    pose proof (above_nearest _ _ _ Hneart (normal_float_normal q Hnq) Hgt) as Hwide.
    destruct (scaled_width W Hc (width bg) (height bg) q HW HH Hbw Hbh Hnq Hnearq
                Hbq Hwide) as (scaled & z & Hs & Hz & Hzb & Hzq & Hzx).
    cbv zeta. rewrite Hs. cbn [bind]. rewrite Hz. cbn [bind ok].
    exists z, Hc. split; [lia |]. split; [lia |]. split;
      [| destruct (resize_cases
                    (mkImage (mode bg) (width bg) (height bg) (px bg) []) z Hc
                    LANCZOS)
           as [Hmem | (r & Hr & Hmode)]; [int_max_lia | int_max_lia | |];
         [left; rewrite Hmem; split; reflexivity |];
         right; rewrite Hr; cbn [bind];
         destruct (crop_fits r z Hc W Hc) as (img & Hrun & Hm & Hwi & Hhe & Hpx);
         try lia;
         exists r, img; split; [reflexivity |]; split; [exact Hrun |];
         split; [rewrite Hm; exact Hmode |]; repeat split; assumption].
    destruct (Z.ltb_spec (W * height bg) (width bg * Hc)) as [Hlt | Hge].
    + repeat split; lia || assumption.
    + (* the same aspect ratio: the scaled width is the canvas width *)
      assert (Heq : W * height bg = width bg * Hc).
      { assert (Hnot : ~ (IZR (width bg) / IZR (height bg) < IZR W / IZR Hc)%R).
        { intros Hlt.
          pose proof (nearest_mono _ _ _ _ Hlt Hnearq Hneart). lra. }
        assert (HrH : (1 <= IZR Hc)%R) by (apply IZR_le; lia).
        assert (Hrbh : (1 <= IZR (height bg))%R) by (apply IZR_le; lia).
        pose proof (div_mul (IZR W) (IZR Hc) ltac:(lra)) as Hy.
        pose proof (div_mul (IZR (width bg)) (IZR (height bg)) ltac:(lra)) as Hx.
        set (x := (IZR (width bg) / IZR (height bg))%R) in *.
        set (y := (IZR W / IZR Hc)%R) in *.
        assert (Hpos : (0 <= (x - y) * (IZR Hc * IZR (height bg)))%R)
          by (apply Rmult_le_pos; [lra | nra]).
        assert (Hle : (IZR (W * height bg) <= IZR (width bg * Hc))%R).
        { rewrite !mult_IZR, <- Hy, <- Hx. lra. }
        apply le_IZR in Hle. lia. }
      assert (Hw1 : Hc * width bg / height bg = W).
      { replace (Hc * width bg) with (W * height bg) by lia.
        apply Z.div_mul. lia. }
      assert (Hh1 : W * height bg / width bg = Hc).
      { rewrite Heq, Z.mul_comm. apply Z.div_mul. lia. }
      assert (Hh2 : (W * height bg) mod width bg = 0).
      { rewrite Heq, Z.mul_comm. apply Z.mod_mul. lia. }
      rewrite Hh1, Hh2. repeat split; lia.
  - assert (Hle : (B2R q <= B2R t)%R).
    { destruct (Rle_lt_dec (B2R q) (B2R t)) as [Hok | Hlt]; [exact Hok |].
      apply (SFltb_normal t q Hnt Hnq) in Hlt. unfold PyFloat.gt in Hgt.
      congruence. }
    destruct (scaled_height W (width bg) (height bg) q HW Hbw Hbh Hnq Hnearq
                ltac:(lra)) as (scaled & z & Hs & Hz & Hzb & Hzq & Hzx).
    cbv zeta. rewrite Hs. cbn [bind]. rewrite Hz. cbn [bind ok].
    exists W, z. split; [lia |]. split; [lia |]. split;
      [| destruct (resize_cases
                    (mkImage (mode bg) (width bg) (height bg) (px bg) []) W z
                    LANCZOS)
           as [Hmem | (r & Hr & Hmode)]; [int_max_lia | int_max_lia | |];
         [left; rewrite Hmem; split; reflexivity |];
         right; rewrite Hr; cbn [bind];
         destruct (crop_fits r W z W Hc) as (img & Hrun & Hm & Hwi & Hhe & Hpx);
         try lia;
         exists r, img; split; [reflexivity |]; split; [exact Hrun |];
         split; [rewrite Hm; exact Hmode |]; repeat split; assumption].
    replace (W * height bg <? width bg * Hc) with false by lia.
    repeat split; lia || assumption.
Qed.

(** A canvas of height 0 stops [process_background] at its own
    aspect ratio. *)
Lemma process_background_zero_height self w background_path ticket bg :
  image_file w background_path = Some bg ->
  1 <= width bg < 2 ^ 53 -> 1 <= height bg < 2 ^ 53 ->
  cfg_height (config self) = 0 ->
  process_background self w background_path ticket = inl ZeroDivisionError.
Proof.
  intros Hfile Hbw Hbh Hzero.
  unfold process_background, open. rewrite Hfile. cbn [bind ok].
  cbn [width height mode px].
  destruct (GradientClaims.int_truediv_near (width bg) (height bg))
    as (q & -> & _); [lia | lia |].
  cbn [bind]. unfold PyFloat.int_truediv at 1. rewrite Hzero. reflexivity.
Qed.

(** X10: with a configured height of 0 (and a width [Image.new]
    accepts), [generate_ticket] on a readable background is a
    [ZeroDivisionError]: the blank canvas is made, then the canvas
    aspect ratio [width / height] is taken. *)
Theorem zero_height_divides_by_zero self w background_path ticket_data bg :
  image_file w background_path = Some bg ->
  1 <= width bg < 2 ^ 53 -> 1 <= height bg < 2 ^ 53 ->
  cfg_height (config self) = 0 ->
  0 <= cfg_width (config self) <= INT_MAX / 4 - 1 ->
  generate_ticket self w background_path ticket_data = inl ZeroDivisionError.
Proof.
  intros Hfile Hbw Hbh Hzero HW.
  unfold generate_ticket. rewrite Hzero.
  rewrite new_ok by (lia || int_max_lia). cbn [bind].
  rewrite (process_background_zero_height self w background_path _ bg)
    by assumption.
  reflexivity.
Qed.

(** What a successful [process_background] went through. *)
Lemma process_background_inv self w background_path ticket bg img :
  image_file w background_path = Some bg ->
  1 <= width bg <= 65535 -> 1 <= height bg <= 65535 ->
  1 <= cfg_width (config self) <= 8191 ->
  1 <= cfg_height (config self) <= 8191 ->
  process_background self w background_path ticket = inr img ->
  exists nw nh scaled,
    resize (mkImage (mode bg) (width bg) (height bg) (px bg) []) (nw, nh) LANCZOS
    = inr scaled
    /\ (if cfg_width (config self) * height bg <? width bg * cfg_height (config self)
        then nh = cfg_height (config self)
             /\ cfg_width (config self) <= nw
             /\ cfg_height (config self) * width bg / height bg - 1 <= nw
                <= cfg_height (config self) * width bg / height bg
             /\ ((cfg_height (config self) * width bg) mod height bg <> 0 ->
                 nw = cfg_height (config self) * width bg / height bg)
        else nw = cfg_width (config self)
             /\ cfg_width (config self) * height bg / width bg - 1 <= nh
                <= cfg_width (config self) * height bg / width bg
             /\ ((cfg_width (config self) * height bg) mod width bg <> 0 ->
                 nh = cfg_width (config self) * height bg / width bg))
    /\ width img
       = half_even (nw - cfg_width (config self) + 2 * cfg_width (config self))
         - half_even (nw - cfg_width (config self))
    /\ height img
       = half_even (nh - cfg_height (config self) + 2 * cfg_height (config self))
         - half_even (nh - cfg_height (config self))
    /\ forall x y,
         px img x y
         = if in_bounds scaled
                (x + half_even (nw - cfg_width (config self)))
                (y + half_even (nh - cfg_height (config self)))
           then px scaled
                  (x + half_even (nw - cfg_width (config self)))
                  (y + half_even (nh - cfg_height (config self)))
           else mkColor 0 0 0 0.
Proof.
  intros Hfile Hbw Hbh HW HH Hrun.
  destruct (process_background_run self w background_path ticket bg
              Hfile Hbw Hbh HW HH)
    as (nw & nh & _ & _ & Hlaw & [[_ Hmem] | (scaled & img' & Hres & Hrun' & Hrest)]).
  - rewrite Hmem in Hrun. discriminate Hrun.
  - rewrite Hrun' in Hrun. injection Hrun as ->.
    destruct Hrest as (_ & Hwi & Hhe & Hpx).
    exists nw, nh, scaled. repeat split; assumption.
Qed.

(** X12: an image [process_background] returns was cut out of the
    file scaled with its aspect ratio kept as far as whole pixels
    allow, and covering the canvas except possibly for one missing
    row or column: a file strictly wider than the canvas was scaled
    to the canvas height and to a width of
    [height * bg_width // bg_height], or one less when that division
    is exact, and never less than the canvas width; any other file
    was scaled to the canvas width and to a height of
    [width * bg_height // bg_width], or one less when that division
    is exact. *)
Theorem process_background_scales self w background_path ticket bg img :
  image_file w background_path = Some bg ->
  1 <= width bg <= 65535 -> 1 <= height bg <= 65535 ->
  1 <= cfg_width (config self) <= 8191 ->
  1 <= cfg_height (config self) <= 8191 ->
  process_background self w background_path ticket = inr img ->
  exists nw nh scaled x0 y0,
    resize (mkImage (mode bg) (width bg) (height bg) (px bg) []) (nw, nh) LANCZOS
    = inr scaled
    /\ (forall x y,
          px img x y
          = if in_bounds scaled (x + x0) (y + y0)
            then px scaled (x + x0) (y + y0) else mkColor 0 0 0 0)
    /\ if cfg_width (config self) * height bg <? width bg * cfg_height (config self)
       then nh = cfg_height (config self)
            /\ cfg_width (config self) <= nw
            /\ cfg_height (config self) * width bg / height bg - 1 <= nw
               <= cfg_height (config self) * width bg / height bg
            /\ ((cfg_height (config self) * width bg) mod height bg <> 0 ->
                nw = cfg_height (config self) * width bg / height bg)
       else nw = cfg_width (config self)
            /\ cfg_width (config self) * height bg / width bg - 1 <= nh
               <= cfg_width (config self) * height bg / width bg
            /\ ((cfg_width (config self) * height bg) mod width bg <> 0 ->
                nh = cfg_width (config self) * height bg / width bg).
Proof.
  intros Hfile Hbw Hbh HW HH Hrun.
  destruct (process_background_inv self w background_path ticket bg img
              Hfile Hbw Hbh HW HH Hrun)
    as (nw & nh & scaled & Hres & Hlaw & _ & _ & Hpx).
  exists nw, nh, scaled,
    (half_even (nw - cfg_width (config self))),
    (half_even (nh - cfg_height (config self))).
  split; [exact Hres |]. split; [exact Hpx |].
  exact Hlaw.
Qed.

(** X13: the crop of [process_background] is centred: an image it
    returns shows the scaled file from an offset [(x0, y0)] on
    (blank where that falls outside it), and on each axis the margin
    cut off before the result and the margin cut off after it differ
    by at most one pixel. *)
Theorem process_background_centred self w background_path ticket bg img :
  image_file w background_path = Some bg ->
  1 <= width bg <= 65535 -> 1 <= height bg <= 65535 ->
  1 <= cfg_width (config self) <= 8191 ->
  1 <= cfg_height (config self) <= 8191 ->
  process_background self w background_path ticket = inr img ->
  exists nw nh scaled x0 y0,
    resize (mkImage (mode bg) (width bg) (height bg) (px bg) []) (nw, nh) LANCZOS
    = inr scaled
    /\ (forall x y,
          px img x y
          = if in_bounds scaled (x + x0) (y + y0)
            then px scaled (x + x0) (y + y0) else mkColor 0 0 0 0)
    /\ -1 <= x0 - (width scaled - (x0 + width img)) <= 1
    /\ -1 <= y0 - (height scaled - (y0 + height img)) <= 1.
Proof.
  intros Hfile Hbw Hbh HW HH Hrun.
  destruct (process_background_inv self w background_path ticket bg img
              Hfile Hbw Hbh HW HH Hrun)
    as (nw & nh & scaled & Hres & _ & Hwi & Hhe & Hpx).
  exists nw, nh, scaled,
    (half_even (nw - cfg_width (config self))),
    (half_even (nh - cfg_height (config self))).
  split; [exact Hres |]. split; [exact Hpx |].
  pose proof (resize_inv _ _ _ _ Hres) as [Hs _].
  unfold shape in Hs. cbn [fst snd] in Hs. injection Hs as _ Hsw Hsh.
  pose proof (half_even_centre (nw - cfg_width (config self))
                (cfg_width (config self))) as Hcx.
  pose proof (half_even_centre (nh - cfg_height (config self))
                (cfg_height (config self))) as Hcy.
  rewrite Hsw, Hsh, Hwi, Hhe. split; lia.
Qed.

(** X11: for a canvas of 1 to 8191 pixels on a side and a background
    file of 1 to 65535 pixels on a side and at most 178956970 pixels
    in all (more than that [Image.open] refuses), the one thing
    [process_background] can raise is the MemoryError of [resize]
    (no float operation fails, and the crop box is always in order);
    otherwise it returns an image in the mode of the file; each side
    is within one pixel of the canvas and one of the two is exact;
    a side has the length of the canvas exactly when that length is
    even or the scaled image exceeds it by an even number of
    pixels. *)
Theorem process_background_fits self w background_path ticket bg :
  image_file w background_path = Some bg ->
  1 <= width bg <= 65535 -> 1 <= height bg <= 65535 ->
  width bg * height bg <= 178956970 ->
  1 <= cfg_width (config self) <= 8191 ->
  1 <= cfg_height (config self) <= 8191 ->
  process_background self w background_path ticket = inl MemoryError
  \/ exists nw nh scaled img,
       resize (mkImage (mode bg) (width bg) (height bg) (px bg) []) (nw, nh)
         LANCZOS = inr scaled
       /\ process_background self w background_path ticket = inr img
       /\ mode img = mode bg
       /\ cfg_width (config self) - 1 <= width img <= cfg_width (config self) + 1
       /\ cfg_height (config self) - 1 <= height img
          <= cfg_height (config self) + 1
       /\ (width img = cfg_width (config self)
           \/ height img = cfg_height (config self))
       /\ (width img = cfg_width (config self)
           <-> Z.even (cfg_width (config self)) = true
               \/ Z.even (nw - cfg_width (config self)) = true)
       /\ (height img = cfg_height (config self)
           <-> Z.even (cfg_height (config self)) = true
               \/ Z.even (nh - cfg_height (config self)) = true).
Proof.
  intros Hfile Hbw Hbh _ HW HH.
  destruct (process_background_run self w background_path ticket bg
              Hfile Hbw Hbh HW HH)
    as (nw & nh & _ & _ & Hlaw
        & [[_ Hmem] | (scaled & img & Hres & Hrun & Hmode & Hwi & Hhe & _)]);
    [left; exact Hmem | right].
  pose proof (half_even_span (nw - cfg_width (config self))
                (cfg_width (config self))) as (Hxs & Hxe).
  pose proof (half_even_span (nh - cfg_height (config self))
                (cfg_height (config self))) as (Hys & Hye).
  exists nw, nh, scaled, img.
  split; [exact Hres |]. split; [exact Hrun |]. split; [exact Hmode |].
  split; [lia |]. split; [lia |].
  split; [| split; [rewrite Hwi; exact Hxe | rewrite Hhe; exact Hye]].
  destruct (_ <? _); [right | left].
  - destruct Hlaw as (-> & _). rewrite Hhe. apply Hye. right.
    rewrite Z.sub_diag. reflexivity.
  - destruct Hlaw as (-> & _). rewrite Hwi. apply Hxe. right.
    rewrite Z.sub_diag. reflexivity.
Qed.

End WithRaster.

Lemma process_background_fits_witness :
  exists img,
    process_background (generator_in (bare_world 1024 256) default_config)
      (bare_world 1024 256) "./Mage4.jpg" (solid RGB 1202 450 (rgb 255 255 255))
    = inr img
    /\ mode img = RGB /\ width img = 1202 /\ height img = 450.
Proof.
  destruct (process_background_fits
              (generator_in (bare_world 1024 256) default_config)
              (bare_world 1024 256) "./Mage4.jpg"
              (solid RGB 1202 450 (rgb 255 255 255))
              (solid RGB 1024 256 (rgb 30 60 90)))
    as [Hmem | (nw & nh & scaled & img & _ & Hrun & Hmode & _ & _ & _ & Hw & Hh)].
  - reflexivity.
  - simpl. lia.
  - simpl. lia.
  - simpl. lia.
  - simpl. lia.
  - simpl. lia.
  - exfalso.
    assert (Hok : is_ok (process_background
                           (generator_in (bare_world 1024 256) default_config)
                           (bare_world 1024 256) "./Mage4.jpg"
                           (solid RGB 1202 450 (rgb 255 255 255))) = true)
      by (vm_compute; reflexivity).
    rewrite Hmem in Hok. discriminate Hok.
  - exists img. split; [exact Hrun |]. split; [exact Hmode |].
    split; [apply Hw | apply Hh]; left; reflexivity.
Defined.

Lemma process_background_scales_witness :
  exists nw nh scaled img,
    resize (solid RGB 1000 333 (rgb 30 60 90)) (nw, nh) LANCZOS = inr scaled
    /\ process_background (generator_in (bare_world 1000 333) default_config)
         (bare_world 1000 333) "./Mage4.jpg" (solid RGB 1202 450 (rgb 255 255 255))
       = inr img
    /\ nw = 1351 /\ nh = 450.
Proof.
  assert (Hok : is_ok (process_background
                         (generator_in (bare_world 1000 333) default_config)
                         (bare_world 1000 333) "./Mage4.jpg"
                         (solid RGB 1202 450 (rgb 255 255 255))) = true)
    by (vm_compute; reflexivity).
  destruct (is_ok_inr _ Hok) as [img Hrun].
  destruct (process_background_scales
              (generator_in (bare_world 1000 333) default_config)
              (bare_world 1000 333) "./Mage4.jpg"
              (solid RGB 1202 450 (rgb 255 255 255))
              (solid RGB 1000 333 (rgb 30 60 90)) img)
    as (nw & nh & scaled & x0 & y0 & Hres & _ & Hlaw).
  - reflexivity.
  - simpl. lia.
  - simpl. lia.
  - simpl. lia.
  - simpl. lia.
  - exact Hrun.
  - exists nw, nh, scaled, img. split; [exact Hres |]. split; [exact Hrun |].
    change (cfg_width (config (generator_in (bare_world 1000 333) default_config)))
      with 1202 in Hlaw.
    change (cfg_height (config (generator_in (bare_world 1000 333) default_config)))
      with 450 in Hlaw.
    cbn [width height solid] in Hlaw.
    change (1202 * 333 <? 1000 * 450) with true in Hlaw.
    destruct Hlaw as (Hh & _ & _ & Hex). split; [| exact Hh].
    rewrite Hex; [reflexivity | vm_compute; discriminate].
Defined.

Lemma process_background_centred_witness :
  exists scaled x0 y0 img,
    process_background (generator_in (bare_world 1024 256) odd_config)
      (bare_world 1024 256) "./Mage4.jpg" (solid RGB 1201 450 (rgb 255 255 255))
    = inr img
    /\ -1 <= x0 - (width scaled - (x0 + width img)) <= 1
    /\ -1 <= y0 - (height scaled - (y0 + height img)) <= 1.
Proof.
  assert (Hok : is_ok (process_background
                         (generator_in (bare_world 1024 256) odd_config)
                         (bare_world 1024 256) "./Mage4.jpg"
                         (solid RGB 1201 450 (rgb 255 255 255))) = true)
    by (vm_compute; reflexivity).
  destruct (is_ok_inr _ Hok) as [img Hrun].
  destruct (process_background_centred
              (generator_in (bare_world 1024 256) odd_config)
              (bare_world 1024 256) "./Mage4.jpg"
              (solid RGB 1201 450 (rgb 255 255 255))
              (solid RGB 1024 256 (rgb 30 60 90)) img)
    as (nw & nh & scaled & x0 & y0 & _ & _ & Hx & Hy).
  - reflexivity.
  - simpl. lia.
  - simpl. lia.
  - simpl. lia.
  - simpl. lia.
  - exact Hrun.
  - exists scaled, x0, y0, img. split; [exact Hrun |]. split; assumption.
Defined.

Lemma zero_height_divides_by_zero_witness :
  generate_ticket (generator_in (bare_world 1024 256) flat_config)
    (bare_world 1024 256) "./Mage4.jpg" demo_ticket_data
  = inl ZeroDivisionError.
Proof.
  apply (zero_height_divides_by_zero
           (generator_in (bare_world 1024 256) flat_config)
           (bare_world 1024 256) "./Mage4.jpg" demo_ticket_data
           (solid RGB 1024 256 (rgb 30 60 90))).
  - reflexivity.
  - simpl. lia.
  - simpl. lia.
  - reflexivity.
  - vm_compute. split; discriminate.
Defined.

End BackgroundFacts.

(** ** The drawing methods and the layout of the ticket *)

Module LayoutFacts.
Import PIL PILFacts TicketGenerator GeneratorFacts Fixtures Samples.

Section WithRaster.
Context `{Raster}.

(** An image with an alpha band is accepted as a mask. *)
Lemma alpha_band_is_mask m : has_alpha_band m = true -> mask_mode_ok m = true.
Proof. destruct m; intros Hm; try discriminate Hm; reflexivity. Qed.

Lemma draw_icon_with_text_missing self ticket x y icon_type text :
  icons self !! icon_type = None ->
  draw_icon_with_text self ticket x y icon_type text = inl (KeyError icon_type).
Proof. intros Hnone. unfold draw_icon_with_text. rewrite Hnone. reflexivity. Qed.

(** With its icon in the map, whatever the mode of the icon, the
    row is drawn: one text call, on a canvas of the same mode and
    size. *)
Lemma draw_icon_with_text_run self ticket x y icon_type text icon :
  icons self !! icon_type = Some icon ->
  exists r,
    draw_icon_with_text self ticket x y icon_type text = inr r
    /\ shape r = shape ticket
    /\ drawn r
       = CallText
           (x + icon_size (config self) + 10,
            y + (icon_size (config self) - font_small_size (config self)) / 2)
           text (font_small self) (rgb 81 79 79)
         :: drawn ticket.
Proof.
  intros Hlook. unfold draw_icon_with_text. rewrite Hlook. cbn [bind ok].
  assert (Hp : exists pasted,
             (if has_alpha_band (mode icon)
              then paste ticket icon (x, y) (Some icon)
              else paste ticket icon (x, y) None) = inr pasted).
  { destruct (has_alpha_band (mode icon)) eqn:Hband.
    - apply is_ok_inr, paste_self_mask_ok, alpha_band_is_mask, Hband.
    - apply is_ok_inr, paste_unmasked_ok. }
  destruct Hp as [pasted Hp]. rewrite Hp. cbn [bind].
  eexists. split; [reflexivity |].
  assert (Hs : shape pasted = shape ticket /\ drawn pasted = drawn ticket).
  { destruct (has_alpha_band (mode icon)); eapply paste_inv; exact Hp. }
  destruct Hs as [Hs Hd].
  rewrite draw_text_shape, draw_text_drawn, Hd. split; [exact Hs | reflexivity].
Qed.


(** *** The rounded rectangle *)

Lemma check_box_inv xy :
  check_box xy = inr tt ->
  let '(x0, y0, x1, y1) := xy in x0 <= x1 /\ y0 <= y1.
Proof.
  destruct xy as [[[x0 y0] x1] y1]. unfold check_box.
  destruct (Z.ltb_spec x1 x0); [discriminate |].
  destruct (Z.ltb_spec y1 y0); [discriminate |]. lia.
Qed.

Lemma draw_rectangle_box im xy fill r :
  draw_rectangle im xy fill = inr r ->
  let '(x0, y0, x1, y1) := xy in x0 <= x1 /\ y0 <= y1.
Proof.
  unfold draw_rectangle. intros Hr. bind_inv Hr. destruct v.
  apply check_box_inv. exact Hv.
Qed.

Lemma draw_pieslice_box im xy start stop fill r :
  draw_pieslice im xy start stop fill = inr r ->
  let '(x0, y0, x1, y1) := xy in x0 <= x1 /\ y0 <= y1.
Proof.
  unfold draw_pieslice. intros Hr. bind_inv Hr. destruct v.
  apply check_box_inv. exact Hv.
Qed.

(** A radius that does not fit makes one of the six calls raise. *)
Lemma create_rounded_rectangle_inv draw x1 y1 x2 y2 radius fill r :
  create_rounded_rectangle draw (x1, y1, x2, y2) radius fill = inr r ->
  0 <= radius /\ 2 * radius <= x2 - x1 /\ 2 * radius <= y2 - y1.
Proof.
  unfold create_rounded_rectangle. intros Hc. binds_inv Hc.
  apply draw_rectangle_box in Hv. apply draw_rectangle_box in Hv0.
  apply draw_pieslice_box in Hv1. lia.
Qed.

(** X5: [create_rounded_rectangle] goes through exactly when the
    radius is not negative and twice the radius is at most the width
    and at most the height of the rectangle; otherwise one of its
    drawing calls raises. *)
Theorem rounded_rectangle_precondition draw x1 y1 x2 y2 radius fill :
  is_ok (create_rounded_rectangle draw (x1, y1, x2, y2) radius fill) = true
  <-> 0 <= radius /\ 2 * radius <= x2 - x1 /\ 2 * radius <= y2 - y1.
Proof.
  split.
  - intros Hok. apply is_ok_inr in Hok as [r Hr].
    eapply create_rounded_rectangle_inv. exact Hr.
  - intros (Hr & Hw & Hh).
    destruct (RoundedClaims.create_rounded_rectangle_px draw x1 y1 x2 y2 radius fill
                Hr Hw Hh) as (r & -> & _).
    reflexivity.
Qed.

End WithRaster.

End LayoutFacts.

(** ** [add_gradient]: the overlay and the composite *)

Module OverlayFacts.
Import Binary64 Binary64Facts FloatFacts PIL PILFacts TicketGenerator Fixtures Gradient.

(** The level the three float operations reach is within [2^-43] of
    the exact [255 * (1 - i / width)]. *)
Lemma alpha_run_error q s p a x :
  alpha_run q s p a -> nearest x (B2R q) -> (B2R q <= 1)%R ->
  (Rabs (B2R p - 255 * (1 - x)) <= 765 * bpow (-53))%R.
Proof.
  intros Hrun Hq Hq1.
  pose proof (nearest_error _ _ Hq) as Eq.
  pose proof (nearest_error _ _ (run_s_near _ _ _ _ Hrun)) as Es.
  pose proof (nearest_error _ _ (run_p_near _ _ _ _ Hrun)) as Ep.
  pose proof (run_s_range _ _ _ _ Hrun) as Hs.
  pose proof (run_p_range _ _ _ _ Hrun) as Hp.
  pose proof (bpow_gt_0 (-53)) as He. pose proof (bpow_gt_0 (-29)) as He'.
  set (eps := bpow (-53)) in *.
  assert (Hqe : (B2R q * eps <= eps)%R) by nra.
  assert (Hse : (B2R s * eps <= eps)%R) by nra.
  assert (Hpe : (B2R p * eps <= 255 * eps)%R) by nra.
  revert Eq Es Ep. unfold Rabs. repeat destruct Rcase_abs; lra.
Qed.

(** *** The level of a column, in exact arithmetic *)

Lemma column_level cfg i :
  0 < i < cfg_width cfg -> cfg_width cfg <= 2 ^ 29 ->
  exists a,
    gradient_alpha cfg i = inr a
    /\ 255 * (cfg_width cfg - i) / cfg_width cfg - 1 <= a
       <= 255 * (cfg_width cfg - i) / cfg_width cfg
    /\ ((255 * (cfg_width cfg - i)) mod cfg_width cfg <> 0 ->
        a = 255 * (cfg_width cfg - i) / cfg_width cfg).
Proof.
  intros Hi Hw. set (w := cfg_width cfg) in *.
  destruct (GradientClaims.column_ratio w i Hi Hw) as (q & Hdiv & Hq & Hnear & _ & Hqr).
  destruct (GradientClaims.alpha_of_ratio_run q Hq Hqr) as (s & p & a & Hrun).
  exists a. split.
  { unfold gradient_alpha. fold w. rewrite Hdiv. exact (run_alpha _ _ _ _ Hrun). }
  pose proof (bpow_gt_0 (-29)) as He29.
  pose proof (alpha_run_error q s p a _ Hrun Hnear ltac:(lra)) as Herr.
  pose proof (run_floor _ _ _ _ Hrun) as Hfl.
  pose proof bpow_m53 as H53. pose proof (bpow_gt_0 (-53)) as He.
  set (eps := bpow (-53)) in *.
  (* the exact level, as quotient and remainder *)
  pose proof (Z.div_mod (255 * (w - i)) w ltac:(lia)) as Hdm.
  pose proof (Z.mod_pos_bound (255 * (w - i)) w ltac:(lia)) as Hr.
  set (k := 255 * (w - i) / w) in *. set (r := (255 * (w - i)) mod w) in *.
  assert (Hwr : (1 <= IZR w <= 536870912)%R).
  { split; [apply IZR_le; lia |].
    change 536870912%R with (IZR (2 ^ 29)). apply IZR_le. exact Hw. }
  set (t := (IZR i / IZR w)%R) in *.
  assert (Ht : (t * IZR w = IZR i)%R) by (unfold t; field; lra).
  assert (Hreal : (255 * (IZR w - IZR i) = IZR w * IZR k + IZR r)%R).
  { rewrite <- minus_IZR, <- (mult_IZR 255), <- mult_IZR, <- plus_IZR.
    f_equal. exact Hdm. }
  assert (Hrr : (0 <= IZR r <= IZR w - 1)%R).
  { split; [apply IZR_le; lia |].
    rewrite <- (minus_IZR w 1). apply IZR_le. lia. }
  (* everything scaled by the width *)
  assert (Hv : (255 * (1 - t) * IZR w = IZR w * IZR k + IZR r)%R) by nra.
  assert (Herr' : (- (765 * eps) <= B2R p - 255 * (1 - t) <= 765 * eps)%R).
  { revert Herr. unfold Rabs. destruct Rcase_abs; lra. }
  assert (Hsmall : (765 * eps * IZR w < 1)%R) by nra.
  assert (Hup : (IZR a * IZR w < (IZR k + 1) * IZR w)%R) by nra.
  assert (Hlo : ((IZR k - 2) * IZR w < IZR a * IZR w)%R) by nra.
  assert (Hak : a <= k).
  { assert (Hlt : (IZR a < IZR (k + 1))%R).
    { rewrite plus_IZR. apply (Rmult_lt_reg_r (IZR w)); lra. }
    apply lt_IZR in Hlt. lia. }
  assert (Hka : k - 1 <= a).
  { assert (Hlt : (IZR (k - 2) < IZR a)%R).
    { rewrite minus_IZR. apply (Rmult_lt_reg_r (IZR w)); lra. }
    apply lt_IZR in Hlt. lia. }
  split; [lia |]. intros Hne.
  assert (Hr1 : (1 <= IZR r)%R) by (apply IZR_le; lia).
  assert (Hlo' : ((IZR k - 1) * IZR w < IZR a * IZR w)%R) by nra.
  assert (Hlt : (IZR (k - 1) < IZR a)%R).
  { rewrite minus_IZR. apply (Rmult_lt_reg_r (IZR w)); lra. }
  apply lt_IZR in Hlt. lia.
Qed.

(** X14: on a canvas [Image.new] can make, the alpha of column [i],
    computed in floats as [int(255 * (1 - i / width))], is the exact
    [255 * (width - i) // width] whenever [width] does not divide
    [255 * i], and that or one less when it does: the float formula
    stays within one level of the linear ramp. *)
Theorem gradient_alpha_linear cfg i :
  0 <= i < cfg_width cfg -> cfg_width cfg <= INT_MAX / 4 - 1 ->
  exists a,
    gradient_alpha cfg i = inr a
    /\ 255 * (cfg_width cfg - i) / cfg_width cfg - 1 <= a
       <= 255 * (cfg_width cfg - i) / cfg_width cfg
    /\ ((255 * i) mod cfg_width cfg <> 0 ->
        a = 255 * (cfg_width cfg - i) / cfg_width cfg).
Proof.
  intros Hi Hw. assert (Hw29 : cfg_width cfg <= 2 ^ 29) by int_max_lia.
  destruct (Z.eq_dec i 0) as [-> | Hne].
  - exists 255. split; [apply GradientClaims.column_0; lia |].
    rewrite Z.sub_0_r, Z.div_mul by lia. split; [lia | reflexivity].
  - destruct (column_level cfg i ltac:(lia) Hw29) as (a & Ha & Hb & Hex).
    exists a. split; [exact Ha |]. split; [exact Hb |].
    intros Hmod. apply Hex. intros Hzero. apply Hmod.
    apply Z.mod_divide in Hzero; [| lia]. destruct Hzero as [c Hc].
    apply Z.mod_divide; [lia |]. exists (255 - c). lia.
Qed.

Section WithRaster.
Context `{Raster}.

(** The overlay exists for every size [Image.new] accepts, a width
    of 0 included, and is white at each column's level. *)
Lemma gradient_overlay_run cfg :
  0 <= cfg_width cfg <= INT_MAX / 4 - 1 -> 0 <= cfg_height cfg <= INT_MAX ->
  exists g,
    gradient_overlay cfg = inr g
    /\ shape g = (RGBA, cfg_width cfg, cfg_height cfg)
    /\ forall x y,
         0 <= x < cfg_width cfg -> 0 <= y < cfg_height cfg ->
         exists a, gradient_alpha cfg x = inr a
                   /\ px g x y = mkColor 255 255 255 a.
Proof.
  intros Hw Hh.
  assert (Hw29 : cfg_width cfg <= 2 ^ 29) by int_max_lia.
  unfold gradient_overlay. rewrite new_ok by assumption || lia. cbn [bind].
  destruct (GradientClaims.gradient_loop_px cfg (range (cfg_width cfg))
              (mkImage RGBA (cfg_width cfg) (cfg_height cfg)
                 (fun _ _ => mkColor 255 255 255 0) []))
    as (g & Hg & Hs & Hpx).
  { intros i Hi. apply GradientClaims.In_range in Hi.
    destruct (GradientClaims.column_defined cfg i Hi Hw29) as (a & -> & _).
    reflexivity. }
  { simpl. lia. }
  exists g. split; [exact Hg |]. split; [exact Hs |].
  intros x y Hx Hy.
  destruct (Hpx x y) as [Hin _]; [unfold in_bounds; simpl; lia |].
  apply Hin, GradientClaims.In_range, Hx.
Qed.

(** On a canvas of the configured size the composite is made. *)
Lemma add_gradient_run self ticket :
  0 <= cfg_width (config self) <= INT_MAX / 4 - 1 ->
  0 <= cfg_height (config self) <= INT_MAX ->
  width ticket = cfg_width (config self) ->
  height ticket = cfg_height (config self) ->
  exists g r,
    gradient_overlay (config self) = inr g
    /\ add_gradient self ticket = inr r
    /\ shape r = (RGBA, cfg_width (config self), cfg_height (config self))
    /\ drawn r = []
    /\ forall x y,
         px r x y
         = over (convert_pixels (mode ticket) RGBA (px ticket) x y) (px g x y).
Proof.
  intros Hw Hh Htw Hth.
  destruct (gradient_overlay_run (config self) Hw Hh) as (g & Hg & Hs & _).
  unfold shape in Hs. injection Hs as Hm Hgw Hgh.
  unfold add_gradient. rewrite Hg. cbn [bind]. unfold alpha_composite, convert.
  cbn [mode width height px]. rewrite Hm, Hgw, Hgh, Htw, Hth, !Z.eqb_refl.
  cbn [Mode_eqb andb negb].
  exists g. eexists. split; [reflexivity |]. split; [reflexivity |].
  split; [reflexivity |]. split; reflexivity.
Qed.

(** X15: for a configured size [Image.new] accepts, [add_gradient]
    succeeds exactly on a canvas of the configured size: the result
    is then RGBA, of that size, each pixel the canvas pixel
    (converted to RGBA) with the overlay pixel composited over it;
    on a canvas of any other size it is the [ValueError] of
    [Image.alpha_composite]. *)
Theorem add_gradient_outcome self ticket :
  0 <= cfg_width (config self) <= INT_MAX / 4 - 1 ->
  0 <= cfg_height (config self) <= INT_MAX ->
  if (width ticket =? cfg_width (config self))
     && (height ticket =? cfg_height (config self))
  then
    exists g r,
      gradient_overlay (config self) = inr g
      /\ add_gradient self ticket = inr r
      /\ shape r = (RGBA, cfg_width (config self), cfg_height (config self))
      /\ drawn r = []
      /\ forall x y,
           px r x y
           = over (convert_pixels (mode ticket) RGBA (px ticket) x y) (px g x y)
  else add_gradient self ticket = inl (ValueError "images do not match").
Proof.
  intros Hw Hh.
  destruct ((width ticket =? cfg_width (config self))
            && (height ticket =? cfg_height (config self))) eqn:Hsize.
  - apply add_gradient_run; lia.
  - destruct (gradient_overlay_run (config self) Hw Hh) as (g & Hg & Hs & _).
    unfold shape in Hs. injection Hs as Hm Hgw Hgh.
    unfold add_gradient. rewrite Hg. cbn [bind]. unfold alpha_composite, convert.
    cbn [mode width height px]. rewrite Hm, Hgw, Hgh, Hsize. reflexivity.
Qed.

End WithRaster.

Lemma gradient_alpha_linear_witness :
  gradient_alpha default_config 601 = inr 127.
Proof.
  destruct (gradient_alpha_linear default_config 601) as (a & Ha & _ & Hex).
  - simpl. lia.
  - vm_compute. discriminate.
  - rewrite Ha, Hex; [reflexivity | vm_compute; discriminate].
Defined.

Lemma add_gradient_outcome_witness :
  is_ok (add_gradient (generator_in (bare_world 1024 256) default_config)
           (solid RGB 1202 450 (rgb 255 255 255))) = true
  /\ add_gradient (generator_in (bare_world 1024 256) default_config)
       (solid RGB 1200 450 (rgb 255 255 255))
     = inl (ValueError "images do not match").
Proof.
  split.
  - pose proof (add_gradient_outcome
                  (generator_in (bare_world 1024 256) default_config)
                  (solid RGB 1202 450 (rgb 255 255 255))) as Hrun.
    destruct Hrun as (g & r & _ & -> & _).
    + vm_compute. split; discriminate.
    + vm_compute. split; discriminate.
    + reflexivity.
  - apply (add_gradient_outcome
             (generator_in (bare_world 1024 256) default_config)
             (solid RGB 1200 450 (rgb 255 255 255))).
    + vm_compute. split; discriminate.
    + vm_compute. split; discriminate.
Defined.

End OverlayFacts.

(** ** [add_qr_code]: where the code and its logo end up *)

Module QrCodeFacts.
Import PIL PILFacts TicketGenerator GeneratorFacts Pasting Fixtures Samples.

Section WithRaster.
Context `{Raster}.

(** A paste without a mask copies the source, clipped to both
    images, and nothing else. *)
Lemma paste_plain_px dst src x0 y0 :
  exists r,
    paste dst src (x0, y0) None = inr r
    /\ shape r = shape dst /\ drawn r = drawn dst
    /\ forall x y,
         px r x y
         = if in_bounds dst x y && in_bounds src (x - x0) (y - y0)
           then pasted_px src (mode dst) (x - x0) (y - y0)
           else px dst x y.
Proof.
  unfold paste. eexists. split; [reflexivity |].
  split; [reflexivity |]. split; [reflexivity |]. reflexivity.
Qed.

(** A paste through the source's own alpha leaves every pixel
    outside the source's box as it was. *)
Lemma paste_masked_px dst src x0 y0 :
  mask_mode_ok (mode src) = true ->
  exists r,
    paste dst src (x0, y0) (Some src) = inr r
    /\ shape r = shape dst /\ drawn r = drawn dst
    /\ forall x y,
         in_bounds src (x - x0) (y - y0) = false -> px r x y = px dst x y.
Proof.
  intros Hmask. unfold paste. rewrite Hmask, !Z.eqb_refl. cbn [negb andb].
  eexists. split; [reflexivity |].
  split; [reflexivity |]. split; [reflexivity |].
  intros x y Hout. cbn [px]. rewrite Hout, andb_false_r. reflexivity.
Qed.

(** Once the symbol is made, with a logo that can mask itself,
    [add_qr_code] runs through; [symbol] is the resized code,
    [stamped] the code with the logo on it. *)
Lemma add_qr_code_steps self w ticket payload qr_image logo :
  QR.make_image 2 8 2 payload = inr qr_image ->
  image_file w "./EVNTia.png" = Some logo ->
  mask_mode_ok (mode logo) = true ->
  exists symbol stamped r,
    resize (convert qr_image RGB) (320, 320) BICUBIC = inr symbol
    /\ shape stamped = (RGB, 320, 320)
    /\ (forall u v,
          ~ (120 <= u < 200 /\ 140 <= v < 180) -> px stamped u v = px symbol u v)
    /\ add_qr_code self w ticket payload = inr r
    /\ shape r = shape ticket /\ drawn r = drawn ticket
    /\ forall x y,
         px r x y
         = if in_bounds ticket x y && in_bounds stamped (x - 830) (y - 50)
           then pasted_px stamped (mode ticket) (x - 830) (y - 50)
           else px ticket x y.
Proof.
  intros Hmake Hlogo Hmask. unfold add_qr_code.
  rewrite Hmake. cbn [bind].
  destruct (AssetClaims.resize_ok (convert qr_image RGB) 320 320 BICUBIC)
    as (symbol & Hsym & _); [lia | lia |].
  rewrite Hsym. cbn [bind].
  pose proof (resize_inv _ _ _ _ Hsym) as [Hshape _].
  unfold shape in Hshape. cbn [fst snd convert mode] in Hshape.
  injection Hshape as Hsm Hsw Hsh.
  unfold open. rewrite Hlogo. cbn [bind ok].
  destruct (AssetClaims.resize_ok
              (mkImage (mode logo) (width logo) (height logo) (px logo) [])
              80 40 BICUBIC) as (small & Hsmall & Hmode); [lia | lia |].
  rewrite Hsmall. cbn [bind].
  pose proof (resize_inv _ _ _ _ Hsmall) as [Hlshape _].
  unfold shape in Hlshape. cbn [fst snd mode] in Hlshape.
  injection Hlshape as _ Hlw Hlh.
  cbn [mode] in Hmode. cbn [fst snd]. rewrite Hsw, Hsh.
  change ((320 - 80) / 2) with 120. change ((320 - 40) / 2) with 140.
  destruct (paste_masked_px symbol small 120 140)
    as (stamped & -> & Hst & _ & Hstpx); [rewrite Hmode; exact Hmask |].
  cbn [bind].
  destruct (paste_plain_px ticket stamped 830 50) as (r & -> & Hrs & Hrd & Hrpx).
  exists symbol, stamped, r.
  split; [reflexivity |].
  split; [rewrite Hst; unfold shape; congruence |].
  split.
  { intros u v Hout. apply Hstpx. unfold in_bounds. lia. }
  split; [reflexivity |]. split; [exact Hrs |]. split; [exact Hrd |].
  exact Hrpx.
Qed.

(** With a payload that fits, the symbol is made. *)
Lemma add_qr_code_run self w ticket payload logo :
  QR.needed_bits 40 (QR.add_data payload) <= QR.capacity_H 40 ->
  image_file w "./EVNTia.png" = Some logo ->
  mask_mode_ok (mode logo) = true ->
  exists qr_image symbol stamped r,
    QR.make_image 2 8 2 payload = inr qr_image
    /\ resize (convert qr_image RGB) (320, 320) BICUBIC = inr symbol
    /\ shape stamped = (RGB, 320, 320)
    /\ (forall u v,
          ~ (120 <= u < 200 /\ 140 <= v < 180) -> px stamped u v = px symbol u v)
    /\ add_qr_code self w ticket payload = inr r
    /\ shape r = shape ticket /\ drawn r = drawn ticket
    /\ forall x y,
         px r x y
         = if in_bounds ticket x y && in_bounds stamped (x - 830) (y - 50)
           then pasted_px stamped (mode ticket) (x - 830) (y - 50)
           else px ticket x y.
Proof.
  intros Hfit Hlogo Hmask.
  destruct (AssetClaims.make_image_ok payload Hfit)
    as (version & qr_image & Hmake & _).
  destruct (add_qr_code_steps self w ticket payload qr_image logo Hmake Hlogo Hmask)
    as (symbol & stamped & r & Hrest).
  exists qr_image, symbol, stamped, r. split; [exact Hmake | exact Hrest].
Qed.

(** A successful [add_qr_code] has made the symbol and opened a logo
    that can mask itself. *)
Lemma add_qr_code_went_through self w ticket payload r :
  add_qr_code self w ticket payload = inr r ->
  exists qr_image logo,
    QR.make_image 2 8 2 payload = inr qr_image
    /\ image_file w "./EVNTia.png" = Some logo
    /\ mask_mode_ok (mode logo) = true.
Proof.
  unfold add_qr_code. intros Hq.
  bind_inv Hq. rename v into qr_image, Hv into Hmake.
  bind_inv Hq. rename v into symbol, Hv into Hsym.
  bind_inv Hq. rename v into opened, Hv into Hopen.
  bind_inv Hq. rename v into small, Hv into Hsmall.
  bind_inv Hq. rename v into stamped, Hv into Hstamp.
  unfold open in Hopen.
  destruct (image_file w "./EVNTia.png") as [logo |]; [| discriminate Hopen].
  injection Hopen as <-.
  exists qr_image, logo. split; [exact Hmake |]. split; [reflexivity |].
  apply resize_inv in Hsmall as [Hs _]. unfold shape in Hs.
  cbn [mode fst snd] in Hs. injection Hs as Hmode _ _.
  unfold paste in Hstamp. destruct (_, _) as [x0 y0] in Hstamp.
  rewrite Hmode in Hstamp.
  destruct (mask_mode_ok (mode logo)); [reflexivity | discriminate Hstamp].
Qed.




End WithRaster.




End QrCodeFacts.

(** ** [generate_ticket]: what it draws, and when it succeeds *)

Module RenderFacts.
Import PIL PILFacts TicketGenerator GeneratorFacts Pasting Fixtures Samples.

Section WithRaster.
Context `{Raster}.

Lemma draw_icon_with_text_inv self ticket x y icon_type text r :
  draw_icon_with_text self ticket x y icon_type text = inr r ->
  shape r = shape ticket
  /\ drawn r
     = CallText
         (x + icon_size (config self) + 10,
          y + (icon_size (config self) - font_small_size (config self)) / 2)
         text (font_small self) (rgb 81 79 79)
       :: drawn ticket.
Proof.
  intros Hd. destruct (icons self !! icon_type) as [icon |] eqn:Hlook.
  - destruct (LayoutFacts.draw_icon_with_text_run self ticket x y icon_type text
                icon Hlook) as (r' & Hr' & Hs & Hdr).
    rewrite Hr' in Hd. injection Hd as <-. split; assumption.
  - rewrite LayoutFacts.draw_icon_with_text_missing in Hd by exact Hlook.
    discriminate.
Qed.

(** The loop over [details], unrolled: four rows at the left margin,
    40 pixels apart from 260 on. *)
Lemma details_loop_rows self ticket_data ticket :
  details_loop self (details ticket_data) ticket 260
  = let* t1 :=
      draw_icon_with_text self ticket (padding (config self)) 260
        "calendar" (date (event ticket_data)) in
    let* t2 :=
      draw_icon_with_text self t1 (padding (config self)) 300
        "clock" (time (event ticket_data)) in
    let* t3 :=
      draw_icon_with_text self t2 (padding (config self)) 340
        "map" (location (event ticket_data)) in
    let* t4 :=
      draw_icon_with_text self t3 (padding (config self)) 380
        "ticket" (ticket_type (event ticket_data)) in
    ok t4.
Proof.
  unfold details. cbn [details_loop]. rewrite Z.add_0_r. reflexivity.
Qed.

Lemma details_loop_inv self ticket_data ticket r :
  details_loop self (details ticket_data) ticket 260 = inr r ->
  let row y text :=
    CallText
      (padding (config self) + icon_size (config self) + 10,
       y + (icon_size (config self) - font_small_size (config self)) / 2)
      text (font_small self) (rgb 81 79 79) in
  shape r = shape ticket
  /\ drawn r
     = row 380 (ticket_type (event ticket_data))
       :: row 340 (location (event ticket_data))
       :: row 300 (time (event ticket_data))
       :: row 260 (date (event ticket_data))
       :: drawn ticket.
Proof.
  rewrite details_loop_rows. intros Hl. binds_inv Hl. injection Hl as <-.
  apply draw_icon_with_text_inv in Hv as [Hs1 Hd1].
  apply draw_icon_with_text_inv in Hv0 as [Hs2 Hd2].
  apply draw_icon_with_text_inv in Hv1 as [Hs3 Hd3].
  apply draw_icon_with_text_inv in Hv2 as [Hs4 Hd4].
  cbv zeta. split; [congruence |].
  rewrite Hd4, Hd3, Hd2, Hd1. reflexivity.
Qed.

Lemma details_loop_run self ticket_data ticket :
  (forall name, In name ["calendar"; "clock"; "map"; "ticket"] ->
                is_Some (icons self !! name)) ->
  exists r, details_loop self (details ticket_data) ticket 260 = inr r
            /\ shape r = shape ticket.
Proof.
  intros Hall. rewrite details_loop_rows.
  destruct (Hall "calendar") as [i1 Hl1]; [simpl; tauto |].
  destruct (Hall "clock") as [i2 Hl2]; [simpl; tauto |].
  destruct (Hall "map") as [i3 Hl3]; [simpl; tauto |].
  destruct (Hall "ticket") as [i4 Hl4]; [simpl; tauto |].
  edestruct (LayoutFacts.draw_icon_with_text_run self ticket) as (t1 & -> & Hs1 & _);
    [exact Hl1 |]. cbn [bind].
  edestruct (LayoutFacts.draw_icon_with_text_run self t1) as (t2 & -> & Hs2 & _);
    [exact Hl2 |]. cbn [bind].
  edestruct (LayoutFacts.draw_icon_with_text_run self t2) as (t3 & -> & Hs3 & _);
    [exact Hl3 |]. cbn [bind].
  edestruct (LayoutFacts.draw_icon_with_text_run self t3) as (t4 & -> & Hs4 & _);
    [exact Hl4 |]. cbn [bind].
  exists t4. split; [reflexivity | congruence].
Qed.

Lemma add_qr_code_inv self w ticket payload r :
  add_qr_code self w ticket payload = inr r ->
  shape r = shape ticket /\ drawn r = drawn ticket.
Proof.
  unfold add_qr_code. intros Hq. binds_inv Hq.
  eapply paste_inv. exact Hq.
Qed.

(** X6: the draw calls of a successful [generate_ticket], first to
    last: the ticket number, the owner, the heading and the title
    at the left margin; the category badge right of the title (two
    rectangles and four quarter slices of radius 10 around the
    category text); the four detail rows 40 pixels apart from 260
    on; nothing else (the background, the icons and the QR code are
    pasted, not drawn). *)
Theorem generate_ticket_calls self w background_path ticket_data img :
  generate_ticket self w background_path ticket_data = inr img ->
  let cfg := config self in
  let ev := event ticket_data in
  let margin := padding cfg in
  let gold := rgb 255 215 0 in
  let black := rgb 0 0 0 in
  let grey := rgb 81 79 79 in
  let title_width := fst (get_text_dimensions (title ev) (font_bold self)) in
  let category_width :=
    fst (get_text_dimensions (category ev) (font_small self)) in
  let category_height :=
    snd (get_text_dimensions (category ev) (font_small self)) in
  let x1 := margin + title_width + 10 in
  let y1 := 180 + 5 in
  let x2 := x1 + category_width + 20 in
  let y2 := y1 + category_height + 10 in
  let row_x := margin + icon_size cfg + 10 in
  let row_dy := (icon_size cfg - font_small_size cfg) / 2 in
  drawn img
  = rev
      [CallText (margin, 20) ("N: " ++ str (ticket_number ticket_data))
         (font_bold self) black;
       CallText (margin, 70) (owner_label ++ owner ticket_data)
         (font_small self) black;
       CallText (margin, 130) "Informations" (font_large self) gold;
       CallText (margin, 180) (title ev) (font_bold self) black;
       CallRectangle (x1 + 10, y1, x2 - 10, y2) gold;
       CallRectangle (x1, y1 + 10, x2, y2 - 10) gold;
       CallPieslice (x1, y1, x1 + 10 * 2, y1 + 10 * 2) 180 270 gold;
       CallPieslice (x2 - 10 * 2, y1, x2, y1 + 10 * 2) 270 360 gold;
       CallPieslice (x1, y2 - 10 * 2, x1 + 10 * 2, y2) 90 180 gold;
       CallPieslice (x2 - 10 * 2, y2 - 10 * 2, x2, y2) 0 90 gold;
       CallText (x1 + 10, y1 + 2) (category ev) (font_small self) black;
       CallText (row_x, 260 + row_dy) (date ev) (font_small self) grey;
       CallText (row_x, 300 + row_dy) (time ev) (font_small self) grey;
       CallText (row_x, 340 + row_dy) (location ev) (font_small self) grey;
       CallText (row_x, 380 + row_dy) (ticket_type ev) (font_small self) grey].
Proof.
  unfold generate_ticket. intros Hg.
  bind_inv Hg. rename v into blank, Hv into Hblank.
  bind_inv Hg. rename v into background, Hv into Hbg.
  bind_inv Hg. rename v into pasted, Hv into Hpaste.
  bind_inv Hg. rename v into shaded, Hv into Hshade.
  destruct (get_text_dimensions (title (event ticket_data)) (font_bold self))
    as [title_width title_height].
  destruct (get_text_dimensions (category (event ticket_data)) (font_small self))
    as [category_width category_height].
  bind_inv Hg. rename v into badge, Hv into Hbadge.
  bind_inv Hg. rename v into rows, Hv into Hrows.
  apply add_qr_code_inv in Hg as [_ Hd5].
  apply details_loop_inv in Hrows as [_ Hd4].
  apply create_rounded_rectangle_drawn in Hbadge as [_ Hd3].
  apply add_gradient_inv in Hshade as [_ Hd0].
  cbv zeta. cbn [fst snd].
  rewrite Hd5, Hd4, draw_text_drawn, Hd3, !draw_text_drawn, Hd0.
  reflexivity.
Qed.

(** *** When a render succeeds *)

(** On a background and a canvas of ordinary sizes, with the icons
    in place, a logo that can mask itself, a payload that fits, and
    a category text high enough for the corners of its badge, the
    one step of [generate_ticket] that can fail is the [resize] of
    the background, with a MemoryError. *)
Lemma generate_ticket_run self w background_path ticket_data bg logo :
  (forall name, In name ["calendar"; "clock"; "map"; "ticket"] ->
                is_Some (icons self !! name)) ->
  1 <= cfg_width (config self) <= 8191 ->
  1 <= cfg_height (config self) <= 8191 ->
  image_file w background_path = Some bg ->
  1 <= width bg <= 65535 -> 1 <= height bg <= 65535 ->
  image_file w "./EVNTia.png" = Some logo ->
  mask_mode_ok (mode logo) = true ->
  QR.needed_bits 40 (QR.add_data (qr_data ticket_data)) <= QR.capacity_H 40 ->
  0 <= fst (get_text_dimensions (category (event ticket_data)) (font_small self)) ->
  10 <= snd (get_text_dimensions (category (event ticket_data)) (font_small self)) ->
  generate_ticket self w background_path ticket_data = inl MemoryError
  \/ exists img,
       generate_ticket self w background_path ticket_data = inr img
       /\ shape img = (RGBA, cfg_width (config self), cfg_height (config self)).
Proof.
  intros Hicons HW HH Hfile Hbw Hbh Hlogo Hmask Hfit Hcw Hch.
  assert (Hrun : generate_ticket self w background_path ticket_data
                 = inl MemoryError
                 \/ exists img,
                      generate_ticket self w background_path ticket_data
                      = inr img).
  { unfold generate_ticket. cbv zeta.
    rewrite new_ok by int_max_lia. cbn [bind].
    destruct (BackgroundFacts.process_background_run self w background_path
                (mkImage RGB (cfg_width (config self)) (cfg_height (config self))
                   (fun _ _ => rgb 255 255 255) []) bg Hfile Hbw Hbh HW HH)
      as (nw & nh & _ & _ & _ & [[_ ->] | (scaled & background & _ & -> & _)]);
      [left; reflexivity | right].
    cbn [bind].
    destruct (QrCodeFacts.paste_plain_px
                (mkImage RGB (cfg_width (config self)) (cfg_height (config self))
                   (fun _ _ => rgb 255 255 255) []) background 0 0)
      as (pasted & -> & Hps & _).
    cbn [bind]. unfold shape in Hps. cbn [mode width height] in Hps.
    injection Hps as _ Hpw Hph.
    destruct (OverlayFacts.add_gradient_run self pasted)
      as (g & shaded & _ & -> & _); try assumption; try int_max_lia.
    cbn [bind].
    destruct (get_text_dimensions (title (event ticket_data)) (font_bold self))
      as [title_width title_height].
    destruct (get_text_dimensions (category (event ticket_data)) (font_small self))
      as [category_width category_height].
    cbn [fst snd] in Hcw, Hch.
    match goal with
    | |- context [create_rounded_rectangle ?d (?a, ?b, ?c, ?e) ?r ?f] =>
        destruct (RoundedClaims.create_rounded_rectangle_px d a b c e r f)
          as (badge & -> & _)
    end; [lia | lia | lia |].
    cbn [bind].
    match goal with
    | |- context [details_loop self _ ?c _] =>
        destruct (details_loop_run self ticket_data c Hicons) as (rows & -> & _)
    end.
    cbn [bind].
    destruct (QrCodeFacts.add_qr_code_run self w rows (qr_data ticket_data) logo
                Hfit Hlogo Hmask)
      as (_ & _ & _ & img & _ & _ & _ & _ & -> & _).
    exists img. reflexivity. }
  destruct Hrun as [Hmem | [img Himg]]; [left; exact Hmem | right].
  exists img. split; [exact Himg |].
  eapply TicketClaims.generate_ticket_shape. exact Himg.
Qed.

(** The icons of a constructed generator are in place. *)
Lemma init_icons_in_place w cfg folder g out :
  init w cfg folder = inr (g, out) ->
  forall name, In name ["calendar"; "clock"; "map"; "ticket"] ->
               is_Some (icons g !! name).
Proof.
  intros Hinit name Hin.
  apply IconClaims.init_inv in Hinit as (_ & _ & Hall).
  assert (Hfile' : exists file, In (name, file) icon_files).
  { simpl in Hin. destruct Hin as [<- | [<- | [<- | [<- | []]]]];
      eexists; simpl; eauto 6. }
  destruct Hfile' as [file Hf]. destruct (Hall name file Hf) as (icon & -> & _).
  eexists. reflexivity.
Qed.

(** A category box too low for the corners of the badge stops the
    render. *)
Lemma short_category_stops self w background_path ticket_data :
  snd (get_text_dimensions (category (event ticket_data)) (font_small self)) < 10
  \/ fst (get_text_dimensions (category (event ticket_data)) (font_small self)) < 0 ->
  is_ok (generate_ticket self w background_path ticket_data) = false.
Proof.
  intros Hshort.
  destruct (generate_ticket self w background_path ticket_data) as [e | img] eqn:Hg;
    [reflexivity | exfalso].
  unfold generate_ticket in Hg.
  bind_inv Hg. bind_inv Hg. bind_inv Hg. bind_inv Hg.
  destruct (get_text_dimensions (title (event ticket_data)) (font_bold self))
    as [title_width title_height].
  destruct (get_text_dimensions (category (event ticket_data)) (font_small self))
    as [category_width category_height].
  cbn [fst snd] in Hshort.
  bind_inv Hg. rename Hv3 into Hbadge.
  apply LayoutFacts.create_rounded_rectangle_inv in Hbadge. lia.
Qed.


(** X8: when the text box of the category is less than 10 pixels
    high (an empty category, a small font) or of negative width,
    [generate_ticket] returns no image: the badge is a rounded
    rectangle of radius 10 around a box only [height + 10] high. *)
Theorem short_category_is_fatal self w background_path ticket_data :
  snd (get_text_dimensions (category (event ticket_data)) (font_small self)) < 10
  \/ fst (get_text_dimensions (category (event ticket_data)) (font_small self)) < 0 ->
  is_ok (generate_ticket self w background_path ticket_data) = false.
Proof. apply short_category_stops. Qed.

(** X20: nothing is drawn over the QR code: in the image a
    successful [generate_ticket] returns, every pixel of the canvas
    that lies in the box from (830, 50) to (1150, 370) is the pixel
    of the 320 by 320 code, which is the resized symbol of the
    payload outside the box of the logo. *)
Theorem qr_code_on_top self w background_path ticket_data img :
  generate_ticket self w background_path ticket_data = inr img ->
  exists qr_image symbol stamped,
    QR.make_image 2 8 2 (qr_data ticket_data) = inr qr_image
    /\ resize (convert qr_image RGB) (320, 320) BICUBIC = inr symbol
    /\ shape stamped = (RGB, 320, 320)
    /\ (forall u v,
          ~ (120 <= u < 200 /\ 140 <= v < 180) -> px stamped u v = px symbol u v)
    /\ forall x y,
         0 <= x < cfg_width (config self) -> 0 <= y < cfg_height (config self) ->
         830 <= x < 1150 -> 50 <= y < 370 ->
         px img x y = pasted_px stamped RGBA (x - 830) (y - 50).
Proof.
  intros Hg.
  pose proof (TicketClaims.generate_ticket_shape _ _ _ _ _ Hg) as Hshape.
  unfold generate_ticket in Hg.
  bind_inv Hg. bind_inv Hg. bind_inv Hg. bind_inv Hg.
  destruct (get_text_dimensions (title (event ticket_data)) (font_bold self))
    as [title_width title_height].
  destruct (get_text_dimensions (category (event ticket_data)) (font_small self))
    as [category_width category_height].
  bind_inv Hg. bind_inv Hg. rename v4 into rows.
  pose proof (add_qr_code_inv _ _ _ _ _ Hg) as [Hsame _].
  rewrite Hshape in Hsame. unfold shape in Hsame.
  injection Hsame as Hm Hw Hh.
  destruct (QrCodeFacts.add_qr_code_went_through _ _ _ _ _ Hg)
    as (qr_image & logo & Hmake & Hlogo & Hmask).
  destruct (QrCodeFacts.add_qr_code_steps self w rows (qr_data ticket_data)
              qr_image logo Hmake Hlogo Hmask)
    as (symbol & stamped & r & Hsym & Hst & Hbox & Hrun & _ & _ & Hpx).
  rewrite Hrun in Hg. injection Hg as ->.
  exists qr_image, symbol, stamped.
  split; [exact Hmake |]. split; [exact Hsym |]. split; [exact Hst |].
  split; [exact Hbox |].
  intros x y Hx Hy Hbx Hby. rewrite Hpx, <- Hm.
  unfold shape in Hst. injection Hst as _ Hsw Hsh.
  replace (in_bounds rows x y) with true by (unfold in_bounds; lia).
  replace (in_bounds stamped (x - 830) (y - 50)) with true
    by (unfold in_bounds; lia).
  reflexivity.
Qed.

(** X19: what the demonstration does is decided by the box of the
    text "Concert" in the small font that construction settles on,
    [arial.ttf] at 16 points when both font files load and the
    default font otherwise, once [./Mage4.jpg] opens and is 1 to
    65535 pixels on a side and at most 178956970 pixels in all, and
    [./EVNTia.png] opens in a mode that
    can mask itself: with a box at least 10 pixels high and not of
    negative width, the demonstration shows an RGB image of 1202 by
    450 pixels, unless the background's [resize] raises its
    MemoryError; with a lower box it shows nothing.  No icon file is
    needed. *)
Theorem main_outcome w bg logo :
  image_file w "./Mage4.jpg" = Some bg ->
  1 <= width bg <= 65535 -> 1 <= height bg <= 65535 ->
  width bg * height bg <= 178956970 ->
  image_file w "./EVNTia.png" = Some logo ->
  mask_mode_ok (mode logo) = true ->
  let small :=
    if font_file w "arial.ttf" && font_file w "arialbd.ttf"
    then TrueType "arial.ttf" 16 else DefaultFont in
  (0 <= fst (get_text_dimensions "Concert" small) ->
   10 <= snd (get_text_dimensions "Concert" small) ->
   main w = inl MemoryError
   \/ exists shown, main w = inr shown /\ shape shown = (RGB, 1202, 450))
  /\ (snd (get_text_dimensions "Concert" small) < 10 ->
      is_ok (main w) = false).
Proof.
  intros Hfile Hbw Hbh _ Hlogo Hmask small. unfold main.
  destruct (IconClaims.init_ok w default_config "icons")
    as (g & Hinit & Hcfg & Hfonts & _);
    [vm_compute; split; discriminate | simpl; lia | simpl; lia |].
  pose proof (init_icons_in_place _ _ _ _ _ Hinit) as Hicons.
  rewrite Hinit. cbn [bind].
  assert (Hsmall : font_small g = small).
  { apply IconClaims.setup_fonts_inv in Hfonts. subst small.
    destruct (font_file w "arial.ttf" && font_file w "arialbd.ttf");
      injection Hfonts as _ -> _; reflexivity. }
  split.
  - intros Hwide Hhigh.
    destruct (generate_ticket_run g w "./Mage4.jpg" demo_ticket_data bg logo)
      as [-> | (img & -> & Hs)]; try assumption;
      try (rewrite Hcfg; simpl; lia).
    + vm_compute. discriminate.
    + rewrite Hsmall. exact Hwide.
    + rewrite Hsmall. exact Hhigh.
    + left. reflexivity.
    + right. cbn [bind]. eexists. split; [reflexivity |].
      unfold shape in *. cbn [convert mode width height].
      rewrite Hcfg in Hs. injection Hs as _ -> ->. reflexivity.
  - intros Hlow.
    pose proof (short_category_stops g w "./Mage4.jpg" demo_ticket_data) as Hstop.
    rewrite Hsmall in Hstop. specialize (Hstop (or_introl Hlow)).
    destruct (generate_ticket g w "./Mage4.jpg" demo_ticket_data);
      [reflexivity | discriminate Hstop].
Qed.

End WithRaster.

Lemma generate_ticket_calls_witness :
  exists img,
    generate_ticket (generator_in (bare_world 1024 256) default_config)
      (bare_world 1024 256) "./Mage4.jpg" demo_ticket_data = inr img
    /\ List.length (drawn img) = 15%nat
    /\ In (CallText (84, 264) "19 Septembre 2024" DefaultFont (rgb 81 79 79))
          (drawn img)
    /\ In (CallRectangle (100, 195, 176, 197) (rgb 255 215 0)) (drawn img).
Proof.
  assert (Hok : is_ok (generate_ticket
                         (generator_in (bare_world 1024 256) default_config)
                         (bare_world 1024 256) "./Mage4.jpg" demo_ticket_data)
                = true) by (vm_compute; reflexivity).
  destruct (is_ok_inr _ Hok) as [img Himg].
  exists img. split; [exact Himg |].
  rewrite (generate_ticket_calls _ _ _ _ _ Himg).
  split; [reflexivity |]. split; vm_compute; tauto.
Defined.

Lemma qr_code_on_top_witness :
  exists img stamped,
    generate_ticket (generator_in (bare_world 1024 256) default_config)
      (bare_world 1024 256) "./Mage4.jpg" demo_ticket_data = inr img
    /\ px img 830 50 = pasted_px stamped RGBA 0 0
    /\ px img 1149 369 = pasted_px stamped RGBA 319 319.
Proof.
  assert (Hok : is_ok (generate_ticket
                         (generator_in (bare_world 1024 256) default_config)
                         (bare_world 1024 256) "./Mage4.jpg" demo_ticket_data)
                = true) by (vm_compute; reflexivity).
  destruct (is_ok_inr _ Hok) as [img Himg].
  destruct (qr_code_on_top _ _ _ _ _ Himg) as (_ & _ & stamped & _ & _ & _ & _ & Hpx).
  exists img, stamped. split; [exact Himg |].
  split; rewrite Hpx by (simpl; lia); reflexivity.
Defined.


Lemma short_category_is_fatal_witness :
  is_ok (@generate_ticket lean_raster
           (generator_in (bare_world 1024 256) default_config)
           (bare_world 1024 256) "./Mage4.jpg" plain_ticket_data) = false
  /\ @generate_ticket lean_raster
       (generator_in (bare_world 1024 256) default_config)
       (bare_world 1024 256) "./Mage4.jpg" plain_ticket_data
     = inl (ValueError "y1 must be greater than or equal to y0").
Proof.
  split.
  - apply (@short_category_is_fatal lean_raster). left. simpl. lia.
  - vm_compute. reflexivity.
Defined.

Lemma main_outcome_witness :
  (exists shown, main (bare_world 1024 256) = inr shown
                 /\ shape shown = (RGB, 1202, 450))
  /\ is_ok (@main low_raster (bare_world 1024 256)) = false.
Proof.
  split.
  - destruct (main_outcome (bare_world 1024 256)
                (solid RGB 1024 256 (rgb 30 60 90))
                (solid RGBA 200 100 (mkColor 200 0 0 255)))
      as [Hhigh _].
    + reflexivity.
    + simpl. lia.
    + simpl. lia.
    + simpl. lia.
    + reflexivity.
    + reflexivity.
    + destruct Hhigh as [Hmem | Hrun].
      * simpl. lia.
      * simpl. lia.
      * exfalso.
        assert (Hok : is_ok (main (bare_world 1024 256)) = true)
          by (vm_compute; reflexivity).
        rewrite Hmem in Hok. discriminate Hok.
      * exact Hrun.
  - destruct (@main_outcome low_raster (bare_world 1024 256)
                (solid RGB 1024 256 (rgb 30 60 90))
                (solid RGBA 200 100 (mkColor 200 0 0 255)))
      as [_ Hlow].
    + reflexivity.
    + simpl. lia.
    + simpl. lia.
    + simpl. lia.
    + reflexivity.
    + reflexivity.
    + apply Hlow. simpl. lia.
Defined.

End RenderFacts.

(** ** [__init__]: the fonts and the icons of a generator *)

Module ConstructionFacts.
Import PIL PILFacts TicketGenerator GeneratorFacts Fixtures Samples.

Section WithRaster.
Context `{Raster}.

(** X1: the fonts of a constructed generator are all three loaded
    or all three the default font: the regular face at the large
    and at the small size and the bold face at the large size when
    both [arial.ttf] and [arialbd.ttf] load, and the default font
    three times as soon as one of the two does not, the faces
    already loaded being dropped. *)
Theorem fonts_all_or_nothing w cfg folder g out :
  init w cfg folder = inr (g, out) ->
  (font_large g, font_small g, font_bold g)
  = if font_file w "arial.ttf" && font_file w "arialbd.ttf"
    then (TrueType "arial.ttf" (font_large_size cfg),
          TrueType "arial.ttf" (font_small_size cfg),
          TrueType "arialbd.ttf" (font_large_size cfg))
    else (DefaultFont, DefaultFont, DefaultFont).
Proof.
  intros Hinit. apply IconClaims.init_inv in Hinit as (_ & Hfonts & _).
  apply IconClaims.setup_fonts_inv in Hfonts. exact Hfonts.
Qed.

(** *** The icons *)

Lemma new_transparent n v :
  new RGBA (n, n) (mkColor 0 0 0 0) = inr v -> v = transparent n.
Proof.
  unfold new. intros Hn.
  destruct ((n <? 0) || (n <? 0)); [discriminate |].
  destruct ((INT_MAX <? n) || (INT_MAX <? n)); [discriminate |].
  destruct (INT_MAX / 4 - 1 <? n); [discriminate |].
  injection Hn as <-. reflexivity.
Qed.

(** Whenever the loop returns, it has stored one image per file,
    the loaded one or the placeholder, and printed one line per
    file that failed, in the order of the files. *)
Lemma load_icons_loop_inv w cfg folder : forall files icons out icons' out',
  load_icons_loop w cfg folder files (icons, out) = inr (icons', out') ->
  icons' = fold_left
             (fun m '(name, file) => <[name := icon_for w cfg folder file]> m)
             files icons
  /\ out' = (out ++ errors_for w cfg folder files)%list.
Proof.
  induction files as [| [name file] rest IH]; intros icons out icons' out' Hl.
  - injection Hl as <- <-. rewrite app_nil_r. split; reflexivity.
  - unfold errors_for in *. cbn [load_icons_loop fold_left flat_map] in *.
    pose proof (eq_refl (icon_for w cfg folder file)) as Hfor.
    unfold icon_for at 2 in Hfor.
    destruct (load_icon w cfg (path_join folder file)) as [e | icon] eqn:Hload.
    + bind_inv Hl. apply new_transparent in Hv. subst v.
      apply IH in Hl as [-> ->]. rewrite Hfor, <- app_assoc.
      split; reflexivity.
    + apply IH in Hl as [-> ->]. rewrite Hfor. split; reflexivity.
Qed.

Lemma icon_for_shape w cfg folder file :
  shape (icon_for w cfg folder file) = (RGBA, icon_size cfg, icon_size cfg).
Proof.
  unfold icon_for.
  destruct (load_icon w cfg (path_join folder file)) as [e | icon] eqn:Hload;
    [reflexivity |].
  unfold load_icon in Hload. bind_inv Hload.
  apply resize_inv in Hload as [Hs _]. exact Hs.
Qed.

(** X2: a constructed generator holds exactly the four icons
    [calendar], [clock], [map] and [ticket]; each is an RGBA image
    of the configured icon size on both sides, whatever the mode
    and the size of its file; and one line was printed for each
    file that could not be loaded, in the order of the four
    files. *)
Theorem init_icons w cfg folder g out :
  init w cfg folder = inr (g, out) ->
  dom (icons g) = ({["calendar"; "clock"; "map"; "ticket"]} : gset string)
  /\ (forall name icon,
        icons g !! name = Some icon ->
        shape icon = (RGBA, icon_size cfg, icon_size cfg))
  /\ out = errors_for w cfg folder icon_files.
Proof.
  unfold init, load_icons. intros Hinit.
  destruct (setup_fonts w cfg) as [e | [[large small] bold]]; [discriminate |].
  cbn [bind] in Hinit.
  bind_inv Hinit. destruct v as [icons0 out0]. injection Hinit as <- <-.
  apply load_icons_loop_inv in Hv as [-> ->].
  cbn [icons fold_left icon_files app].
  split; [| split; [| reflexivity]].
  - rewrite !dom_insert_L, dom_empty_L. set_solver.
  - intros name icon Hlook.
    repeat (apply lookup_insert_Some in Hlook as [[_ <-] | [_ Hlook]];
            [apply icon_for_shape |]).
    rewrite lookup_empty in Hlook. discriminate.
Qed.

(** X3: with a negative icon size (and font sizes a font can have),
    construction raises: no file can be resized to a negative size,
    so the first icon goes to the handler, whose own [Image.new]
    raises [ValueError] outside any [try]. *)
Theorem negative_icon_size_is_fatal w cfg folder :
  icon_size cfg < 0 ->
  0 < font_large_size cfg -> 0 < font_small_size cfg ->
  (forall path im, image_file w path = Some im -> 0 <= width im) ->
  init w cfg folder = inl (ValueError "Width and height must be >= 0").
Proof.
  intros Hneg Hfl Hfs Hwf. unfold init, load_icons.
  destruct (IconClaims.setup_fonts_ok w cfg Hfl Hfs) as ([[large small] bold] & ->).
  cbn [bind icon_files load_icons_loop].
  assert (Hload : exists e,
             load_icon w cfg (path_join folder "calendar.png") = inl e).
  { unfold load_icon, open.
    destruct (image_file w (path_join folder "calendar.png")) as [im |] eqn:Hf;
      [| eexists; reflexivity].
    cbn [bind ok]. unfold resize, convert. cbn [width height].
    pose proof (Hwf _ _ Hf) as Hw.
    replace (icon_size cfg =? width im) with false by lia. cbn [andb].
    destruct (negb (c_int (icon_size cfg) && c_int (icon_size cfg)));
      [eexists; reflexivity |].
    replace (icon_size cfg <? 1) with true by lia.
    eexists. reflexivity. }
  destruct Hload as [e ->].
  unfold new. replace (icon_size cfg <? 0) with true by lia. reflexivity.
Qed.

End WithRaster.

Lemma fonts_all_or_nothing_witness :
  exists g out,
    init regular_face_world default_config "icons" = inr (g, out)
    /\ font_file regular_face_world "arial.ttf" = true
    /\ font_large g = DefaultFont /\ font_small g = DefaultFont
    /\ font_bold g = DefaultFont.
Proof.
  assert (Hok : is_ok (init regular_face_world default_config "icons") = true)
    by (vm_compute; reflexivity).
  destruct (is_ok_inr _ Hok) as [[g out] Hinit].
  exists g, out. split; [exact Hinit |]. split; [reflexivity |].
  pose proof (fonts_all_or_nothing _ _ _ _ _ Hinit) as Hfonts.
  change (font_file regular_face_world "arial.ttf"
          && font_file regular_face_world "arialbd.ttf") with false in Hfonts.
  injection Hfonts as -> -> ->. repeat split.
Defined.

Lemma init_icons_witness :
  exists g out,
    init (bare_world 1024 256) default_config "icons" = inr (g, out)
    /\ (forall icon, icons g !! "clock" = Some icon -> shape icon = (RGBA, 24, 24))
    /\ List.length out = 4%nat.
Proof.
  assert (Hok : is_ok (init (bare_world 1024 256) default_config "icons") = true)
    by (vm_compute; reflexivity).
  destruct (is_ok_inr _ Hok) as [[g out] Hinit].
  exists g, out. split; [exact Hinit |].
  destruct (init_icons _ _ _ _ _ Hinit) as (_ & Hshape & ->).
  split; [| reflexivity].
  intros icon Hlook. exact (Hshape "clock" icon Hlook).
Defined.

Lemma negative_icon_size_is_fatal_witness :
  init empty_world bad_icon_config "icons"
  = inl (ValueError "Width and height must be >= 0").
Proof.
  apply (negative_icon_size_is_fatal empty_world bad_icon_config "icons").
  - simpl. lia.
  - simpl. lia.
  - simpl. lia.
  - intros path im Hf. discriminate Hf.
Defined.

End ConstructionFacts.

(** ** The exceptions that can leave [generate_ticket] *)

Module ErrorFacts.
Import PIL PILFacts TicketGenerator GeneratorFacts Raised Fixtures Samples.

Lemma bind_inl {A B} (r : result A) (k : A -> result B) (e : exn) :
  bind r k = inl e -> r = inl e \/ exists v, r = inr v /\ k v = inl e.
Proof.
  destruct r as [e' | v]; simpl; intros Hk; [| eauto].
  injection Hk as ->. left. reflexivity.
Qed.

Create HintDb raised.

(** Take a failed computation apart, down to the calls it makes. *)
Ltac raised H :=
  unfold raise, ok in H;
  repeat match type of H with
         | inl _ = inl _ => injection H as <-; reflexivity
         | inr _ = inl _ => discriminate H
         | bind _ _ = inl _ => apply bind_inl in H as [H | (? & _ & H)]
         | (if ?c then _ else _) = inl _ => destruct c
         | (let '(_, _) := ?x in _) = inl _ => destruct x
         end;
  eauto with raised.

Lemma of_int_raises n e : PyFloat.of_int n = inl e -> computational e = true.
Proof.
  unfold PyFloat.of_int. intros Hr.
  destruct (binary_normalize _ _ n 0 false); raised Hr.
Qed.

Lemma finite_raises f e : PyFloat.finite f = inl e -> computational e = true.
Proof. unfold PyFloat.finite. intros Hr. destruct f; raised Hr. Qed.

#[local] Hint Resolve of_int_raises finite_raises : raised.

Lemma int_truediv_raises a b e :
  PyFloat.int_truediv a b = inl e -> computational e = true.
Proof. unfold PyFloat.int_truediv. intros Hr. raised Hr. Qed.

Lemma int_div_float_raises n x e :
  PyFloat.int_div_float n x = inl e -> computational e = true.
Proof. unfold PyFloat.int_div_float. intros Hr. raised Hr. Qed.

Lemma int_mul_float_raises n x e :
  PyFloat.int_mul_float n x = inl e -> computational e = true.
Proof. unfold PyFloat.int_mul_float. intros Hr. raised Hr. Qed.

Lemma float_add_int_raises x n e :
  PyFloat.float_add_int x n = inl e -> computational e = true.
Proof. unfold PyFloat.float_add_int. intros Hr. raised Hr. Qed.

Lemma int_sub_float_raises n x e :
  PyFloat.int_sub_float n x = inl e -> computational e = true.
Proof. unfold PyFloat.int_sub_float. intros Hr. raised Hr. Qed.

Lemma to_int_raises x e : PyFloat.to_int x = inl e -> computational e = true.
Proof. unfold PyFloat.to_int. intros Hr. destruct x; raised Hr. Qed.

Lemma round_raises x e : PyFloat.round x = inl e -> computational e = true.
Proof.
  unfold PyFloat.round. intros Hr. destruct x; raised Hr.
Qed.

#[local] Hint Resolve int_truediv_raises int_div_float_raises int_mul_float_raises
  float_add_int_raises int_sub_float_raises to_int_raises round_raises : raised.

Lemma new_raises m sz c e : new m sz c = inl e -> computational e = true.
Proof. unfold new. destruct sz as [w h]. intros Hr. raised Hr. Qed.

Lemma crop_raises im box e : crop im box = inl e -> computational e = true.
Proof.
  unfold crop. destruct box as [[[x_left y_upper] x_right] y_lower].
  intros Hr. raised Hr.
Qed.

Lemma check_box_raises xy e : check_box xy = inl e -> computational e = true.
Proof.
  unfold check_box. destruct xy as [[[x0 y0] x1] y1]. intros Hr. raised Hr.
Qed.

#[local] Hint Resolve new_raises crop_raises check_box_raises : raised.

Lemma check_version_raises version e :
  QR.check_version version = inl e -> computational e = true.
Proof. unfold QR.check_version. intros Hr. raised Hr. Qed.

Lemma check_capacity_raises version data_list e :
  QR.check_capacity version data_list = inl e -> computational e = true.
Proof. unfold QR.check_capacity. intros Hr. raised Hr. Qed.

#[local] Hint Resolve check_version_raises check_capacity_raises : raised.

Lemma best_fit_raises data_list : forall depth start e,
  QR.best_fit depth data_list start = inl e -> computational e = true.
Proof.
  induction depth as [| depth IH]; intros start e Hr; cbn [QR.best_fit] in Hr;
    raised Hr.
Qed.

#[local] Hint Resolve best_fit_raises : raised.

Section WithRaster.
Context `{Raster}.

Lemma resize_raises im sz f e : resize im sz f = inl e -> computational e = true.
Proof. unfold resize. destruct sz as [w h]. intros Hr. raised Hr. Qed.

Lemma paste_raises dst src xy mask e :
  paste dst src xy mask = inl e -> computational e = true.
Proof.
  unfold paste. destruct xy as [x0 y0]. intros Hr.
  destruct mask as [m |]; raised Hr.
Qed.

Lemma alpha_composite_raises a b e :
  alpha_composite a b = inl e -> computational e = true.
Proof. unfold alpha_composite. intros Hr. raised Hr. Qed.

Lemma draw_rectangle_raises im xy fill e :
  draw_rectangle im xy fill = inl e -> computational e = true.
Proof.
  unfold draw_rectangle. intros Hr.
  apply bind_inl in Hr as [Hr | (? & _ & Hr)]; [eauto with raised |].
  destruct xy as [[[x0 y0] x1] y1]. discriminate Hr.
Qed.

Lemma draw_pieslice_raises im xy start stop fill e :
  draw_pieslice im xy start stop fill = inl e -> computational e = true.
Proof. unfold draw_pieslice. intros Hr. raised Hr. Qed.

#[local] Hint Resolve resize_raises paste_raises alpha_composite_raises
  draw_rectangle_raises draw_pieslice_raises : raised.

Lemma create_rounded_rectangle_raises draw coords radius fill e :
  create_rounded_rectangle draw coords radius fill = inl e ->
  computational e = true.
Proof.
  unfold create_rounded_rectangle. destruct coords as [[[x1 y1] x2] y2].
  intros Hr. raised Hr.
Qed.

Lemma gradient_alpha_raises cfg i e :
  gradient_alpha cfg i = inl e -> computational e = true.
Proof. unfold gradient_alpha, alpha_of_ratio. intros Hr. raised Hr. Qed.

#[local] Hint Resolve gradient_alpha_raises : raised.

Lemma gradient_loop_raises cfg : forall columns gradient e,
  gradient_loop cfg columns gradient = inl e -> computational e = true.
Proof.
  induction columns as [| i rest IH]; intros gradient e Hr;
    cbn [gradient_loop] in Hr; raised Hr.
Qed.

#[local] Hint Resolve gradient_loop_raises : raised.

Lemma add_gradient_raises self ticket e :
  add_gradient self ticket = inl e -> computational e = true.
Proof. unfold add_gradient, gradient_overlay. intros Hr. raised Hr. Qed.

Lemma make_image_raises start box_size border data e :
  QR.make_image start box_size border data = inl e -> computational e = true.
Proof. unfold QR.make_image. intros Hr. raised Hr. Qed.

#[local] Hint Resolve create_rounded_rectangle_raises add_gradient_raises
  make_image_raises : raised.

Lemma open_raises w path e :
  open w path = inl e -> e = OSError path /\ image_file w path = None.
Proof.
  unfold open. destruct (image_file w path); intros Hr; [discriminate |].
  injection Hr as <-. split; reflexivity.
Qed.

(** [process_background] fails on its file, or in a computation. *)
Lemma process_background_raises self w background_path ticket e :
  process_background self w background_path ticket = inl e ->
  computational e = true
  \/ (e = OSError background_path /\ image_file w background_path = None).
Proof.
  unfold process_background. intros Hr.
  apply bind_inl in Hr as [Hr | (? & _ & Hr)];
    [right; apply open_raises; exact Hr | left].
  raised Hr.
Qed.

(** [add_qr_code] fails on the logo file, or in a computation. *)
Lemma add_qr_code_raises self w ticket payload e :
  add_qr_code self w ticket payload = inl e ->
  computational e = true
  \/ (e = OSError "./EVNTia.png" /\ image_file w "./EVNTia.png" = None).
Proof.
  unfold add_qr_code. intros Hr.
  apply bind_inl in Hr as [Hr | (? & _ & Hr)]; [left; eauto with raised |].
  apply bind_inl in Hr as [Hr | (? & _ & Hr)]; [left; eauto with raised |].
  apply bind_inl in Hr as [Hr | (? & _ & Hr)];
    [right; apply open_raises; exact Hr | left].
  raised Hr.
Qed.

(** X9: with its four icons in place, as after construction, a
    generator's [generate_ticket] never raises [KeyError], and the
    only [OSError]s that leave it are for the background file and
    for the logo file [./EVNTia.png], each only when that file
    cannot be opened. *)
Theorem generate_ticket_raises self w background_path ticket_data e :
  (forall name, In name ["calendar"; "clock"; "map"; "ticket"] ->
                is_Some (icons self !! name)) ->
  generate_ticket self w background_path ticket_data = inl e ->
  (forall key, e <> KeyError key)
  /\ (forall path,
        e = OSError path ->
        (path = background_path /\ image_file w background_path = None)
        \/ (path = "./EVNTia.png" /\ image_file w "./EVNTia.png" = None)).
Proof.
  intros Hicons Hr.
  assert (Hkind : computational e = true
                  \/ (e = OSError background_path
                      /\ image_file w background_path = None)
                  \/ (e = OSError "./EVNTia.png"
                      /\ image_file w "./EVNTia.png" = None)).
  { unfold generate_ticket in Hr.
    apply bind_inl in Hr as [Hr | (? & _ & Hr)]; [left; eauto with raised |].
    apply bind_inl in Hr as [Hr | (? & _ & Hr)].
    { apply process_background_raises in Hr. tauto. }
    apply bind_inl in Hr as [Hr | (? & _ & Hr)]; [left; eauto with raised |].
    apply bind_inl in Hr as [Hr | (? & _ & Hr)]; [left; eauto with raised |].
    destruct (get_text_dimensions (title (event ticket_data)) (font_bold self))
      as [title_width title_height].
    destruct (get_text_dimensions (category (event ticket_data)) (font_small self))
      as [category_width category_height].
    apply bind_inl in Hr as [Hr | (? & _ & Hr)]; [left; eauto with raised |].
    apply bind_inl in Hr as [Hr | (? & _ & Hr)].
    { exfalso.
      match type of Hr with
      | details_loop self _ ?c _ = _ =>
          destruct (RenderFacts.details_loop_run self ticket_data c Hicons)
            as (r & Hok & _)
      end.
      rewrite Hok in Hr. discriminate Hr. }
    apply add_qr_code_raises in Hr. tauto. }
  destruct Hkind as [Hc | [[-> Hf] | [-> Hf]]].
  - split; [intros key -> | intros path ->]; discriminate Hc.
  - split; [discriminate |]. intros path Heq. injection Heq as <-.
    left. split; [reflexivity | exact Hf].
  - split; [discriminate |]. intros path Heq. injection Heq as <-.
    right. split; [reflexivity | exact Hf].
Qed.

End WithRaster.

Lemma generate_ticket_raises_witness :
  generate_ticket (generator_in empty_world default_config) empty_world
    "./Mage4.jpg" demo_ticket_data = inl (OSError "./Mage4.jpg")
  /\ image_file empty_world "./Mage4.jpg" = None.
Proof.
  split; [reflexivity |].
  destruct (generate_ticket_raises
              (generator_in empty_world default_config) empty_world
              "./Mage4.jpg" demo_ticket_data (OSError "./Mage4.jpg"))
    as [_ Hcase].
  - intros name Hin. simpl in Hin.
    destruct Hin as [<- | [<- | [<- | [<- | []]]]]; vm_compute; eexists; reflexivity.
  - reflexivity.
  - destruct (Hcase "./Mage4.jpg" eq_refl) as [[_ Hnone] | [Heq _]].
    + exact Hnone.
    + discriminate Heq.
Defined.

End ErrorFacts.
